(** * spine2d-animation-mcp: animation synthesis and skeletal export

    A shallow embedding of the data-transforming core of the repository
    ([src/animation_generator.py] and [src/spine2d_integration.py]) and the
    proofs of the properties its specification states about it, followed by
    the layer extraction of [src/psd_parser.py], the storage directory the
    three components share, and further properties of the code.

    Conventions of the embedding.

    - A Python [dict] whose keys are data (track names, part keys, animation
      names) is an insertion-ordered association list ([Dict.t]): iteration
      order is the order of first insertion, assignment to an existing key
      keeps its place.
    - A Python [dict] used as a record (a keyframe, a particle, a layer) is a
      Rocq record.  A key the code tests with [in] or reads with [.get] is an
      [option] field; a key the code only ever indexes directly is a plain
      field.  Indexing an absent optional key raises [KeyError].
    - Numbers are kept abstract behind the interface [Number] (literals,
      the four operations, [==] and [<]), with two instances: IEEE binary64
      ([float64], what CPython computes with) and exact rationals ([exactQ]).
      Python's [int]/[float] distinction is not kept: an [int] is the number of
      the same value.
    - Exceptions are values of [exn] in the error monad [res]; code that
      mutates shared objects is embedded a second time over an explicit object
      store (module [Store]) and related to the value-level embedding. *)

From Stdlib Require Import List String Ascii Bool Arith ZArith QArith Lia.
From Stdlib Require Import PrimFloat Uint63.
Import ListNotations.

Set Implicit Arguments.
Set Warnings "-register-all".
Local Open Scope string_scope.
Local Open Scope list_scope.

(* ===================================================================== *)
(** * Numbers *)
(* ===================================================================== *)

(** The arithmetic the source uses on its [int] and [float] values. *)
Class Number (R : Type) : Type := {
  of_Z : Z -> R;
  add : R -> R -> R;
  sub : R -> R -> R;
  mul : R -> R -> R;
  div : R -> R -> R;
  eqb : R -> R -> bool;
  ltb : R -> R -> bool
}.

Declare Scope num_scope.
Delimit Scope num_scope with num.
Infix "+" := add : num_scope.
Infix "-" := sub : num_scope.
Infix "*" := mul : num_scope.
Infix "/" := div : num_scope.
Infix "==" := eqb (at level 70, no associativity) : num_scope.
Infix "<?" := ltb : num_scope.

(** A decimal literal such as [1.2] is [dec 12 10]: the quotient of two
    exactly represented integers, hence (division being correctly rounded in
    binary64) the double nearest to the decimal, which is how CPython reads
    the literal. *)
Definition dec {R} `{Number R} (n d : Z) : R := (of_Z n / of_Z d)%num.

(** Python's two-argument [min] and [max]: the first argument wins ties (and
    wins whenever the comparison is false). *)
Definition py_min {R} `{Number R} (a b : R) : R := if (b <? a)%num then b else a.
Definition py_max {R} `{Number R} (a b : R) : R := if (a <? b)%num then b else a.

(** Integers as binary64 numbers: exact for magnitudes below 2^53. *)
Definition float_of_Z (z : Z) : float :=
  match z with
  | Z0 => PrimFloat.zero
  | Zpos _ => PrimFloat.of_uint63 (Uint63.of_Z z)
  | Zneg p => PrimFloat.opp (PrimFloat.of_uint63 (Uint63.of_Z (Zpos p)))
  end.

#[export] Instance float64 : Number float := {|
  of_Z := float_of_Z;
  add := PrimFloat.add;
  sub := PrimFloat.sub;
  mul := PrimFloat.mul;
  div := PrimFloat.div;
  eqb := PrimFloat.eqb;
  ltb := PrimFloat.ltb
|}.

Definition Qltb (a b : Q) : bool := negb (Qle_bool b a).

#[export] Instance exactQ : Number Q := {|
  of_Z := inject_Z;
  add := Qplus;
  sub := Qminus;
  mul := Qmult;
  div := Qdiv;
  eqb := Qeq_bool;
  ltb := Qltb
|}.

(* ===================================================================== *)
(** * Strings *)
(* ===================================================================== *)

(** [str.lower] on ASCII text: [A]..[Z] become [a]..[z], every other byte is
    kept.  Request texts and layer names are read as ASCII. *)
Definition lower_ascii (c : ascii) : ascii :=
  let n := nat_of_ascii c in
  if (65 <=? n)%nat && (n <=? 90)%nat then ascii_of_nat (n + 32) else c.

Fixpoint lower (s : string) : string :=
  match s with
  | EmptyString => EmptyString
  | String c t => String (lower_ascii c) (lower t)
  end.

(** [needle in hay] on strings: substring test. *)
Fixpoint str_in (needle hay : string) : bool :=
  String.prefix needle hay ||
  match hay with
  | EmptyString => false
  | String _ t => str_in needle t
  end.

(** [s.replace(old, new)] for a non-empty [old]: occurrences are replaced
    left to right and do not overlap ([skip] counts the characters of an
    occurrence still to be dropped). *)
Fixpoint replace_from (old new : string) (skip : nat) (s : string) : string :=
  match s with
  | EmptyString => EmptyString
  | String c t =>
      match skip with
      | S k => replace_from old new k t
      | O =>
          if String.prefix old s
          then (new ++ replace_from old new (String.length old - 1) t)%string
          else String c (replace_from old new 0 t)
      end
  end.

Definition str_replace (old new s : string) : string := replace_from old new 0 s.

(* ===================================================================== *)
(** * Dictionaries *)
(* ===================================================================== *)

Module Dict.

Definition t (V : Type) : Type := list (string * V).

Definition empty {V} : t V := [].

Fixpoint get {V} (k : string) (d : t V) : option V :=
  match d with
  | [] => None
  | (k', v) :: r => if String.eqb k' k then Some v else get k r
  end.

(** [k in d] *)
Definition mem {V} (k : string) (d : t V) : bool :=
  match get k d with Some _ => true | None => false end.

(** [d[k] = v]: an existing key keeps its position, a new key goes last. *)
Fixpoint set {V} (k : string) (v : V) (d : t V) : t V :=
  match d with
  | [] => [(k, v)]
  | (k', v') :: r =>
      if String.eqb k' k then (k', v) :: r else (k', v') :: set k v r
  end.

Definition keys {V} (d : t V) : list string := map fst d.
Definition values {V} (d : t V) : list V := map snd d.
Definition items {V} (d : t V) : list (string * V) := d.

(** A dictionary holds each key once. *)
Definition wf {V} (d : t V) : Prop := NoDup (keys d).

End Dict.

(* ===================================================================== *)
(** * Exceptions *)
(* ===================================================================== *)

(** [BadReference] has no Python counterpart: it is what the store-level
    embedding returns for a location that holds no object of the expected
    kind, which a store built by the program never does. *)
Inductive exn : Type :=
| KeyError (key : string)
| ZeroDivisionError
| BadReference.

Inductive res (A : Type) : Type :=
| Ok (a : A)
| Raise (e : exn).
Arguments Ok {A} a.
Arguments Raise {A} e.

Definition bind {A B} (m : res A) (f : A -> res B) : res B :=
  match m with
  | Ok a => f a
  | Raise e => Raise e
  end.

Declare Scope res_scope.
Delimit Scope res_scope with res.
Notation "x <- m ;; k" := (bind m (fun x => k))
  (at level 61, m at next level, right associativity) : res_scope.
Open Scope res_scope.

(** [d[key]] on an optional field. *)
Definition index {A} (key : string) (o : option A) : res A :=
  match o with
  | Some a => Ok a
  | None => Raise (KeyError key)
  end.

Fixpoint mapM {A B} (f : A -> res B) (l : list A) : res (list B) :=
  match l with
  | [] => Ok []
  | a :: r => b <- f a ;; bs <- mapM f r ;; Ok (b :: bs)
  end.

(* ===================================================================== *)
(** * Animation data ([animation_generator.py]) *)
(* ===================================================================== *)

Section AnimationData.
Context {R : Type}.

(** A keyframe dictionary: ["time"], ["rotation"], ["x"], ["y"],
    ["expression"]. *)
Record keyframe : Type := mk_keyframe {
  kf_time : option R;
  kf_rotation : option R;
  kf_x : option R;
  kf_y : option R;
  kf_expression : option string
}.

(** A particle descriptor: ["type"], ["count"], ["duration"], ["color"]. *)
Record particle : Type := mk_particle {
  p_type : string;
  p_count : option Z;
  p_duration : option R;
  p_color : option string
}.

(** The ["keyframes"] dictionary: track (bone) name to keyframe list. *)
Definition tracks : Type := Dict.t (list keyframe).

(** An animation (a template or a synthesized animation): ["name"],
    ["duration"], ["keyframes"], ["particles"]. *)
Record animation : Type := mk_animation {
  a_name : string;
  a_duration : R;
  a_keyframes : option tracks;
  a_particles : option (list particle)
}.

Definition set_duration (a : animation) (d : R) : animation :=
  {| a_name := a_name a; a_duration := d;
     a_keyframes := a_keyframes a; a_particles := a_particles a |}.

Definition set_keyframes (a : animation) (k : tracks) : animation :=
  {| a_name := a_name a; a_duration := a_duration a;
     a_keyframes := Some k; a_particles := a_particles a |}.

Definition set_particles (a : animation) (p : list particle) : animation :=
  {| a_name := a_name a; a_duration := a_duration a;
     a_keyframes := a_keyframes a; a_particles := Some p |}.

(** An emotion modifier. *)
Record face_data : Type := mk_face { base_expression : string; blink_rate : R }.
Record movement_data : Type := mk_movement { speed : R; bounce : R; energy : R }.
Record emotion_data : Type := mk_emotion { face : face_data; movement : movement_data }.

End AnimationData.

Arguments keyframe R : clear implicits.
Arguments particle R : clear implicits.
Arguments tracks R : clear implicits.
Arguments animation R : clear implicits.
Arguments face_data R : clear implicits.
Arguments movement_data R : clear implicits.
Arguments emotion_data R : clear implicits.

Section Templates.
Context {R : Type} {NR : Number R}.

(** Keyframe literals of the templates, by the keys they carry. *)
Definition kf_trxy (t r x y : R) : keyframe R :=
  mk_keyframe (Some t) (Some r) (Some x) (Some y) None.
Definition kf_tr (t r : R) : keyframe R :=
  mk_keyframe (Some t) (Some r) None None None.
Definition kf_tx (t x : R) : keyframe R :=
  mk_keyframe (Some t) None (Some x) None None.
Definition kf_ty (t y : R) : keyframe R :=
  mk_keyframe (Some t) None None (Some y) None.
Definition kf_txy (t x y : R) : keyframe R :=
  mk_keyframe (Some t) None (Some x) (Some y) None.
Definition kf_te (t : R) (e : string) : keyframe R :=
  mk_keyframe (Some t) None None None (Some e).

Definition template (name : string) (duration : R) (k : tracks R) : animation R :=
  mk_animation name duration (Some k) None.

Let i (z : Z) : R := of_Z z.
Let d (n : Z) : R := dec n 10.

Definition wave_template : animation R :=
  template "Wave" (i 2)
    [ ("arm_right",
        [ kf_trxy (i 0) (i 0) (i 0) (i 0);
          kf_trxy (d 5) (i 45) (i 10) (i (-20));
          kf_trxy (i 1) (i (-15)) (i 15) (i (-15));
          kf_trxy (d 15) (i 45) (i 10) (i (-20));
          kf_trxy (i 2) (i 0) (i 0) (i 0) ]);
      ("hand_right",
        [ kf_tr (i 0) (i 0); kf_tr (d 5) (i 15); kf_tr (i 1) (i (-10));
          kf_tr (d 15) (i 15); kf_tr (i 2) (i 0) ]);
      ("face", [ kf_te (i 0) "neutral"; kf_te (i 2) "neutral" ]) ].

Definition jump_template : animation R :=
  template "Jump" (d 15)
    [ ("root", [ kf_ty (i 0) (i 0); kf_ty (d 7) (i 100); kf_ty (d 15) (i 0) ]);
      ("leg_left",
        [ kf_tr (i 0) (i 0); kf_tr (d 3) (i (-15)); kf_tr (d 7) (i 10);
          kf_tr (d 12) (i (-20)); kf_tr (d 15) (i 0) ]);
      ("leg_right",
        [ kf_tr (i 0) (i 0); kf_tr (d 3) (i (-15)); kf_tr (d 7) (i 10);
          kf_tr (d 12) (i (-20)); kf_tr (d 15) (i 0) ]);
      ("face",
        [ kf_te (i 0) "neutral"; kf_te (d 7) "excited"; kf_te (d 15) "neutral" ]) ].

Definition walk_template : animation R :=
  template "Walk" (d 12)
    [ ("root", [ kf_tx (i 0) (i 0); kf_tx (d 12) (i 50) ]);
      ("leg_left",
        [ kf_tr (i 0) (i 0); kf_tr (d 3) (i 20); kf_tr (d 6) (i 0);
          kf_tr (d 9) (i (-20)); kf_tr (d 12) (i 0) ]);
      ("leg_right",
        [ kf_tr (i 0) (i (-20)); kf_tr (d 3) (i 0); kf_tr (d 6) (i 20);
          kf_tr (d 9) (i 0); kf_tr (d 12) (i (-20)) ]);
      ("arm_left", [ kf_tr (i 0) (i (-10)); kf_tr (d 6) (i 10); kf_tr (d 12) (i (-10)) ]);
      ("arm_right", [ kf_tr (i 0) (i 10); kf_tr (d 6) (i (-10)); kf_tr (d 12) (i 10) ]);
      ("face", [ kf_te (i 0) "neutral"; kf_te (d 12) "neutral" ]) ].

Definition run_template : animation R :=
  template "Run" (d 8)
    [ ("root",
        [ kf_txy (i 0) (i 0) (i 0); kf_txy (d 2) (i 15) (i 10);
          kf_txy (d 4) (i 30) (i 0); kf_txy (d 6) (i 45) (i 10);
          kf_txy (d 8) (i 60) (i 0) ]);
      ("leg_left",
        [ kf_tr (i 0) (i (-30)); kf_tr (d 2) (i 0); kf_tr (d 4) (i 30);
          kf_tr (d 6) (i 0); kf_tr (d 8) (i (-30)) ]);
      ("leg_right",
        [ kf_tr (i 0) (i 30); kf_tr (d 2) (i 0); kf_tr (d 4) (i (-30));
          kf_tr (d 6) (i 0); kf_tr (d 8) (i 30) ]);
      ("arm_left", [ kf_tr (i 0) (i 30); kf_tr (d 4) (i (-30)); kf_tr (d 8) (i 30) ]);
      ("arm_right", [ kf_tr (i 0) (i (-30)); kf_tr (d 4) (i 30); kf_tr (d 8) (i (-30)) ]);
      ("face", [ kf_te (i 0) "determined"; kf_te (d 8) "determined" ]) ].

Definition idle_template : animation R :=
  template "Idle" (i 4)
    [ ("root", [ kf_ty (i 0) (i 0); kf_ty (i 2) (i (-3)); kf_ty (i 4) (i 0) ]);
      ("body", [ kf_tr (i 0) (i 0); kf_tr (i 2) (i 2); kf_tr (i 4) (i 0) ]);
      ("head",
        [ kf_tr (i 0) (i 0); kf_tr (i 1) (i (-1)); kf_tr (i 3) (i 1); kf_tr (i 4) (i 0) ]);
      ("face",
        [ kf_te (i 0) "neutral"; kf_te (d 15) "blink"; kf_te (d 17) "neutral";
          kf_te (i 4) "neutral" ]) ].

(** [_initialize_templates], as values. *)
Definition _initialize_templates : Dict.t (animation R) :=
  [ ("wave", wave_template); ("jump", jump_template); ("walk", walk_template);
    ("run", run_template); ("idle", idle_template) ].

(** [_initialize_emotions] *)
Definition _initialize_emotions : Dict.t (emotion_data R) :=
  [ ("happy", mk_emotion (mk_face "happy" (d 3)) (mk_movement (d 12) (d 13) (d 13)));
    ("sad", mk_emotion (mk_face "sad" (d 1)) (mk_movement (d 7) (d 5) (d 6)));
    ("angry", mk_emotion (mk_face "angry" (d 1)) (mk_movement (d 13) (d 8) (d 15)));
    ("scared", mk_emotion (mk_face "scared" (d 4)) (mk_movement (d 14) (d 7) (d 11)));
    ("excited", mk_emotion (mk_face "excited" (d 2)) (mk_movement (d 15) (d 15) (d 18))) ].

End Templates.

(* ===================================================================== *)
(** * The animation generator, on values *)
(* ===================================================================== *)

Section AnimationGenerator.
Context {R : Type} {NR : Number R}.
Local Open Scope num_scope.

(** [self.templates] and [self.emotions]. *)
Definition templates : Dict.t (animation R) := _initialize_templates.
Definition emotions : Dict.t (emotion_data R) := _initialize_emotions.

(** The loop [for name in keys: if name in description: result = name; break]
    with its default. *)
Fixpoint first_key_in (keys : list string) (description default : string) : string :=
  match keys with
  | [] => default
  | name :: rest =>
      if str_in name description then name
      else first_key_in rest description default
  end.

Definition intensity_words : Dict.t R :=
  [ ("very", dec 15 10); ("extremely", of_Z 2); ("slightly", dec 7 10);
    ("barely", dec 5 10); ("incredibly", of_Z 2); ("super", dec 18 10);
    ("little", dec 6 10) ].

(** The loop [for word, modifier in intensity_words.items(): ...; break]. *)
Fixpoint first_word_in (words : list (string * R)) (description : string)
  (default : R) : R :=
  match words with
  | [] => default
  | (word, modifier) :: rest =>
      if str_in word description then modifier
      else first_word_in rest description default
  end.

(** [_parse_description] (lines 312-352).  Nothing in it can raise: it is a
    function of the text. *)
Definition _parse_description (description : string) : string * string * R :=
  let description := lower description in
  let animation_type := first_key_in (Dict.keys templates) description "idle" in
  let emotion := first_key_in (Dict.keys emotions) description "neutral" in
  let intensity := first_word_in (Dict.items intensity_words) description (of_Z 1) in
  (animation_type, emotion, intensity).

(** [_get_template] (lines 354-362); [copy.deepcopy] of a value is the
    value. *)
Definition _get_template (animation_type : string) : res (animation R) :=
  let animation_type :=
    if negb (Dict.mem animation_type templates) then "idle" else animation_type in
  index animation_type (Dict.get animation_type templates).

(** The body of [for prop in ["rotation", "x", "y"]] for one property. *)
Definition scale_prop (energy_modifier : R) (v : option R) : option R :=
  match v with
  | Some v => if negb (v == of_Z 0) then Some (v * energy_modifier) else Some v
  | None => None
  end.

Definition energize (energy_modifier : R) (kf : keyframe R) : keyframe R :=
  {| kf_time := kf_time kf;
     kf_rotation := scale_prop energy_modifier (kf_rotation kf);
     kf_x := scale_prop energy_modifier (kf_x kf);
     kf_y := scale_prop energy_modifier (kf_y kf);
     kf_expression := kf_expression kf |}.

Definition express (base : string) (kf : keyframe R) : res (keyframe R) :=
  e <- index "expression" (kf_expression kf) ;;
  if String.eqb e "neutral"
  then Ok {| kf_time := kf_time kf; kf_rotation := kf_rotation kf;
             kf_x := kf_x kf; kf_y := kf_y kf; kf_expression := Some base |}
  else Ok kf.

(** The body of [for bone_name, keyframes in result["keyframes"].items()]. *)
Definition modulate_track (emotion : emotion_data R) (energy_modifier : R)
  (bone_name : string) (keyframes : list (keyframe R)) : res (list (keyframe R)) :=
  if String.eqb bone_name "face"
  then mapM (express (base_expression (face emotion))) keyframes
  else Ok (map (energize energy_modifier) keyframes).

Definition modulate_tracks (emotion : emotion_data R) (energy_modifier : R)
  (k : tracks R) : res (tracks R) :=
  mapM (fun item : string * list (keyframe R) =>
          kfs <- modulate_track emotion energy_modifier (fst item) (snd item) ;;
          Ok (fst item, kfs))
       (Dict.items k).

(** [a / b], which raises on a zero divisor. *)
Definition py_div (a b : R) : res R :=
  if b == of_Z 0 then Raise ZeroDivisionError else Ok (a / b).

(** [_apply_emotion] (lines 364-398); [template.copy()] of a value is the
    value. *)
Definition _apply_emotion (template : animation R) (emotion : string)
  (intensity : R) : res (animation R) :=
  match Dict.get emotion emotions with
  | None => Ok template
  | Some emotion_data =>
      let result := template in
      let speed_modifier := speed (movement emotion_data) in
      let energy_modifier := energy (movement emotion_data) in
      let speed_modifier := of_Z 1 + (speed_modifier - of_Z 1) * intensity in
      let energy_modifier := of_Z 1 + (energy_modifier - of_Z 1) * intensity in
      result <-
        (if negb (speed_modifier == of_Z 1)
         then d <- py_div (a_duration result) speed_modifier ;;
              Ok (set_duration result d)
         else Ok result) ;;
      keyframes <- index "keyframes" (a_keyframes result) ;;
      keyframes <- modulate_tracks emotion_data energy_modifier keyframes ;;
      Ok (set_keyframes result keyframes)
  end.

(** [_adjust_for_character] (lines 400-403) *)
Definition _adjust_for_character (animation_data : animation R)
  (character_id : string) : animation R :=
  animation_data.

Definition delay : R := dec 1 10.
Definition exaggerate (v : R) : R := v * dec 12 10.

(** The hair keyframe made from the root keyframe [kf]. *)
Definition hair_keyframe (duration : R) (kf : keyframe R) : res (keyframe R) :=
  t <- index "time" (kf_time kf) ;;
  let time := py_min (t + delay) duration in
  Ok {| kf_time := Some time;
        kf_rotation := option_map exaggerate (kf_rotation kf);
        kf_x := option_map exaggerate (kf_x kf);
        kf_y := option_map exaggerate (kf_y kf);
        kf_expression := None |}.

(** [for i, kf in enumerate(root_keyframes): if i > 0: ...append(hair_kf)] *)
Fixpoint hair_loop (duration : R) (i : nat) (root_keyframes : list (keyframe R))
  : res (list (keyframe R)) :=
  match root_keyframes with
  | [] => Ok []
  | kf :: rest =>
      if (0 <? i)%nat
      then hair_kf <- hair_keyframe duration kf ;;
           hair_keyframes <- hair_loop duration (S i) rest ;;
           Ok (hair_kf :: hair_keyframes)
      else hair_loop duration (S i) rest
  end.

Definition nonempty {A} (l : list A) : bool :=
  match l with [] => false | _ :: _ => true end.

Definition sparkle (duration : R) : particle R :=
  mk_particle "sparkle" (Some 10%Z) (Some duration) (Some "#FFFF99").
Definition fire (duration : R) : particle R :=
  mk_particle "fire" (Some 20%Z) (Some duration) (Some "#FF5500").
Definition water (duration : R) : particle R :=
  mk_particle "water" (Some 15%Z) (Some duration) (Some "#66CCFF").

(** The particle list built from the raw description. *)
Definition particles_of (duration : R) (description : string) : list (particle R) :=
  (if str_in "sparkle" description || str_in "magic" description
   then [sparkle duration] else []) ++
  (if str_in "fire" description then [fire duration] else []) ++
  (if str_in "water" description || str_in "splash" description
   then [water duration] else []).

(** [_add_physics_and_effects] (lines 405-463).  The early return on an
    existing hair track also skips the particles. *)
Definition _add_physics_and_effects (animation_data : animation R)
  (description : string) : res (animation R) :=
  keyframes <- index "keyframes" (a_keyframes animation_data) ;;
  if Dict.mem "hair" keyframes then Ok animation_data else
  animation_data <-
    (if Dict.mem "root" keyframes && negb (Dict.mem "hair" keyframes)
     then
       root_keyframes <- index "root" (Dict.get "root" keyframes) ;;
       hair_keyframes <- hair_loop (a_duration animation_data) 0 root_keyframes ;;
       if nonempty hair_keyframes
       then Ok (set_keyframes animation_data (Dict.set "hair" hair_keyframes keyframes))
       else Ok animation_data
     else Ok animation_data) ;;
  let particles := particles_of (a_duration animation_data) description in
  if nonempty particles
  then Ok (set_particles animation_data particles)
  else Ok animation_data.

(** Lines 275-284 of [generate_animation]: template, emotion, character,
    physics and effects. *)
Definition synthesize (animation_type emotion : string) (intensity : R)
  (character_id description : string) : res (animation R) :=
  template <- _get_template animation_type ;;
  animation_data <- _apply_emotion template emotion intensity ;;
  let animation_data := _adjust_for_character animation_data character_id in
  _add_physics_and_effects animation_data description.

(** What [generate_animation] saves, the generated identifier and the
    timestamp apart. *)
Record generated : Type := mk_generated {
  g_character_id : string;
  g_description : string;
  g_animation_type : string;
  g_emotion : string;
  g_intensity : R;
  g_duration : R;
  g_animation_data : animation R
}.

(** [generate_animation] (lines 261-310), without its directory and file
    operations. *)
Definition generate_animation (character_id description : string) : res generated :=
  let '(animation_type, emotion, intensity) := _parse_description description in
  animation_data <- synthesize animation_type emotion intensity character_id description ;;
  Ok {| g_character_id := character_id;
        g_description := description;
        g_animation_type := animation_type;
        g_emotion := emotion;
        g_intensity := intensity;
        g_duration := a_duration animation_data;
        g_animation_data := animation_data |}.

End AnimationGenerator.

Arguments generated R : clear implicits.

(* ===================================================================== *)
(** * Rigging and export ([spine2d_integration.py]) *)
(* ===================================================================== *)

Section RigData.
Context {R : Type}.

Record position : Type := mk_position { pos_x : R; pos_y : R }.
Record dimensions : Type := mk_dimensions { width : R; height : R }.

(** A layer of the character metadata.  ["image_path"] absent and
    ["image_path"] = [None] are both [None] here: the code tells them apart
    nowhere. *)
Inductive layer : Type := mk_layer {
  l_id : string;
  l_name : string;
  l_type : string;
  l_path : string;
  l_position : option position;
  l_dimensions : option dimensions;
  l_image_path : option string;
  l_children : option (list layer)
}.

Record rig_data : Type := mk_rig_data {
  parts : Dict.t layer;
  hierarchy : Dict.t (list string)
}.

Record bone : Type := mk_bone {
  b_name : string;
  b_parent : option string;
  b_x : R;
  b_y : R;
  b_length : R
}.

Record slot : Type := mk_slot {
  s_name : string;
  s_bone : string;
  s_attachment : string
}.

Record skeleton : Type := mk_skeleton {
  sk_bones : list bone;
  sk_slots : list slot
}.

Record attachment : Type := mk_attachment {
  at_x : R;
  at_y : R;
  at_width : R;
  at_height : R;
  at_path : string
}.

Definition skin : Type := Dict.t (Dict.t attachment).

Record ik_constraint : Type := mk_ik {
  ik_name : string;
  ik_target : string;
  ik_bones : list string;
  ik_mix : Z;
  ik_bendPositive : bool
}.

(** The exported animation. *)
Record rotate_frame : Type := mk_rotate {
  rf_time : R;
  rf_angle : R;
  rf_curve : string
}.

Record translate_frame : Type := mk_translate {
  tf_time : R;
  tf_x : R;
  tf_y : R;
  tf_curve : string
}.

Record bone_animation : Type := mk_bone_animation {
  rotate : list rotate_frame;
  translate : list translate_frame;
  scale : list translate_frame
}.

Record attachment_frame : Type := mk_attachment_frame {
  af_time : R;
  af_name : string
}.

Record slot_animation : Type := mk_slot_animation {
  sl_attachment : list attachment_frame
}.

Record event_frame : Type := mk_event {
  ev_time : R;
  ev_name : string;
  ev_string : string;
  ev_int : Z;
  ev_float : R
}.

Record spine_animation : Type := mk_spine_animation {
  sa_bones : Dict.t bone_animation;
  sa_slots : Dict.t slot_animation;
  sa_deform : Dict.t unit;
  sa_drawOrder : list unit;
  sa_events : list event_frame
}.

(** The ["skeleton"] header of a project; [sm_hash] is a generated
    identifier. *)
Record skeleton_meta : Type := mk_skeleton_meta {
  sm_hash : string;
  sm_spine : string;
  sm_width : R;
  sm_height : R;
  sm_images : string;
  sm_audio : string
}.

(** The skeleton document ([spine_project]). *)
Record spine_project : Type := mk_spine_project {
  sp_skeleton : skeleton_meta;
  sp_bones : list bone;
  sp_slots : list slot;
  sp_skins : Dict.t skin;
  sp_ik : list ik_constraint;
  sp_animations : Dict.t spine_animation
}.

(** The character metadata read by [rig_character]. *)
Record character_metadata : Type := mk_character_metadata {
  cm_dimensions : dimensions;
  cm_layers : option (list layer)
}.

End RigData.

Arguments position R : clear implicits.
Arguments dimensions R : clear implicits.
Arguments layer R : clear implicits.
Arguments rig_data R : clear implicits.
Arguments bone R : clear implicits.
Arguments skeleton R : clear implicits.
Arguments attachment R : clear implicits.
Arguments skin R : clear implicits.
Arguments rotate_frame R : clear implicits.
Arguments translate_frame R : clear implicits.
Arguments bone_animation R : clear implicits.
Arguments attachment_frame R : clear implicits.
Arguments slot_animation R : clear implicits.
Arguments event_frame R : clear implicits.
Arguments spine_animation R : clear implicits.
Arguments skeleton_meta R : clear implicits.
Arguments spine_project R : clear implicits.
Arguments character_metadata R : clear implicits.

Section Spine2DIntegration.
Context {R : Type} {NR : Number R}.
Local Open Scope num_scope.

(** [_flatten_layers]: every non-group layer, then the flattened children. *)
Fixpoint flatten_layer (l : layer R) : list (layer R) :=
  match l with
  | mk_layer _ _ type _ _ _ _ children =>
      (if negb (String.eqb type "group") then [l] else []) ++
      match children with
      | Some cs =>
          (fix flatten_all (ls : list (layer R)) : list (layer R) :=
             match ls with
             | [] => []
             | c :: rest => flatten_layer c ++ flatten_all rest
             end) cs
      | None => []
      end
  end.

Definition _flatten_layers (layers : list (layer R)) : list (layer R) :=
  flat_map flatten_layer layers.

Definition body_parts : Dict.t (list string) :=
  [ ("head", ["head"; "face"; "hair"]);
    ("body", ["body"; "torso"; "chest"]);
    ("arm_right", ["arm_right"; "right_arm"; "rightarm"]);
    ("arm_left", ["arm_left"; "left_arm"; "leftarm"]);
    ("hand_right", ["hand_right"; "right_hand"; "righthand"]);
    ("hand_left", ["hand_left"; "left_hand"; "lefthand"]);
    ("leg_right", ["leg_right"; "right_leg"; "rightleg"]);
    ("leg_left", ["leg_left"; "left_leg"; "leftleg"]);
    ("foot_right", ["foot_right"; "right_foot"; "rightfoot"]);
    ("foot_left", ["foot_left"; "left_foot"; "leftfoot"]) ].

(** The hierarchy relationships of [_analyze_character_structure]. *)
Definition fixed_hierarchy : Dict.t (list string) :=
  [ ("root", ["body"]);
    ("body", ["head"; "arm_left"; "arm_right"; "leg_left"; "leg_right"]);
    ("arm_left", ["hand_left"]);
    ("arm_right", ["hand_right"]);
    ("leg_left", ["foot_left"]);
    ("leg_right", ["foot_right"]) ].

(** [for part_key, part_names in body_parts.items():
       if any(part_name in layer_name ...): ...; break] *)
Fixpoint matching_part (table : list (string * list string)) (layer_name : string)
  : option string :=
  match table with
  | [] => None
  | (part_key, part_names) :: rest =>
      if existsb (fun part_name => str_in part_name layer_name) part_names
      then Some part_key
      else matching_part rest layer_name
  end.

(** [_analyze_character_structure] (lines 96-141): the last layer matching
    a part key is the one kept. *)
Definition _analyze_character_structure (layers : list (layer R)) : rig_data R :=
  let found :=
    fold_left
      (fun (parts : Dict.t (layer R)) (l : layer R) =>
         let layer_name := lower (l_name l) in
         match matching_part (Dict.items body_parts) layer_name with
         | Some part_key => Dict.set part_key l parts
         | None => parts
         end)
      (_flatten_layers layers) Dict.empty in
  {| parts := found; hierarchy := fixed_hierarchy |}.

(** [for parent_name, children in hierarchy.items():
       if part_name in children: parent = parent_name; break] *)
Fixpoint find_parent (table : list (string * list string)) (part_name : string)
  (default : string) : string :=
  match table with
  | [] => default
  | (parent_name, children) :: rest =>
      if existsb (String.eqb part_name) children then parent_name
      else find_parent rest part_name default
  end.

(** Truthiness of [layer["image_path"]]. *)
Definition has_image (l : layer R) : option string :=
  match l_image_path l with
  | Some p => if String.eqb p "" then None else Some p
  | None => None
  end.

(** The bone of one part. *)
Definition part_bone (rig : rig_data R) (dims : dimensions R)
  (part_name : string) (l : layer R) : res (bone R) :=
  xy <-
    match l_position l with
    | Some pos =>
        ldims <- index "dimensions" (l_dimensions l) ;;
        Ok (pos_x pos + width ldims / of_Z 2,
            height dims - pos_y pos - height ldims / of_Z 2)
    | None => Ok (width dims / of_Z 2, height dims / of_Z 2)
    end ;;
  let parent := find_parent (Dict.items (hierarchy rig)) part_name "root" in
  Ok {| b_name := part_name;
        b_parent := Some parent;
        b_x := fst xy - width dims / of_Z 2;
        b_y := snd xy - height dims / of_Z 2;
        b_length :=
          match l_dimensions l with
          | Some ldims => py_max (width ldims) (height ldims) / of_Z 2
          | None => of_Z 50
          end |}.

(** The slot of one part, if it has an image. *)
Definition part_slot (part_name : string) (l : layer R) : list slot :=
  match has_image l with
  | Some image_path =>
      [ {| s_name := ("slot_" ++ part_name)%string;
           s_bone := part_name;
           s_attachment := str_replace ".png" "" image_path |} ]
  | None => []
  end.

(** [for part_name, layer in rig_data["parts"].items()] *)
Fixpoint part_loop (rig : rig_data R) (dims : dimensions R)
  (items : list (string * layer R)) : res (list (bone R) * list slot) :=
  match items with
  | [] => Ok ([], [])
  | (part_name, l) :: rest =>
      b <- part_bone rig dims part_name l ;;
      let s := part_slot part_name l in
      bs <- part_loop rig dims rest ;;
      Ok (b :: fst bs, s ++ snd bs)
  end.

Definition root_bone (dims : dimensions R) : bone R :=
  {| b_name := "root";
     b_parent := None;
     b_x := width dims / of_Z 2;
     b_y := height dims / of_Z 2;
     b_length := of_Z 50 |}.

(** [_create_skeleton] (lines 158-206) *)
Definition _create_skeleton (rig : rig_data R) (dims : dimensions R)
  : res (skeleton R) :=
  bs <- part_loop rig dims (Dict.items (parts rig)) ;;
  Ok {| sk_bones := root_bone dims :: fst bs; sk_slots := snd bs |}.

(** [_create_skin] (lines 208-235) *)
Definition _create_skin (rig : rig_data R) : skin R :=
  fold_left
    (fun (sk : skin R) (item : string * layer R) =>
       let '(part_name, l) := item in
       match has_image l with
       | Some image_path =>
           let slot_name := ("slot_" ++ part_name)%string in
           let attachment_name := str_replace ".png" "" image_path in
           let wh :=
             match l_dimensions l with
             | Some ldims => (width ldims, height ldims)
             | None => (of_Z 100, of_Z 100)
             end in
           Dict.set slot_name
             [ (attachment_name,
                {| at_x := of_Z 0; at_y := of_Z 0;
                   at_width := fst wh; at_height := snd wh;
                   at_path := image_path |}) ] sk
       | None => sk
       end)
    (Dict.items (parts rig)) Dict.empty.

(** One [if proximal in parts and distal in parts: append(...)] block. *)
Definition limb_ik (rig : rig_data R) (name proximal distal : string)
  (bend_positive : bool) : list ik_constraint :=
  if Dict.mem proximal (parts rig) && Dict.mem distal (parts rig)
  then [ {| ik_name := name;
            ik_target := distal;
            ik_bones := [proximal];
            ik_mix := 1%Z;
            ik_bendPositive := bend_positive |} ]
  else [].

(** [_create_ik_constraints] (lines 237-279) *)
Definition _create_ik_constraints (rig : rig_data R) (sk : skeleton R)
  : list ik_constraint :=
  limb_ik rig "arm_right_ik" "arm_right" "hand_right" true ++
  limb_ik rig "arm_left_ik" "arm_left" "hand_left" false ++
  limb_ik rig "leg_right_ik" "leg_right" "foot_right" false ++
  limb_ik rig "leg_left_ik" "leg_left" "foot_left" false.

(** The project [rig_character] builds from the character metadata; [hash]
    is the generated identifier. *)
Definition rig_character (hash character_id : string)
  (metadata : character_metadata R) : res (spine_project R) :=
  let layers := match cm_layers metadata with Some ls => ls | None => [] end in
  let rig := _analyze_character_structure layers in
  sk <- _create_skeleton rig (cm_dimensions metadata) ;;
  let skin := _create_skin rig in
  let ik_constraints := _create_ik_constraints rig sk in
  Ok {| sp_skeleton :=
          {| sm_hash := hash;
             sm_spine := "4.1.00";
             sm_width := width (cm_dimensions metadata);
             sm_height := height (cm_dimensions metadata);
             sm_images := ("../characters/" ++ character_id ++ "/")%string;
             sm_audio := "" |};
        sp_bones := sk_bones sk;
        sp_slots := sk_slots sk;
        sp_skins := [ ("default", skin) ];
        sp_ik := ik_constraints;
        sp_animations := Dict.empty |}.

(** ** [_convert_to_spine_animation] *)

Definition get_or {A} (o : option A) (default : A) : A :=
  match o with Some a => a | None => default end.

Definition has_key {A} (o : option A) : bool :=
  match o with Some _ => true | None => false end.

(** The body of [for keyframe in keyframes]: the rotation and the
    translation of one keyframe appended to the sub-tracks. *)
Definition convert_keyframe (b : bone_animation R) (kf : keyframe R)
  : bone_animation R :=
  let time := get_or (kf_time kf) (of_Z 0) in
  let b :=
    match kf_rotation kf with
    | Some r =>
        {| rotate := rotate b ++
                     [ {| rf_time := time; rf_angle := r; rf_curve := "stepped" |} ];
           translate := translate b;
           scale := scale b |}
    | None => b
    end in
  if has_key (kf_x kf) || has_key (kf_y kf)
  then {| rotate := rotate b;
          translate := translate b ++
                       [ {| tf_time := time;
                            tf_x := get_or (kf_x kf) (of_Z 0);
                            tf_y := get_or (kf_y kf) (of_Z 0);
                            tf_curve := "stepped" |} ];
          scale := scale b |}
  else b.

(** The [bone_animation] of one track. *)
Definition track_animation (keyframes : list (keyframe R)) : bone_animation R :=
  fold_left convert_keyframe keyframes
    {| rotate := []; translate := []; scale := [] |}.

Definition has_animations (b : bone_animation R) : bool :=
  nonempty (rotate b) || nonempty (translate b) || nonempty (scale b).

(** [for bone_name, keyframes in animation_data.get("keyframes", {}).items()] *)
Definition convert_bones (k : tracks R) : Dict.t (bone_animation R) :=
  fold_left
    (fun (bones : Dict.t (bone_animation R)) (item : string * list (keyframe R)) =>
       let bone_animation := track_animation (snd item) in
       if has_animations bone_animation
       then Dict.set (fst item) bone_animation bones
       else bones)
    (Dict.items k) Dict.empty.

Definition face_attachment (kf : keyframe R) : list (attachment_frame R) :=
  match kf_expression kf with
  | Some e => [ {| af_time := get_or (kf_time kf) (of_Z 0); af_name := ("face_" ++ e)%string |} ]
  | None => []
  end.

Definition convert_slots (k : tracks R) : Dict.t (slot_animation R) :=
  match Dict.get "face" k with
  | Some keyframes =>
      Dict.set "slot_face"
        {| sl_attachment := flat_map face_attachment keyframes |} Dict.empty
  | None => Dict.empty
  end.

Definition particle_event (p : particle R) : event_frame R :=
  {| ev_time := of_Z 0;
     ev_name := ("effect_" ++ p_type p)%string;
     ev_string := get_or (p_color p) "#FFFFFF";
     ev_int := get_or (p_count p) 10%Z;
     ev_float := get_or (p_duration p) (of_Z 1) |}.

(** [_convert_to_spine_animation] (lines 399-472) *)
Definition _convert_to_spine_animation (animation_data : animation R)
  : spine_animation R :=
  let keyframes := get_or (a_keyframes animation_data) Dict.empty in
  {| sa_bones := convert_bones keyframes;
     sa_slots := convert_slots keyframes;
     sa_deform := Dict.empty;
     sa_drawOrder := [];
     sa_events :=
       match a_particles animation_data with
       | Some ps => map particle_event ps
       | None => []
       end |}.

(** ** [export_animation] *)

(** [spine_project["animations"][animation_name] = spine_animation] *)
Definition merge_animation (project : spine_project R) (animation_name : string)
  (a : spine_animation R) : spine_project R :=
  {| sp_skeleton := sp_skeleton project;
     sp_bones := sp_bones project;
     sp_slots := sp_slots project;
     sp_skins := sp_skins project;
     sp_ik := sp_ik project;
     sp_animations := Dict.set animation_name a (sp_animations project) |}.

(** Lines 320-324 of [export_animation]: the loaded project, the stored
    animation and the ["animation_type"] of its metadata give the exported
    document and its animation name. *)
Definition export_animation (project : spine_project R)
  (animation_data : animation R) (animation_type : option string)
  : string * spine_project R :=
  let animation_name := get_or animation_type "animation" in
  let spine_animation := _convert_to_spine_animation animation_data in
  (animation_name, merge_animation project animation_name spine_animation).

End Spine2DIntegration.

(* ===================================================================== *)
(** * The animation generator, on an object store *)
(* ===================================================================== *)

(** The generator keeps its templates as objects ([self.templates]) and
    works by mutation: [_get_template] deep-copies a template,
    [_apply_emotion] makes a shallow copy ([template.copy()]) whose
    ["keyframes"] is the same object as the deep copy's and rewrites the
    keyframes in place, [_add_physics_and_effects] assigns into those same
    objects.  Here the objects live in a store, at the granularity at which
    the code shares them: an animation dictionary refers to its ["keyframes"]
    dictionary by location.  The lists and keyframe dictionaries below a
    ["keyframes"] dictionary are reached through it alone and are kept as its
    value; rewriting a keyframe in place is a write to that object.  When
    Python raises in the middle of such a rewriting, the working copy is left
    partly rewritten; here it is left as it was.  Either way it is
    unreachable once the exception has left [generate_animation]. *)
Module Store.

Section WithNumbers.
Context {R : Type} {NR : Number R}.
Local Open Scope num_scope.

Definition loc : Type := nat.

Inductive object : Type :=
| AnimationObject (name : string) (duration : R) (keyframes : option loc)
    (particles : option (list (particle R)))
| TracksObject (k : tracks R).

Definition heap : Type := list object.

(** Computations: a result or an exception, and the store they leave. *)
Definition M (A : Type) : Type := heap -> res A * heap.

Definition ret {A} (a : A) : M A := fun h => (Ok a, h).

Definition sbind {A B} (m : M A) (f : A -> M B) : M B :=
  fun h =>
    match m h with
    | (Ok a, h') => f a h'
    | (Raise e, h') => (Raise e, h')
    end.

Definition lift {A} (r : res A) : M A := fun h => (r, h).

Fixpoint update {A} (n : nat) (a : A) (l : list A) : list A :=
  match l, n with
  | [], _ => []
  | _ :: r, O => a :: r
  | x :: r, S n' => x :: update n' a r
  end.

Definition alloc (o : object) : M loc := fun h => (Ok (List.length h), h ++ [o]).

Definition read (l : loc) : M object :=
  fun h =>
    match nth_error h l with
    | Some o => (Ok o, h)
    | None => (Raise BadReference, h)
    end.

Definition write (l : loc) (o : object) : M unit :=
  fun h => (Ok tt, update l o h).

End WithNumbers.

Declare Scope store_scope.
Delimit Scope store_scope with store.
Notation "x <- m ;; k" := (sbind m (fun x => k))
  (at level 61, m at next level, right associativity) : store_scope.

Section Generator.
Context {R : Type} {NR : Number R}.
Local Open Scope num_scope.
Local Open Scope store_scope.

Definition read_tracks (l : loc) : M (tracks R) :=
  o <- read l ;;
  match o with
  | TracksObject k => ret k
  | AnimationObject _ _ _ _ => lift (Raise BadReference)
  end.

(** A new animation object holding the value [a], with a ["keyframes"]
    object of its own. *)
Definition new_animation (a : animation R) : M loc :=
  k <- match a_keyframes a with
       | Some k => l <- alloc (TracksObject k) ;; ret (Some l)
       | None => ret None
       end ;;
  alloc (AnimationObject (a_name a) (a_duration a) k (a_particles a)).

(** The value an animation object holds in a store (what [json.dump]
    writes). *)
Definition snapshot (l : loc) (h : heap) : option (animation R) :=
  match nth_error h l with
  | Some (AnimationObject name duration (Some kl) particles) =>
      match nth_error h kl with
      | Some (TracksObject k) => Some (mk_animation name duration (Some k) particles)
      | _ => None
      end
  | Some (AnimationObject name duration None particles) =>
      Some (mk_animation name duration None particles)
  | _ => None
  end.

(** [copy.deepcopy]: the same value in objects of its own. *)
Definition deepcopy (l : loc) : M loc :=
  fun h =>
    match snapshot l h with
    | Some a => new_animation a h
    | None => (Raise BadReference, h)
    end.

(** [self.templates]: template name to template object. *)
Definition self_templates : Type := Dict.t loc.

Fixpoint new_templates (ts : list (string * animation R)) : M self_templates :=
  match ts with
  | [] => ret []
  | (name, a) :: rest =>
      l <- new_animation a ;;
      self <- new_templates rest ;;
      ret ((name, l) :: self)
  end.

(** [__init__]: the templates as objects of an empty store. *)
Definition init : res self_templates * heap :=
  new_templates (@_initialize_templates R NR) [].

Definition _parse_description (self : self_templates) (description : string)
  : string * string * R :=
  let description := lower description in
  let animation_type := first_key_in (Dict.keys self) description "idle" in
  let emotion := first_key_in (Dict.keys (@emotions R NR)) description "neutral" in
  let intensity := first_word_in (Dict.items intensity_words) description (of_Z 1) in
  (animation_type, emotion, intensity).

Definition _get_template (self : self_templates) (animation_type : string) : M loc :=
  let animation_type :=
    if negb (Dict.mem animation_type self) then "idle" else animation_type in
  l <- lift (index animation_type (Dict.get animation_type self)) ;;
  deepcopy l.

Definition _apply_emotion (template : loc) (emotion : string) (intensity : R)
  : M loc :=
  match Dict.get emotion emotions with
  | None => ret template
  | Some emotion_data =>
      o <- read template ;;
      match o with
      | TracksObject _ => lift (Raise BadReference)
      | AnimationObject name duration keyframes particles =>
          result <- alloc o ;;
          let speed_modifier := speed (movement emotion_data) in
          let energy_modifier := energy (movement emotion_data) in
          let speed_modifier := of_Z 1 + (speed_modifier - of_Z 1) * intensity in
          let energy_modifier := of_Z 1 + (energy_modifier - of_Z 1) * intensity in
          _ <- (if negb (speed_modifier == of_Z 1)
                then d <- lift (py_div duration speed_modifier) ;;
                     write result (AnimationObject name d keyframes particles)
                else ret tt) ;;
          kl <- lift (index "keyframes" keyframes) ;;
          k <- read_tracks kl ;;
          k' <- lift (modulate_tracks emotion_data energy_modifier k) ;;
          _ <- write kl (TracksObject k') ;;
          ret result
      end
  end.

Definition _adjust_for_character (animation_data : loc) (character_id : string)
  : loc := animation_data.

Definition _add_physics_and_effects (animation_data : loc) (description : string)
  : M loc :=
  o <- read animation_data ;;
  match o with
  | TracksObject _ => lift (Raise BadReference)
  | AnimationObject name duration keyframes particles0 =>
      kl <- lift (index "keyframes" keyframes) ;;
      k <- read_tracks kl ;;
      if Dict.mem "hair" k then ret animation_data else
      _ <- (if Dict.mem "root" k && negb (Dict.mem "hair" k)
            then
              root_keyframes <- lift (index "root" (Dict.get "root" k)) ;;
              hair_keyframes <- lift (hair_loop duration 0 root_keyframes) ;;
              if nonempty hair_keyframes
              then write kl (TracksObject (Dict.set "hair" hair_keyframes k))
              else ret tt
            else ret tt) ;;
      let particles := particles_of duration description in
      _ <- (if nonempty particles
            then write animation_data
                   (AnimationObject name duration keyframes (Some particles))
            else ret tt) ;;
      ret animation_data
  end.

Definition synthesize (self : self_templates) (animation_type emotion : string)
  (intensity : R) (character_id description : string) : M loc :=
  template <- _get_template self animation_type ;;
  animation_data <- _apply_emotion template emotion intensity ;;
  let animation_data := _adjust_for_character animation_data character_id in
  _add_physics_and_effects animation_data description.

(** [json.dump(animation_data)] *)
Definition dump (l : loc) : M (animation R) :=
  fun h =>
    match snapshot l h with
    | Some a => (Ok a, h)
    | None => (Raise BadReference, h)
    end.

Definition generate_animation (self : self_templates)
  (character_id description : string) : M (generated R) :=
  let '(animation_type, emotion, intensity) := _parse_description self description in
  l <- synthesize self animation_type emotion intensity character_id description ;;
  animation_data <- dump l ;;
  ret {| g_character_id := character_id;
         g_description := description;
         g_animation_type := animation_type;
         g_emotion := emotion;
         g_intensity := intensity;
         g_duration := a_duration animation_data;
         g_animation_data := animation_data |}.

(** The stored templates, read back as values. *)
Fixpoint stored_templates (self : self_templates) (h : heap)
  : option (Dict.t (animation R)) :=
  match self with
  | [] => Some []
  | (name, l) :: rest =>
      match snapshot l h, stored_templates rest h with
      | Some a, Some ts => Some ((name, a) :: ts)
      | _, _ => None
      end
  end.

(** A call of [synthesize], by its arguments. *)
Record call : Type := mk_call {
  c_animation_type : string;
  c_emotion : string;
  c_intensity : R;
  c_character_id : string;
  c_description : string
}.

(** A sequence of calls, each starting in the store the one before left
    (whether it returned or raised). *)
Fixpoint run (self : self_templates) (calls : list call) (h : heap) : heap :=
  match calls with
  | [] => h
  | c :: rest =>
      run self rest
        (snd (synthesize self (c_animation_type c) (c_emotion c) (c_intensity c)
                (c_character_id c) (c_description c) h))
  end.

End Generator.

End Store.

(* ===================================================================== *)
(** * Layer extraction ([psd_parser.py]) *)
(* ===================================================================== *)

From Stdlib Require Import DecimalString DecimalNat.

(** [str(i)] for a natural number. *)
Definition decimal (i : nat) : string := NilEmpty.string_of_uint (Nat.to_uint i).


(** [os.path.basename]: what follows the last "/". *)
Fixpoint basename (p : string) : string :=
  match p with
  | EmptyString => EmptyString
  | String c rest =>
      if str_in "/" rest then basename rest
      else if Ascii.eqb c "/" then rest else p
  end.

Section PsdParser.
Context {R : Type} {NR : Number R}.
Local Open Scope num_scope.

(** A layer of the document as [psd_tools] presents it: its name,
    [is_hidden()], for a group ([is_group()]) its layers in the order of
    iteration, [has_pixels()], [bbox], whether [composite()] gives an image
    that [save] writes, and the [opacity] and the printed [blend_mode] when
    the layer has these attributes. *)
Inductive psd_layer : Type := mk_psd_layer {
  psd_name : string;
  psd_is_hidden : bool;
  psd_group : option (list psd_layer);
  psd_has_pixels : bool;
  psd_bbox : Z * Z * Z * Z;
  psd_image_saved : bool;
  psd_opacity : option Z;
  psd_blend_mode : option string
}.

(** An entry of ["layers"] as [_process_layers] builds it: a group, with
    ["type"] "group", or a pixel layer, with ["type"] "pixel". *)
Inductive parsed_layer : Type :=
| GroupLayer (id name path : string) (visible : bool)
    (children : list parsed_layer)
| PixelLayer (id name path : string) (visible : bool)
    (position : Z * Z) (dimensions : Z * Z) (opacity : R) (blend_mode : string)
    (image_path : option string).

(** [_save_layer_image] (lines 128-149), as far as its result goes: the
    base name of the path it returns, or [None]. *)
Definition _save_layer_image (has_pixels image_saved : bool) (layer_id : string)
  : option string :=
  if negb has_pixels then None
  else if image_saved then Some (layer_id ++ ".png")%string
  else None.

(** [for i, layer in enumerate(...)]: the layers that are not skipped, each
    made with its index. *)
Fixpoint enumerate_from (i : nat) (layers : list (nat -> option parsed_layer))
  : list parsed_layer :=
  match layers with
  | [] => []
  | make :: rest =>
      match make i with
      | Some info => info :: enumerate_from (S i) rest
      | None => enumerate_from (S i) rest
      end
  end.

(** The body of the loop of [_process_layers] for the layer of index [i];
    [None] when the layer is hidden and skipped. *)
Fixpoint process_layer (layer : psd_layer) (parent_path : string) (i : nat)
  {struct layer} : option parsed_layer :=
  match layer with
  | mk_psd_layer layer_name hidden group has_pixels bbox image_saved opacity
      blend_mode =>
      if hidden then None else
      let layer_id := ("layer_" ++ decimal i)%string in
      let current_path :=
        if negb (String.eqb parent_path "")
        then (parent_path ++ "/" ++ layer_name)%string
        else layer_name in
      match group with
      | Some layers =>
          let sublayers :=
            enumerate_from 0
              (rev ((fix each (ls : list psd_layer)
                       : list (nat -> option parsed_layer) :=
                       match ls with
                       | [] => []
                       | l :: rest => process_layer l current_path :: each rest
                       end) layers)) in
          Some (GroupLayer layer_id layer_name current_path (negb hidden) sublayers)
      | None =>
          let layer_image_path := _save_layer_image has_pixels image_saved layer_id in
          let '(x_left, y_top, width, height) :=
            if has_pixels
            then let '(x_left, y_top, x_right, y_bottom) := bbox in
                 (x_left, y_top, (x_right - x_left)%Z, (y_bottom - y_top)%Z)
            else (0%Z, 0%Z, 0%Z, 0%Z) in
          Some (PixelLayer layer_id layer_name current_path (negb hidden)
                  (x_left, y_top) (width, height)
                  (match opacity with
                   | Some o => of_Z o / of_Z 255
                   | None => of_Z 1
                   end)
                  (match blend_mode with
                   | Some b => b
                   | None => "normal"
                   end)
                  layer_image_path)
      end
  end.

(** [_process_layers] (lines 73-126) *)
Definition _process_layers (psd : list psd_layer) (parent_path : string)
  : list parsed_layer :=
  enumerate_from 0 (rev (map (fun l => process_layer l parent_path) psd)).

(** The character's [metadata.json] as [parse_psd] writes it. *)
Record character_file : Type := mk_character_file {
  cf_character_id : string;
  cf_original_file : string;
  cf_dimensions : Z * Z;
  cf_layers_count : nat;
  cf_layers : list parsed_layer;
  cf_imported_at : string
}.


(** A layer of the metadata as [rig_character] reads it. *)
Fixpoint as_layer (l : parsed_layer) : layer R :=
  match l with
  | GroupLayer id name path _ children =>
      mk_layer id name "group" path None None None
        (Some ((fix each (ls : list parsed_layer) : list (layer R) :=
                  match ls with
                  | [] => []
                  | c :: rest => as_layer c :: each rest
                  end) children))
  | PixelLayer id name path _ (x, y) (w, h) _ _ image_path =>
      mk_layer id name "pixel" path
        (Some (mk_position (of_Z x) (of_Z y)))
        (Some (mk_dimensions (of_Z w) (of_Z h)))
        image_path None
  end.

(** The metadata as [rig_character] reads it: ["dimensions"] and
    ["layers"]. *)
Definition as_metadata (f : character_file) : character_metadata R :=
  {| cm_dimensions :=
       mk_dimensions (of_Z (fst (cf_dimensions f))) (of_Z (snd (cf_dimensions f)));
     cm_layers := Some (map as_layer (cf_layers f)) |}.

End PsdParser.

Arguments parsed_layer R : clear implicits.
Arguments character_file R : clear implicits.

(* ===================================================================== *)
(** * The storage directory *)
(* ===================================================================== *)

(** The storage directory holds what the three components write into it:
    under [characters], [animations], [rigs] and [exports], one directory
    for each identifier, whose JSON files are absent or as the program
    writes them.  A directory listing follows the order of the dictionary,
    which is any order.  Generated identifiers ([uuid4]) and timestamps are
    arguments. *)
Module Disk.

Section Storage.
Context {R : Type} {NR : Number R}.

(** [metadata.json] of an animation; the keys read with [.get] are
    options. *)
Record animation_metadata : Type := mk_animation_metadata {
  am_animation_id : option string;
  am_character_id : option string;
  am_description : option string;
  am_animation_type : option string;
  am_emotion : option string;
  am_intensity : R;
  am_duration : option R;
  am_created_at : option string
}.

Record animation_dir : Type := mk_animation_dir {
  ad_metadata : option animation_metadata;
  ad_animation : option (animation R)
}.

(** [metadata.json] of a rig. *)
Record rig_metadata : Type := mk_rig_metadata {
  rm_rig_id : string;
  rm_character_id : option string;
  rm_bone_count : nat;
  rm_ik_count : nat;
  rm_created_at : string
}.

Record rig_dir : Type := mk_rig_dir {
  rd_metadata : option rig_metadata;
  rd_project : option (spine_project R)
}.

(** [metadata.json] of an export. *)
Record export_metadata : Type := mk_export_metadata {
  xm_export_id : option string;
  xm_character_id : option string;
  xm_animation_id : option string;
  xm_format : option string;
  xm_created_at : option string
}.

(** What an export writes beside its metadata: the skeleton document, or a
    placeholder text. *)
Inductive export_file : Type :=
| Document (project : spine_project R)
| Placeholder (text : string).

(** The files of an export directory other than [metadata.json], by
    name. *)
Record export_dir : Type := mk_export_dir {
  xd_metadata : option export_metadata;
  xd_files : Dict.t export_file
}.

Record storage : Type := mk_storage {
  characters : Dict.t (option (character_file R));
  animations : Dict.t animation_dir;
  rigs : Dict.t rig_dir;
  exports : Dict.t export_dir
}.

(** The storage directory after [_ensure_directories]. *)
Definition empty_storage : storage := mk_storage [] [] [] [].

(** What the components raise: the exceptions of the motion synthesizer and
    of the skeleton builder, [ValueError], [FileNotFoundError] with a
    message, [FileNotFoundError] from [open], and the failure of
    [PSDImage.open]. *)
Inductive error : Type :=
| Exn (e : exn)
| ValueError (message : string)
| FileNotFoundError (message : string)
| NoSuchFile (directory file : string)
| PsdError.

Inductive outcome (A : Type) : Type :=
| Returns (a : A)
| Raises (e : error).
Arguments Returns {A} a.
Arguments Raises {A} e.

(** [os.makedirs(dir, exist_ok=True)] *)
Definition makedirs {D} (name : string) (empty : D) (d : Dict.t D) : Dict.t D :=
  if Dict.mem name d then d else Dict.set name empty d.

(** ** [PsdParser] *)

(** What is at the path given to [parse_psd]: nothing, a file
    [PSDImage.open] rejects, or a document with its size and layers. *)
Inductive psd_file : Type :=
| NoFile
| NotADocument
| PsdDocument (width height : Z) (layers : list psd_layer).



(** [get_character_metadata] (lines 157-166) *)
Definition get_character_metadata (character_id : string) (s : storage)
  : option (character_file R) :=
  match Dict.get character_id (characters s) with
  | Some (Some metadata) => Some metadata
  | _ => None
  end.



(** ** [AnimationGenerator] *)

(** [_save_animation_data] (lines 465-475) *)
Definition _save_animation_data (animation_id : string)
  (animation_data : animation R) (metadata : animation_metadata) (s : storage)
  : storage :=
  mk_storage (characters s)
    (Dict.set animation_id (mk_animation_dir (Some metadata) (Some animation_data))
       (animations s))
    (rigs s) (exports s).

(** What [generate_animation] returns. *)
Record generation_result : Type := mk_generation_result {
  gr_animation_id : string;
  gr_animation_type : string;
  gr_emotion : string;
  gr_duration : R
}.

(** [generate_animation] (lines 261-310) with its directory and files;
    [token] is [str(uuid.uuid4())[:8]] and [now] the timestamp. *)
Definition generate_animation (token now : string)
  (character_id description : string) (s : storage)
  : outcome generation_result * storage :=
  let '(animation_type, emotion, intensity) := _parse_description description in
  let animation_id := ("anim_" ++ token ++ "_" ++ animation_type)%string in
  let s := mk_storage (characters s)
             (makedirs animation_id (mk_animation_dir None None) (animations s))
             (rigs s) (exports s) in
  match synthesize animation_type emotion intensity character_id description with
  | Raise e => (Raises (Exn e), s)
  | Ok animation_data =>
      let metadata :=
        {| am_animation_id := Some animation_id;
           am_character_id := Some character_id;
           am_description := Some description;
           am_animation_type := Some animation_type;
           am_emotion := Some emotion;
           am_intensity := intensity;
           am_duration := Some (a_duration animation_data);
           am_created_at := Some now |} in
      let s := _save_animation_data animation_id animation_data metadata s in
      (Returns {| gr_animation_id := animation_id;
                  gr_animation_type := animation_type;
                  gr_emotion := emotion;
                  gr_duration := a_duration animation_data |}, s)
  end.

(** [get_animation_metadata] (lines 477-486) *)
Definition get_animation_metadata (animation_id : string) (s : storage)
  : option animation_metadata :=
  match Dict.get animation_id (animations s) with
  | Some dir => ad_metadata dir
  | None => None
  end.

(** [get_animation_data] (lines 488-497) *)
Definition get_animation_data (animation_id : string) (s : storage)
  : option (animation R) :=
  match Dict.get animation_id (animations s) with
  | Some dir => ad_animation dir
  | None => None
  end.

(** An entry of [list_animations]. *)
Record animation_entry : Type := mk_animation_entry {
  ae_id : option string;
  ae_character_id : option string;
  ae_description : option string;
  ae_animation_type : option string;
  ae_emotion : option string;
  ae_duration : option R;
  ae_created_at : option string
}.

(** [character_id is None or metadata.get("character_id") == character_id] *)
Definition for_character (character_id : option string) (found : option string)
  : bool :=
  match character_id with
  | None => true
  | Some c => match found with
              | Some c' => String.eqb c' c
              | None => false
              end
  end.

(** [list_animations] (lines 499-533) *)
Definition list_animations (character_id : option string) (s : storage)
  : list animation_entry :=
  flat_map
    (fun item : string * animation_dir =>
       match ad_metadata (snd item) with
       | Some metadata =>
           if for_character character_id (am_character_id metadata)
           then [ {| ae_id := am_animation_id metadata;
                     ae_character_id := am_character_id metadata;
                     ae_description := am_description metadata;
                     ae_animation_type := am_animation_type metadata;
                     ae_emotion := am_emotion metadata;
                     ae_duration := am_duration metadata;
                     ae_created_at := am_created_at metadata |} ]
           else []
       | None => []
       end)
    (Dict.items (animations s)).

(** ** [Spine2DIntegration] *)

(** [_save_rig_data] (lines 281-291) *)
Definition _save_rig_data (rig_id : string) (spine_project : spine_project R)
  (metadata : rig_metadata) (s : storage) : storage :=
  mk_storage (characters s) (animations s)
    (Dict.set rig_id (mk_rig_dir (Some metadata) (Some spine_project)) (rigs s))
    (exports s).

(** What [rig_character] returns. *)
Record rig_result : Type := mk_rig_result {
  rr_rig_id : string;
  rr_bone_count : nat;
  rr_ik_count : nat
}.

(** [rig_character] (lines 26-94) with its directory and files; [token] is
    [str(uuid.uuid4())[:8]] and [hash] the second identifier. *)
Definition rig_character (token hash now : string) (character_id : string)
  (s : storage) : outcome rig_result * storage :=
  match get_character_metadata character_id s with
  | None => (Raises (ValueError ("Character not found: " ++ character_id)), s)
  | Some metadata =>
      let rig_id := ("rig_" ++ token ++ "_" ++ character_id)%string in
      let s := mk_storage (characters s) (animations s)
                 (makedirs rig_id (mk_rig_dir None None) (rigs s)) (exports s) in
      match rig_character hash character_id (as_metadata metadata) with
      | Raise e => (Raises (Exn e), s)
      | Ok spine_project =>
          let rig_metadata :=
            {| rm_rig_id := rig_id;
               rm_character_id := Some character_id;
               rm_bone_count := List.length (sp_bones spine_project);
               rm_ik_count := List.length (sp_ik spine_project);
               rm_created_at := now |} in
          let s := _save_rig_data rig_id spine_project rig_metadata s in
          (Returns {| rr_rig_id := rig_id;
                      rr_bone_count := List.length (sp_bones spine_project);
                      rr_ik_count := List.length (sp_ik spine_project) |}, s)
      end
  end.

(** [_find_rig_for_character] (lines 375-397): the first rig directory of
    the listing whose metadata names the character. *)
Fixpoint first_rig_for (character_id : string) (listing : list (string * rig_dir))
  : option string :=
  match listing with
  | [] => None
  | (rig_dir_name, dir) :: rest =>
      match rd_metadata dir with
      | Some metadata =>
          if for_character (Some character_id) (rm_character_id metadata)
          then Some rig_dir_name
          else first_rig_for character_id rest
      | None => first_rig_for character_id rest
      end
  end.

Definition _find_rig_for_character (character_id : string) (s : storage)
  : option string :=
  first_rig_for character_id (Dict.items (rigs s)).

(** What [export_animation] returns. *)
Record export_result : Type := mk_export_result {
  xr_export_id : string;
  xr_format : string;
  xr_file : option string;
  xr_animation_name : string
}.

(** The file an export writes for a format, if any. *)
Definition export_output (format animation_name : string)
  (spine_project : spine_project R) : option (string * export_file) :=
  if String.eqb format "json"
  then Some ((animation_name ++ ".json")%string, Document spine_project)
  else if String.eqb format "png"
  then Some ((animation_name ++ ".png")%string, Placeholder "PNG output placeholder")
  else if String.eqb format "gif"
  then Some ((animation_name ++ ".gif")%string, Placeholder "GIF output placeholder")
  else None.

(** [export_animation] (lines 293-373) with its directory and files;
    [xr_file] is the name of the file written in the export directory, [None]
    standing for the empty [file_path]. *)
Definition export_animation (token now : string)
  (character_id animation_id format : string) (s : storage)
  : outcome export_result * storage :=
  match get_animation_data animation_id s, get_animation_metadata animation_id s with
  | Some animation_data, Some animation_metadata =>
      match _find_rig_for_character character_id s with
      | None =>
          (Raises (ValueError ("No rig found for character: " ++ character_id)), s)
      | Some rig_id =>
          match Dict.get rig_id (rigs s) with
          | Some (mk_rig_dir _ (Some spine_project)) =>
              let '(animation_name, spine_project) :=
                export_animation spine_project animation_data
                  (am_animation_type animation_metadata) in
              let export_id := ("export_" ++ token ++ "_" ++ animation_id)%string in
              let export_metadata :=
                {| xm_export_id := Some export_id;
                   xm_character_id := Some character_id;
                   xm_animation_id := Some animation_id;
                   xm_format := Some format;
                   xm_created_at := Some now |} in
              let dir :=
                match Dict.get export_id (exports s) with
                | Some dir => dir
                | None => mk_export_dir None []
                end in
              let output := export_output format animation_name spine_project in
              let dir :=
                mk_export_dir (Some export_metadata)
                  (match output with
                   | Some (name, content) => Dict.set name content (xd_files dir)
                   | None => xd_files dir
                   end) in
              (Returns {| xr_export_id := export_id;
                          xr_format := format;
                          xr_file := option_map fst output;
                          xr_animation_name := animation_name |},
               mk_storage (characters s) (animations s) (rigs s)
                 (Dict.set export_id dir (exports s)))
          | _ => (Raises (NoSuchFile rig_id "spine_project.json"), s)
          end
      end
  | _, _ => (Raises (ValueError ("Animation not found: " ++ animation_id)), s)
  end.





End Storage.

Arguments Returns {A} a.
Arguments Raises {A} e.
Arguments storage R : clear implicits.
Arguments animation_metadata R : clear implicits.
Arguments animation_dir R : clear implicits.
Arguments rig_dir R : clear implicits.
Arguments export_file R : clear implicits.
Arguments export_dir R : clear implicits.
Arguments animation_entry R : clear implicits.
Arguments generation_result R : clear implicits.

End Disk.

(* ===================================================================== *)
(** * Vocabulary of the properties *)
(* ===================================================================== *)

(** The predicates and the example inputs the properties below are stated
    with. *)

Set Warnings "-inexact-float".

(** [needle] occurs in [hay]. *)
Definition substring_of (needle hay : string) : Prop :=
  exists before after : string, hay = (before ++ needle ++ after)%string.

(** [result] is the first name of [names] that occurs in [text], or
    [default] when none does. *)
Definition first_occurring (names : list string) (text default result : string)
  : Prop :=
  (exists earlier later : list string,
      names = earlier ++ result :: later /\
      substring_of result text /\
      forall n, In n earlier -> ~ substring_of n text)
  \/ (result = default /\ forall n, In n names -> ~ substring_of n text).

(** [result] is the value of the first entry of [table] whose word occurs in
    [text], or [default] when none does. *)
Definition first_entry {V} (table : list (string * V)) (text : string)
  (default result : V) : Prop :=
  (exists (earlier later : list (string * V)) (word : string),
      table = earlier ++ (word, result) :: later /\
      substring_of word text /\
      forall n, In n (map fst earlier) -> ~ substring_of n text)
  \/ (result = default /\ forall n, In n (map fst table) -> ~ substring_of n text).

(** A boolean test for [Dict.wf]. *)
Fixpoint nodupb (l : list string) : bool :=
  match l with
  | [] => true
  | x :: r => negb (existsb (String.eqb x) r) && nodupb r
  end.

(** The four limb pairs, proximal part first. *)
Definition limb_pairs : list (string * string) :=
  [ ("arm_right", "hand_right"); ("arm_left", "hand_left");
    ("leg_right", "foot_right"); ("leg_left", "foot_left") ].

(** [parent] is the first key of [table] whose child list contains [part],
    or "root" when no child list does. *)
Definition hierarchy_parent (table : Dict.t (list string)) (part parent : string)
  : Prop :=
  (exists (earlier later : Dict.t (list string)) (children : list string),
      table = earlier ++ (parent, children) :: later /\
      In part children /\
      forall p c, In (p, c) earlier -> ~ In part c)
  \/ (parent = "root" /\ forall p c, In (p, c) table -> ~ In part c).

Section Vocabulary.
Context {R : Type} {NR : Number R}.
Local Open Scope num_scope.

(** [a <= b] *)
Definition num_le (a b : R) : bool := (a <? b) || (a == b).

(** The keyframe, if timed, lies within the duration. *)
Definition time_bounded (duration : R) (kf : keyframe R) : bool :=
  match kf_time kf with
  | Some t => num_le t duration
  | None => true
  end.

(** Every keyframe of every track has a time at most the duration. *)
Definition duration_bounds_times (a : animation R) : bool :=
  forallb (fun item : string * list (keyframe R) =>
             forallb (time_bounded (a_duration a)) (snd item))
          (Dict.items (get_or (a_keyframes a) Dict.empty)).

(** Two keyframes with the same time, and the same keys. *)
Definition same_keys (kf kf' : keyframe R) : Prop :=
  kf_time kf' = kf_time kf /\
  has_key (kf_rotation kf') = has_key (kf_rotation kf) /\
  has_key (kf_x kf') = has_key (kf_x kf) /\
  has_key (kf_y kf') = has_key (kf_y kf) /\
  has_key (kf_expression kf') = has_key (kf_expression kf).

(** Two track dictionaries with the same track names in the same order and
    keyframes of the same keys. *)
Definition same_shape (k k' : tracks R) : Prop :=
  Forall2 (fun it it' : string * list (keyframe R) =>
             fst it' = fst it /\ Forall2 same_keys (snd it) (snd it')) k k'.

(** The keyframe has a ["time"]. *)
Definition timed (kf : keyframe R) : bool := has_key (kf_time kf).

(** A template's root track, when it has one, has at least two keyframes,
    each with a time. *)
Definition root_track_ok (a : animation R) : bool :=
  match a_keyframes a with
  | Some k =>
      match Dict.get "root" k with
      | Some root => (2 <=? List.length root)%nat && forallb timed root
      | None => true
      end
  | None => false
  end.

(** The rotate entry a keyframe gives: one when it contains ["rotation"],
    under the field name [angle], stepped. *)
Definition rotate_entry (kf : keyframe R) : list (rotate_frame R) :=
  match kf_rotation kf with
  | Some r =>
      [ {| rf_time := get_or (kf_time kf) (of_Z 0); rf_angle := r;
           rf_curve := "stepped" |} ]
  | None => []
  end.

(** The translate entry a keyframe gives: one when it contains ["x"] or
    ["y"], a missing axis being 0, stepped. *)
Definition translate_entry (kf : keyframe R) : list (translate_frame R) :=
  match kf_x kf, kf_y kf with
  | None, None => []
  | ox, oy =>
      [ {| tf_time := get_or (kf_time kf) (of_Z 0);
           tf_x := get_or ox (of_Z 0); tf_y := get_or oy (of_Z 0);
           tf_curve := "stepped" |} ]
  end.

(** The keyframe contains ["rotation"], ["x"] or ["y"]. *)
Definition moves (kf : keyframe R) : bool :=
  has_key (kf_rotation kf) || has_key (kf_x kf) || has_key (kf_y kf).

(** A template's tracks have distinct names, and its face track carries no
    rotation, x or y. *)
Definition face_still (a : animation R) : bool :=
  match a_keyframes a with
  | Some k =>
      nodupb (Dict.keys k) &&
      match Dict.get "face" k with
      | Some kfs => negb (existsb moves kfs)
      | None => true
      end
  | None => false
  end.

(** [h'] has every object of [h] below [n] unchanged, and is no shorter. *)
Definition frame (n : nat) (h h' : @Store.heap R) : Prop :=
  (List.length h <= List.length h')%nat /\
  forall l, (l < n)%nat -> nth_error h' l = nth_error h l.

(** The animation object at [l] holds the value [v], and both it and its
    ["keyframes"] object were allocated at or after [n]. *)
Definition owns (n : nat) (l : Store.loc) (h : @Store.heap R) (v : animation R) : Prop :=
  (n <= l)%nat /\
  match a_keyframes v with
  | Some k =>
      exists kl : Store.loc,
        (n <= kl)%nat /\
        nth_error h l =
          Some (Store.AnimationObject (a_name v) (a_duration v) (Some kl)
                  (a_particles v)) /\
        nth_error h kl = Some (Store.TracksObject k)
  | None =>
      nth_error h l =
        Some (Store.AnimationObject (a_name v) (a_duration v) None (a_particles v))
  end.

(** Synthesis followed by [json.dump]. *)
Definition synthesize_and_dump (self : Store.self_templates) (c : Store.call)
  : @Store.M R (animation R) :=
  Store.sbind
    (Store.synthesize self (Store.c_animation_type c) (Store.c_emotion c)
       (Store.c_intensity c) (Store.c_character_id c) (Store.c_description c))
    Store.dump.

End Vocabulary.

(** The request text of the specification's first scenario. *)
Definition waving_request : string := "very happy waving with sparkles".

(** An animation whose face track carries a rotation. *)
Definition nodding_face : animation float :=
  mk_animation "Nod" 1%float
    (Some [ ("face", [ mk_keyframe (Some 0%float) (Some 5%float) None None
                         (Some "neutral") ]) ])
    None.

(** A character whose only limb layer is the right hand. *)
Definition hand_only_layers : list (layer float) :=
  [ mk_layer "layer_0" "Torso" "pixel" "Torso"
      (Some (mk_position 60%float 80%float))
      (Some (mk_dimensions 80%float 120%float)) (Some "layer_0.png") None;
    mk_layer "layer_1" "RightHand" "pixel" "RightHand"
      (Some (mk_position 10%float 20%float))
      (Some (mk_dimensions 30%float 40%float)) (Some "layer_1.png") None ].

(** The second ["arm_right"] rotation of an animation. *)
Definition second_arm_rotation (a : option (animation float)) : option float :=
  match a with
  | Some a =>
      match Dict.get "arm_right" (get_or (a_keyframes a) Dict.empty) with
      | Some (_ :: kf :: _) => kf_rotation kf
      | _ => None
      end
  | None => None
  end.

(* ===================================================================== *)
(** * Vocabulary of the further properties *)
(* ===================================================================== *)

Section FurtherVocabulary.
Context {R : Type} {NR : Number R}.
Local Open Scope num_scope.

(** The speed modifier [_apply_emotion] computes. *)
Definition speed_modifier_of (ed : emotion_data R) (intensity : R) : R :=
  of_Z 1 + (speed (movement ed) - of_Z 1) * intensity.

(** [_apply_emotion] divides by a zero speed modifier: the emotion is known,
    its speed modifier differs from 1.0 and equals 0. *)
Definition divides_by_zero (emotion : string) (intensity : R) : bool :=
  match Dict.get emotion emotions with
  | Some ed =>
      negb (speed_modifier_of ed intensity == of_Z 1) &&
      (speed_modifier_of ed intensity == of_Z 0)
  | None => false
  end.

(** The hair keyframes [_add_physics_and_effects] derives from tracks that
    have no hair track: one per root keyframe after the first. *)
Definition derived_hair (duration : R) (k : tracks R) : res (list (keyframe R)) :=
  if Dict.mem "root" k
  then root <- index "root" (Dict.get "root" k) ;;
       mapM (hair_keyframe duration) (tl root)
  else Ok [].

(** The face keyframe [kf'] is [kf] with a "neutral" expression replaced by
    [base]. *)
Definition expressed (base : string) (kf kf' : keyframe R) : Prop :=
  exists e : string,
    kf_expression kf = Some e /\
    kf_expression kf' = Some (if String.eqb e "neutral" then base else e) /\
    kf_time kf' = kf_time kf /\ kf_rotation kf' = kf_rotation kf /\
    kf_x kf' = kf_x kf /\ kf_y kf' = kf_y kf.

(** The emotions and the intensities [_parse_description] can return. *)
Definition parsed_emotions : list string := "neutral" :: Dict.keys (@emotions R NR).
Definition parsed_intensities : list R := of_Z 1 :: Dict.values intensity_words.

(** No emotion and intensity [_parse_description] can return makes
    [_apply_emotion] divide by zero. *)
Definition parse_never_divides_by_zero : bool :=
  forallb (fun emotion =>
             forallb (fun intensity => negb (divides_by_zero emotion intensity))
                     parsed_intensities)
          parsed_emotions.

(** Every keyframe of the hair track, if there is one, has a time at most
    the duration. *)
Definition hair_within_duration (a : animation R) : bool :=
  match a_keyframes a with
  | Some k =>
      match Dict.get "hair" k with
      | Some hair =>
          forallb (fun kf => match kf_time kf with
                             | Some t => num_le t (a_duration a)
                             | None => false
                             end) hair
      | None => true
      end
  | None => true
  end.

(** [hair_within_duration] for every template, emotion and intensity
    [_parse_description] can return. *)
Definition parsed_hair_within_duration : bool :=
  forallb (fun animation_type =>
    forallb (fun emotion =>
      forallb (fun intensity =>
                 match synthesize animation_type emotion intensity "" "" with
                 | Ok out => hair_within_duration out
                 | Raise _ => false
                 end)
              parsed_intensities)
      parsed_emotions)
    (Dict.keys (@templates R NR)).

End FurtherVocabulary.

Section RigVocabulary.
Context {R : Type} {NR : Number R}.

(** [l] is one of [layers] or lies below one of them, through ["children"]
    lists. *)
Inductive within : layer R -> list (layer R) -> Prop :=
| within_here (l : layer R) (layers : list (layer R)) :
    In l layers -> within l layers
| within_child (l parent : layer R) (layers children : list (layer R)) :
    In parent layers -> l_children parent = Some children ->
    within l children -> within l layers.

(** The body part a layer is taken for: the part [_analyze_character_structure]
    finds for the layer's lower-cased name. *)
Definition part_of (l : layer R) : option string :=
  matching_part (Dict.items body_parts) (lower (l_name l)).

Definition taken_for (part_key : string) (l : layer R) : bool :=
  match part_of l with
  | Some k => String.eqb k part_key
  | None => false
  end.

(** The last layer of [layers] taken for the part. *)
Definition last_taken_for (part_key : string) (layers : list (layer R))
  : option (layer R) :=
  find (taken_for part_key) (rev layers).

(** The layer has a ["position"] and no ["dimensions"]. *)
Definition lacks_dimensions (l : layer R) : bool :=
  has_key (l_position l) && negb (has_key (l_dimensions l)).

(** The layers of the metadata, [metadata.get("layers", [])]. *)
Definition layers_of (metadata : character_metadata R) : list (layer R) :=
  match cm_layers metadata with Some ls => ls | None => [] end.

(** The attachment [_create_skin] makes for a layer with the image
    [image_path]. *)
Definition skin_attachment (l : layer R) (image_path : string) : attachment R :=
  {| at_x := of_Z 0; at_y := of_Z 0;
     at_width := match l_dimensions l with
                 | Some ldims => width ldims
                 | None => of_Z 100
                 end;
     at_height := match l_dimensions l with
                  | Some ldims => height ldims
                  | None => of_Z 100
                  end;
     at_path := image_path |}.

End RigVocabulary.

(** [key] is the first part of [table] one of whose names occurs in
    [text]. *)
Definition first_part (table : Dict.t (list string)) (text key : string) : Prop :=
  exists (earlier later : Dict.t (list string)) (names : list string),
    table = earlier ++ (key, names) :: later /\
    (exists n, In n names /\ substring_of n text) /\
    forall k ns n, In (k, ns) earlier -> In n ns -> ~ substring_of n text.

(** A character of 200 by 300 with a torso and a right hand. *)
Definition torso_and_hand : character_metadata float :=
  mk_character_metadata (mk_dimensions 200%float 300%float) (Some hand_only_layers).

(** A project without bones. *)
Definition no_project : spine_project float :=
  mk_spine_project (mk_skeleton_meta "" "" 0%float 0%float "" "") [] [] [] []
    Dict.empty.

(** The project [rig_character] returns for the character "hero". *)
Definition rig_of (metadata : character_metadata float) : spine_project float :=
  match rig_character "hash" "hero" metadata with
  | Ok project => project
  | Raise _ => no_project
  end.

Section ParserVocabulary.
Context {R : Type} {NR : Number R}.

(** The ["id"] and the ["name"] of an entry of ["layers"]. *)
Definition parsed_id (l : parsed_layer R) : string :=
  match l with
  | GroupLayer id _ _ _ _ => id
  | PixelLayer id _ _ _ _ _ _ _ _ => id
  end.

Definition parsed_name (l : parsed_layer R) : string :=
  match l with
  | GroupLayer _ name _ _ _ => name
  | PixelLayer _ name _ _ _ _ _ _ _ => name
  end.

(** The layer is not hidden. *)
Definition shown (l : psd_layer) : bool := negb (psd_is_hidden l).

(** The entry [_process_layers] makes for a layer that is not hidden, of
    index [i], under [parent_path]. *)
Definition layer_info (l : psd_layer) (parent_path : string) (i : nat)
  : parsed_layer R :=
  let layer_id := ("layer_" ++ decimal i)%string in
  let current_path :=
    if String.eqb parent_path "" then psd_name l
    else (parent_path ++ "/" ++ psd_name l)%string in
  match psd_group l with
  | Some layers =>
      GroupLayer layer_id (psd_name l) current_path true
        (_process_layers layers current_path)
  | None =>
      PixelLayer layer_id (psd_name l) current_path true
        (if psd_has_pixels l
         then (fst (fst (fst (psd_bbox l))), snd (fst (fst (psd_bbox l))))
         else (0, 0)%Z)
        (if psd_has_pixels l
         then (snd (fst (psd_bbox l)) - fst (fst (fst (psd_bbox l))),
               snd (psd_bbox l) - snd (fst (fst (psd_bbox l))))%Z
         else (0, 0)%Z)
        (match psd_opacity l with
         | Some o => (of_Z o / of_Z 255)%num
         | None => of_Z 1
         end)
        (match psd_blend_mode l with
         | Some b => b
         | None => "normal"
         end)
        (if psd_has_pixels l && psd_image_saved l
         then Some (layer_id ++ ".png")%string
         else None)
  end.

End ParserVocabulary.

Section StorageVocabulary.
Context {R : Type} {NR : Number R}.




End StorageVocabulary.

Section StorageInvariant.
Context {R : Type} {NR : Number R}.


End StorageInvariant.

(** A document of 200 by 300: a torso, and a group of a right hand and a
    hidden sketch. *)
Definition demo_document : Disk.psd_file :=
  Disk.PsdDocument 200 300
    [ mk_psd_layer "Torso" false None true (60, 80, 140, 200)%Z true
        (Some 255%Z) (Some "BlendMode.NORMAL");
      mk_psd_layer "Arms" false
        (Some [ mk_psd_layer "RightHand" false None true (10, 20, 40, 60)%Z true
                  None None;
                mk_psd_layer "Sketch" true None true (0, 0, 200, 300)%Z true
                  None None ])
        false (0, 0, 0, 0)%Z false None None ].






(** What an operation returned. *)
Definition returned {A} (default : A) (o : Disk.outcome A) : A :=
  match o with
  | Disk.Returns a => a
  | Disk.Raises _ => default
  end.

(* ===================================================================== *)
(** * Properties of the libraries *)
(* ===================================================================== *)

(** ** Literals *)

(** The decimal literals of the source, read in binary64, are the doubles
    CPython reads. *)
Example binary64_literals :
  @dec float float64 12 10 = 1.2%float /\
  @dec float float64 15 10 = 1.5%float /\
  @dec float float64 7 10 = 0.7%float /\
  @dec float float64 1 10 = 0.1%float /\
  @of_Z float float64 (-20) = (-20)%float.
Proof. repeat split. Qed.

(** ** Substrings *)

Lemma prefix_spec (p s : string) :
  String.prefix p s = true <-> exists rest : string, s = (p ++ rest)%string.
Proof.
  revert s; induction p as [|c p IH]; intros s.
  - split; [intros _; now exists s | intros _; now destruct s].
  - destruct s as [|c' s]; simpl.
    + split; [discriminate | intros [r Hr]; discriminate].
    + destruct (Ascii.ascii_dec c c') as [->|Hne].
      * rewrite IH. split; intros [r Hr]; exists r; congruence.
      * split; [discriminate | intros [r Hr]; congruence].
Qed.

Lemma str_in_spec (needle hay : string) :
  str_in needle hay = true <-> substring_of needle hay.
Proof.
  unfold substring_of.
  induction hay as [|c hay IH].
  - change (str_in needle "") with (String.prefix needle "" || false).
    rewrite orb_false_r, prefix_spec. split.
    + intros [r Hr]. now exists EmptyString, r.
    + intros [[|c b] [a Ha]]; simpl in Ha; [now exists a | discriminate].
  - change (str_in needle (String c hay))
      with (String.prefix needle (String c hay) || str_in needle hay).
    rewrite orb_true_iff, prefix_spec, IH. split.
    + intros [[r Hr] | [b [a Ha]]].
      * now exists EmptyString, r.
      * exists (String c b), a. simpl. now rewrite Ha.
    + intros [[|c' b] [a Ha]]; simpl in Ha.
      * left. now exists a.
      * right. exists b, a. congruence.
Qed.

Lemma str_in_false (needle hay : string) :
  str_in needle hay = false <-> ~ substring_of needle hay.
Proof.
  rewrite <- str_in_spec. destruct (str_in needle hay); split; intros; congruence.
Qed.

(** ** Dictionaries *)

Lemma dict_get_set_same {V} (k : string) (v : V) (d : Dict.t V) :
  Dict.get k (Dict.set k v d) = Some v.
Proof.
  induction d as [|[k' v'] d IH]; simpl.
  - now rewrite String.eqb_refl.
  - destruct (String.eqb k' k) eqn:E; simpl; rewrite E; auto.
Qed.

Lemma dict_get_set_other {V} (k k' : string) (v : V) (d : Dict.t V) :
  k' <> k -> Dict.get k' (Dict.set k v d) = Dict.get k' d.
Proof.
  intros Hne. induction d as [|[k0 v0] d IH]; simpl.
  - destruct (String.eqb k k') eqn:E; auto.
    apply String.eqb_eq in E. congruence.
  - destruct (String.eqb k0 k) eqn:E; simpl.
    + apply String.eqb_eq in E. subst k0.
      destruct (String.eqb k k') eqn:E'; auto.
      apply String.eqb_eq in E'. congruence.
    + now rewrite IH.
Qed.

Lemma dict_mem_get {V} (k : string) (d : Dict.t V) :
  Dict.mem k d = true <-> exists v, Dict.get k d = Some v.
Proof.
  unfold Dict.mem. destruct (Dict.get k d) as [v|].
  - split; [now exists v | reflexivity].
  - split; [discriminate | intros [v Hv]; discriminate].
Qed.

Lemma dict_mem_keys {V} (k : string) (d : Dict.t V) :
  Dict.mem k d = true <-> In k (Dict.keys d).
Proof.
  unfold Dict.mem.
  induction d as [|[k' v'] d IH]; simpl.
  - split; [discriminate | tauto].
  - destruct (String.eqb k' k) eqn:E.
    + apply String.eqb_eq in E. split; auto.
    + rewrite IH. apply String.eqb_neq in E. split; [auto | intros [H|H]; [congruence | auto]].
Qed.

Lemma dict_mem_false_keys {V} (k : string) (d : Dict.t V) :
  Dict.mem k d = false <-> ~ In k (Dict.keys d).
Proof.
  rewrite <- dict_mem_keys. destruct (Dict.mem k d); split; intros; congruence.
Qed.

Lemma dict_keys_set {V} (k : string) (v : V) (d : Dict.t V) :
  Dict.keys (Dict.set k v d) =
  if Dict.mem k d then Dict.keys d else Dict.keys d ++ [k].
Proof.
  unfold Dict.mem.
  induction d as [|[k' v'] d IH]; simpl; auto.
  destruct (String.eqb k' k) eqn:E; simpl; auto.
  rewrite IH. now destruct (Dict.get k d).
Qed.

Lemma dict_get_in {V} (k : string) (v : V) (d : Dict.t V) :
  Dict.get k d = Some v -> In (k, v) d.
Proof.
  induction d as [|[k' v'] d IH]; simpl; [discriminate|].
  destruct (String.eqb k' k) eqn:E.
  - apply String.eqb_eq in E. intros [= ->]. left. now subst.
  - auto.
Qed.

Lemma dict_in_get {V} (k : string) (v : V) (d : Dict.t V) :
  Dict.wf d -> In (k, v) d -> Dict.get k d = Some v.
Proof.
  unfold Dict.wf.
  induction d as [|[k' v'] d IH]; simpl; [tauto|].
  intros Hnd [H|H]; inversion Hnd as [|? ? Hnotin Hnd']; subst.
  - injection H as -> ->. now rewrite String.eqb_refl.
  - destruct (String.eqb k' k) eqn:E; auto.
    apply String.eqb_eq in E. subst k'.
    exfalso. apply Hnotin. change k with (fst (k, v)). now apply in_map.
Qed.

Lemma dict_set_wf {V} (k : string) (v : V) (d : Dict.t V) :
  Dict.wf d -> Dict.wf (Dict.set k v d).
Proof.
  unfold Dict.wf.
  induction d as [|[k' v'] d IH]; simpl; intros Hnd.
  - constructor; [simpl; tauto | constructor].
  - inversion Hnd as [|? ? Hnotin Hnd']; subst.
    destruct (String.eqb k' k) eqn:E; simpl.
    + now constructor.
    + constructor; auto.
      fold (Dict.keys (Dict.set k v d)). rewrite dict_keys_set.
      destruct (Dict.mem k d); auto.
      rewrite in_app_iff. simpl. apply String.eqb_neq in E.
      intros [H|[H|[]]]; [auto | congruence].
Qed.

(* ===================================================================== *)
(** * The description interpreter *)
(* ===================================================================== *)

Lemma first_key_in_spec (names : list string) (text default : string) :
  first_occurring names text default (first_key_in names text default).
Proof.
  induction names as [|name rest IH]; simpl.
  - right. split; [reflexivity | intros n []].
  - destruct (str_in name text) eqn:E.
    + left. exists [], rest. repeat split.
      * now apply str_in_spec.
      * intros n [].
    + apply str_in_false in E.
      destruct IH as [(earlier & later & Hn & Hocc & Hnone) | [Hd Hnone]].
      * left. exists (name :: earlier), later. repeat split; auto.
        -- simpl. now rewrite <- Hn.
        -- intros n [<-|Hin]; auto.
      * right. split; auto. intros n [<-|Hin]; auto.
Qed.

Lemma first_key_in_none (names : list string) (text default : string) :
  (forall n, In n names -> ~ substring_of n text) ->
  first_key_in names text default = default.
Proof.
  induction names as [|name rest IH]; simpl; intros Hnone; auto.
  assert (E : str_in name text = false) by (apply str_in_false; auto).
  rewrite E. auto.
Qed.

Section InterpreterFacts.
Context {R : Type} {NR : Number R}.

Lemma first_word_in_spec (table : list (string * R)) (text : string) (default : R) :
  first_entry table text default (first_word_in table text default).
Proof.
  induction table as [|[word modifier] rest IH]; simpl.
  - right. split; [reflexivity | intros n []].
  - destruct (str_in word text) eqn:E.
    + left. exists [], rest, word. repeat split.
      * now apply str_in_spec.
      * intros n [].
    + apply str_in_false in E.
      destruct IH as [(earlier & later & w & Hn & Hocc & Hnone) | [Hd Hnone]].
      * left. exists ((word, modifier) :: earlier), later, w. repeat split; auto.
        -- simpl. now rewrite <- Hn.
        -- intros n [<-|Hin]; auto.
      * right. split; auto. intros n [<-|Hin]; auto.
Qed.

Lemma first_word_in_none (table : list (string * R)) (text : string) (default : R) :
  (forall n, In n (map fst table) -> ~ substring_of n text) ->
  first_word_in table text default = default.
Proof.
  induction table as [|[word modifier] rest IH]; simpl; intros Hnone; auto.
  assert (E : str_in word text = false) by (apply str_in_false; auto).
  rewrite E. auto.
Qed.

(** An unmodulated idle animation keeps the template's duration, whatever
    the description adds as particles. *)
Lemma idle_neutral_duration (intensity : R) (character_id description : string) :
  exists a : animation R,
    synthesize "idle" "neutral" intensity character_id description = Ok a /\
    a_duration a = of_Z 4.
Proof.
  unfold synthesize, _get_template, _apply_emotion, _adjust_for_character,
    _add_physics_and_effects.
  cbn.
  destruct (nonempty (particles_of (of_Z 4) description)); eexists; split;
    reflexivity.
Qed.

End InterpreterFacts.

(** C6.  The description interpreter is a total function of the text.  Its
    motion name is the first of wave, jump, walk, run, idle occurring in the
    lowercased text (default "idle"), its emotion name the first of happy,
    sad, angry, scared, excited (default "neutral"), its intensity the value
    of the first entry of the intensity-word table whose word occurs (default
    1.0).  When no keyword occurs the result is ("idle", "neutral", 1.0) and
    the generated animation has the idle template's duration 4.0. *)
Theorem C6_interpreter_first_match_defaults {R : Type} {NR : Number R}
  (description : string) :
  let text := lower description in
  let result := _parse_description description in
  first_occurring ["wave"; "jump"; "walk"; "run"; "idle"] text "idle"
    (fst (fst result)) /\
  first_occurring ["happy"; "sad"; "angry"; "scared"; "excited"] text "neutral"
    (snd (fst result)) /\
  first_entry
    [ ("very", dec 15 10); ("extremely", of_Z 2); ("slightly", dec 7 10);
      ("barely", dec 5 10); ("incredibly", of_Z 2); ("super", dec 18 10);
      ("little", dec 6 10) ] text (of_Z 1) (snd result) /\
  ((forall n,
       In n [ "wave"; "jump"; "walk"; "run"; "idle";
              "happy"; "sad"; "angry"; "scared"; "excited";
              "very"; "extremely"; "slightly"; "barely"; "incredibly";
              "super"; "little" ] ->
       ~ substring_of n text) ->
   result = ("idle", "neutral", of_Z 1) /\
   forall character_id : string,
   exists g : generated R,
     generate_animation character_id description = Ok g /\
     g_animation_type g = "idle" /\
     g_emotion g = "neutral" /\
     g_intensity g = of_Z 1 /\
     g_duration g = of_Z 4 /\
     a_duration (g_animation_data g) = of_Z 4).
Proof.
  intros text result.
  split; [|split; [|split]].
  - apply (first_key_in_spec (Dict.keys (@templates R NR)) text "idle").
  - apply (first_key_in_spec (Dict.keys (@emotions R NR)) text "neutral").
  - apply (first_word_in_spec (Dict.items intensity_words) text (of_Z 1)).
  - intros Hnone.
    assert (Hres : result = ("idle", "neutral", of_Z 1)).
    { unfold result, _parse_description. fold text.
      rewrite !first_key_in_none, first_word_in_none; auto;
        intros n Hin; apply Hnone; simpl in Hin; simpl; tauto. }
    split; [exact Hres|].
    intros character_id.
    destruct (idle_neutral_duration (of_Z 1) character_id description)
      as (a & Ha & Hd).
    unfold generate_animation. fold result. rewrite Hres, Ha. simpl.
    eexists. repeat split; auto.
Qed.

(** A request without any keyword, and one whose only keyword is "idle". *)
Example parse_plain_text :
  @_parse_description float float64 "Hello there" = ("idle", "neutral", 1%float).
Proof. reflexivity. Qed.

Example parse_order_of_templates :
  @_parse_description float float64 "RUN, then JUMP, extremely slightly sad"
  = ("jump", "sad", 2%float).
Proof. reflexivity. Qed.

(* ===================================================================== *)
(** * The scenario "very happy waving with sparkles" *)
(* ===================================================================== *)

(** C1, as stated, fails: "wave" does not occur in "waving", so the motion is
    the default "idle", and the duration is the idle template's 4.0 scaled,
    not the wave template's 2.0. *)
Lemma C1_waving_is_not_wave :
  str_in "wave" (lower waving_request) = false /\
  fst (fst (@_parse_description float float64 waving_request)) = "idle" /\
  "idle" <> "wave" /\
  (exists g : generated float,
      generate_animation "hero" waving_request = Ok g /\
      g_duration g = (4 / (1 + (1.2 - 1) * 1.5))%float /\
      PrimFloat.eqb (g_duration g) (2 / (1 + (1.2 - 1) * 1.5))%float = false).
Proof.
  split; [reflexivity|]. split; [reflexivity|]. split; [discriminate|].
  eexists. split; [vm_compute; reflexivity|]. split; reflexivity.
Qed.

(** C1, amended.  For the request text "very happy waving with sparkles" the
    interpreter yields motion "idle", emotion "happy", intensity 1.5; the
    synthesized duration is 4.0 / (1 + (1.2 - 1) * 1.5), computed in
    binary64, and 4.0/1.3 in exact arithmetic; the particles list is exactly
    one sparkle entry with count 10 and color "#FFFF99". *)
Theorem C1_waving_request_scenario (character_id : string) :
  (exists g : generated float,
      generate_animation character_id waving_request = Ok g /\
      g_animation_type g = "idle" /\
      g_emotion g = "happy" /\
      g_intensity g = 1.5%float /\
      g_duration g = (4 / (1 + (1.2 - 1) * 1.5))%float /\
      a_duration (g_animation_data g) = g_duration g /\
      a_particles (g_animation_data g) =
        Some [ mk_particle "sparkle" (Some 10%Z) (Some (g_duration g))
                 (Some "#FFFF99") ]) /\
  (exists g : generated Q,
      generate_animation character_id waving_request = Ok g /\
      g_animation_type g = "idle" /\
      g_emotion g = "happy" /\
      (g_intensity g == 15 # 10)%Q /\
      (g_duration g == 4 / (13 # 10))%Q /\
      a_duration (g_animation_data g) = g_duration g /\
      a_particles (g_animation_data g) =
        Some [ mk_particle "sparkle" (Some 10%Z) (Some (g_duration g))
                 (Some "#FFFF99") ]).
Proof.
  split.
  - eexists. split; [vm_compute; reflexivity|]. repeat split.
  - eexists. split; [vm_compute; reflexivity|]. repeat split.
Qed.

(** With the keyword spelled "wave" the scenario is the one the
    specification describes. *)
Example wave_request_scenario :
  exists g : generated float,
    generate_animation "hero" "very happy wave with sparkles" = Ok g /\
    g_animation_type g = "wave" /\
    g_duration g = (2 / (1 + (1.2 - 1) * 1.5))%float /\
    option_map (@List.length _) (a_particles (g_animation_data g)) = Some 1%nat.
Proof.
  eexists. split; [vm_compute; reflexivity|]. repeat split.
Qed.

(* ===================================================================== *)
(** * Duration and keyframe times *)
(* ===================================================================== *)

(** The stored templates satisfy the bound, and so does every animation
    synthesized without an emotion, in binary64 and in exact arithmetic. *)
Lemma templates_bound_times :
  forallb duration_bounds_times (Dict.values (@templates float float64)) = true /\
  forallb duration_bounds_times (Dict.values (@templates Q exactQ)) = true.
Proof. split; vm_compute; reflexivity. Qed.

Lemma neutral_synthesis_bounds_times :
  forallb
    (fun name =>
       match @synthesize float float64 name "neutral" 1%float "hero" "" with
       | Ok a => duration_bounds_times a
       | Raise _ => false
       end)
    (Dict.keys (@templates float float64)) = true.
Proof. vm_compute; reflexivity. Qed.

(** C2 fails on the code.  For the request "happy wave" the emotion divides
    the duration by 1.2 and leaves the keyframe times where they were: the
    result has duration 2.0/1.2 and keyframes of "arm_right" at times 2.0,
    beyond it.  This holds in binary64 and in exact arithmetic. *)
Theorem C2_happy_wave_times_exceed_duration :
  (exists g : generated float,
      generate_animation "hero" "happy wave" = Ok g /\
      g_animation_type g = "wave" /\ g_emotion g = "happy" /\
      g_intensity g = 1%float /\
      a_duration (g_animation_data g) = (2 / (1 + (1.2 - 1) * 1))%float /\
      duration_bounds_times (g_animation_data g) = false /\
      exists (k : tracks float) (kfs : list (keyframe float)) (kf : keyframe float),
        a_keyframes (g_animation_data g) = Some k /\
        Dict.get "arm_right" k = Some kfs /\
        In kf kfs /\
        kf_time kf = Some 2%float /\
        PrimFloat.ltb (a_duration (g_animation_data g)) 2 = true) /\
  (exists g : generated Q,
      generate_animation "hero" "happy wave" = Ok g /\
      (a_duration (g_animation_data g) == 2 / (12 # 10))%Q /\
      duration_bounds_times (g_animation_data g) = false /\
      exists (k : tracks Q) (kfs : list (keyframe Q)) (kf : keyframe Q),
        a_keyframes (g_animation_data g) = Some k /\
        Dict.get "arm_right" k = Some kfs /\
        In kf kfs /\
        kf_time kf = Some (inject_Z 2) /\
        (a_duration (g_animation_data g) < inject_Z 2)%Q).
Proof.
  split.
  - eexists. split; [vm_compute; reflexivity|].
    do 5 (split; [reflexivity|]).
    do 3 eexists. split; [reflexivity|]. split; [reflexivity|].
    split; [do 4 right; left; reflexivity|]. split; reflexivity.
  - eexists. split; [vm_compute; reflexivity|].
    do 2 (split; [reflexivity|]).
    do 3 eexists. split; [reflexivity|]. split; [reflexivity|].
    split; [do 4 right; left; reflexivity|]. split; reflexivity.
Qed.

(* ===================================================================== *)
(** * Shapes: what modulation preserves *)
(* ===================================================================== *)

Lemma mapM_Forall2 {A B} (f : A -> res B) (l : list A) (l' : list B) :
  mapM f l = Ok l' -> Forall2 (fun a b => f a = Ok b) l l'.
Proof.
  revert l'; induction l as [|a l IH]; simpl; intros l' H.
  - injection H as <-. constructor.
  - destruct (f a) as [b|e] eqn:Ea; simpl in H; [|discriminate].
    destruct (mapM f l) as [bs|e] eqn:El; simpl in H; [|discriminate].
    injection H as <-. constructor; auto.
Qed.

Lemma mapM_total {A B} (f : A -> res B) (l : list A) :
  (forall a, In a l -> exists b, f a = Ok b) -> exists l', mapM f l = Ok l'.
Proof.
  induction l as [|a l IH]; simpl; intros H.
  - now exists [].
  - destruct (H a) as [b Hb]; auto.
    destruct IH as [bs Hbs]; auto.
    exists (b :: bs). now rewrite Hb, Hbs.
Qed.

Section Shapes.
Context {R : Type} {NR : Number R}.
Local Open Scope num_scope.

Lemma same_keys_refl (kf : keyframe R) : same_keys kf kf.
Proof. repeat split. Qed.

Lemma Forall2_same_keys_refl (kfs : list (keyframe R)) : Forall2 same_keys kfs kfs.
Proof. induction kfs; constructor; auto using same_keys_refl. Qed.

Lemma same_shape_refl (k : tracks R) : same_shape k k.
Proof.
  induction k; constructor; auto. split; auto using Forall2_same_keys_refl.
Qed.

Lemma scale_prop_has_key (e : R) (v : option R) :
  has_key (scale_prop e v) = has_key v.
Proof.
  destruct v as [v|]; simpl; auto. now destruct (negb (v == of_Z 0)).
Qed.

Lemma energize_same_keys (e : R) (kf : keyframe R) : same_keys kf (energize e kf).
Proof.
  unfold same_keys; simpl. rewrite !scale_prop_has_key. repeat split.
Qed.

Lemma express_same_keys (base : string) (kf kf' : keyframe R) :
  express base kf = Ok kf' -> same_keys kf kf'.
Proof.
  unfold express. destruct (kf_expression kf) as [e|] eqn:E; simpl; [|discriminate].
  destruct (String.eqb e "neutral"); intros [= <-].
  - unfold same_keys; simpl. rewrite E. repeat split.
  - apply same_keys_refl.
Qed.

Lemma modulate_track_same_keys (ed : emotion_data R) (e : R) (name : string)
  (kfs kfs' : list (keyframe R)) :
  modulate_track ed e name kfs = Ok kfs' -> Forall2 same_keys kfs kfs'.
Proof.
  unfold modulate_track. destruct (String.eqb name "face").
  - intros H. apply mapM_Forall2 in H.
    induction H; constructor; eauto using express_same_keys.
  - intros [= <-]. induction kfs; constructor; auto using energize_same_keys.
Qed.

Lemma modulate_tracks_same_shape (ed : emotion_data R) (e : R) (k k' : tracks R) :
  modulate_tracks ed e k = Ok k' -> same_shape k k'.
Proof.
  unfold modulate_tracks, Dict.items. intros H. apply mapM_Forall2 in H.
  induction H as [|[name kfs] [name' kfs'] k k' Hit _ IH]; constructor; auto.
  simpl in Hit.
  destruct (modulate_track ed e name kfs) as [r|] eqn:Et; simpl in Hit;
    [|discriminate].
  injection Hit as <- <-. split; auto. simpl.
  eauto using modulate_track_same_keys.
Qed.

Lemma same_shape_get (k k' : tracks R) (name : string) :
  same_shape k k' ->
  match Dict.get name k, Dict.get name k' with
  | Some kfs, Some kfs' => Forall2 same_keys kfs kfs'
  | None, None => True
  | _, _ => False
  end.
Proof.
  induction 1 as [|[n kfs] [n' kfs'] k k' [Hn Hk] _ IH]; simpl; auto.
  simpl in Hn, Hk. subst n'.
  destruct (String.eqb n name); auto.
Qed.

Lemma same_shape_mem (k k' : tracks R) (name : string) :
  same_shape k k' -> Dict.mem name k' = Dict.mem name k.
Proof.
  intros H. apply same_shape_get with (name := name) in H.
  unfold Dict.mem. destruct (Dict.get name k), (Dict.get name k'); tauto.
Qed.

(** Emotion modulation keeps the track names, the number of keyframes of
    each track, their times and their keys. *)
Lemma apply_emotion_same_shape (template modulated : animation R)
  (emotion : string) (intensity : R) (k : tracks R) :
  _apply_emotion template emotion intensity = Ok modulated ->
  a_keyframes template = Some k ->
  exists k', a_keyframes modulated = Some k' /\ same_shape k k'.
Proof.
  unfold _apply_emotion. intros H Hk.
  destruct (Dict.get emotion emotions) as [ed|].
  - destruct (negb (_ == of_Z 1)).
    + destruct (py_div _ _) as [d|]; simpl in H; [|discriminate].
      rewrite Hk in H. simpl in H.
      destruct (modulate_tracks _ _ k) as [k'|] eqn:Em; simpl in H; [|discriminate].
      injection H as <-. exists k'. split; auto.
      eauto using modulate_tracks_same_shape.
    + simpl in H. rewrite Hk in H. simpl in H.
      destruct (modulate_tracks _ _ k) as [k'|] eqn:Em; simpl in H; [|discriminate].
      injection H as <-. exists k'. split; auto.
      eauto using modulate_tracks_same_shape.
  - injection H as <-. exists k. split; auto using same_shape_refl.
Qed.

(** [_get_template] returns one of the stored templates. *)
Lemma get_template_stored (animation_type : string) (template : animation R) :
  _get_template animation_type = Ok template ->
  In template (Dict.values templates).
Proof.
  unfold _get_template, index. intros H.
  destruct (Dict.get _ templates) as [t|] eqn:E; [|discriminate].
  injection H as <-. apply dict_get_in in E.
  change t with (snd ((if negb (Dict.mem animation_type templates)
                       then "idle" else animation_type), t)).
  now apply in_map.
Qed.

Lemma get_template_total (animation_type : string) :
  exists template : animation R, _get_template animation_type = Ok template.
Proof.
  unfold _get_template.
  destruct (Dict.mem animation_type templates) eqn:E; unfold negb.
  - apply dict_mem_get in E. destruct E as [t Ht]. exists t. now rewrite Ht.
  - eexists. reflexivity.
Qed.

End Shapes.

(* ===================================================================== *)
(** * The derived hair track *)
(* ===================================================================== *)

Lemma Forall2_nth_error_left {A B} (P : A -> B -> Prop) (l : list A) (l' : list B)
  (i : nat) (a : A) :
  Forall2 P l l' -> nth_error l i = Some a ->
  exists b, nth_error l' i = Some b /\ P a b.
Proof.
  intros H; revert i; induction H as [|x y l l' Hxy _ IH]; intros [|i]; simpl;
    try discriminate.
  - intros [= <-]. eauto.
  - apply IH.
Qed.

Lemma Forall2_length_eq {A B} (P : A -> B -> Prop) (l : list A) (l' : list B) :
  Forall2 P l l' -> List.length l = List.length l'.
Proof. induction 1; simpl; auto. Qed.

Section HairTrack.
Context {R : Type} {NR : Number R}.
Local Open Scope num_scope.

Lemma hair_loop_from (duration : R) (i : nat) (kfs : list (keyframe R)) :
  hair_loop duration (S i) kfs = mapM (hair_keyframe duration) kfs.
Proof.
  revert i; induction kfs as [|kf kfs IH]; intros i; simpl; auto.
  now rewrite IH.
Qed.

(** The loop skips the first root keyframe and maps the others. *)
Lemma hair_loop_tail (duration : R) (root : list (keyframe R)) :
  hair_loop duration 0 root = mapM (hair_keyframe duration) (tl root).
Proof. destruct root; simpl; auto using hair_loop_from. Qed.

(** [_add_physics_and_effects] on an animation with a root track and no
    hair track: the hair track is added when it has a keyframe, that is when
    the root track has at least two. *)
Lemma add_physics_hair (a : animation R) (description : string) (k : tracks R)
  (root hair : list (keyframe R)) :
  a_keyframes a = Some k ->
  Dict.get "root" k = Some root ->
  Dict.mem "hair" k = false ->
  mapM (hair_keyframe (a_duration a)) (tl root) = Ok hair ->
  exists out : animation R,
    _add_physics_and_effects a description = Ok out /\
    a_name out = a_name a /\
    a_duration out = a_duration a /\
    a_keyframes out = Some (if nonempty hair then Dict.set "hair" hair k else k) /\
    a_particles out =
      (if nonempty (particles_of (a_duration a) description)
       then Some (particles_of (a_duration a) description)
       else a_particles a).
Proof.
  intros Hk Hroot Hhair Hmap.
  unfold _add_physics_and_effects. rewrite Hk. simpl. rewrite Hhair.
  assert (Hmem : Dict.mem "root" k = true)
    by (apply dict_mem_get; eauto).
  rewrite Hmem, Hroot. simpl. rewrite hair_loop_tail, Hmap. simpl.
  destruct (nonempty hair); simpl;
    destruct (nonempty (particles_of (a_duration a) description)) eqn:Ep;
    simpl; try rewrite Ep; eexists; (split; [reflexivity|]); simpl;
    rewrite ?Hk; auto.
Qed.

Lemma templates_root_ok : forallb root_track_ok (Dict.values templates) = true.
Proof. reflexivity. Qed.

Lemma same_keys_timed (kfs kfs' : list (keyframe R)) :
  Forall2 same_keys kfs kfs' -> forallb timed kfs = true -> forallb timed kfs' = true.
Proof.
  induction 1 as [|kf kf' kfs kfs' (Ht & _) _ IH]; simpl; auto.
  unfold timed at 1 3. rewrite Ht. rewrite !andb_true_iff. tauto.
Qed.

Lemma hair_keyframes_total (duration : R) (kfs : list (keyframe R)) :
  forallb timed kfs = true ->
  exists hair, mapM (hair_keyframe duration) kfs = Ok hair.
Proof.
  intros H. apply mapM_total. intros kf Hin.
  rewrite forallb_forall in H. apply H in Hin.
  unfold timed, hair_keyframe in *.
  destruct (kf_time kf); [|discriminate]. simpl. eauto.
Qed.

(** C3.  In the synthesis pipeline, when the tracks after emotion modulation
    have a "root" track of N keyframes and no "hair" track, the output has a
    "hair" track of exactly N-1 keyframes (and N is at least 2); for
    1 <= i < N the hair keyframe i-1 has time min(rootTime[i] + 0.1,
    duration) and carries the x, y and rotation of root keyframe i that are
    present, each multiplied by 1.2. *)
Theorem C3_hair_track_follows_root
  (animation_type emotion : string) (intensity : R)
  (character_id description : string)
  (template modulated : animation R) (k : tracks R) (root : list (keyframe R)) :
  _get_template animation_type = Ok template ->
  _apply_emotion template emotion intensity = Ok modulated ->
  a_keyframes modulated = Some k ->
  Dict.get "root" k = Some root ->
  Dict.mem "hair" k = false ->
  exists (out : animation R) (k' : tracks R) (hair : list (keyframe R)),
    synthesize animation_type emotion intensity character_id description = Ok out /\
    a_duration out = a_duration modulated /\
    a_keyframes out = Some k' /\
    Dict.get "hair" k' = Some hair /\
    (2 <= List.length root)%nat /\
    List.length hair = (List.length root - 1)%nat /\
    forall i : nat, (1 <= i < List.length root)%nat ->
      exists (root_kf hair_kf : keyframe R) (t : R),
        nth_error root i = Some root_kf /\
        nth_error hair (i - 1) = Some hair_kf /\
        kf_time root_kf = Some t /\
        kf_time hair_kf = Some (py_min (t + dec 1 10) (a_duration out)) /\
        kf_x hair_kf = option_map (fun v => v * dec 12 10) (kf_x root_kf) /\
        kf_y hair_kf = option_map (fun v => v * dec 12 10) (kf_y root_kf) /\
        kf_rotation hair_kf = option_map (fun v => v * dec 12 10) (kf_rotation root_kf).
Proof.
  intros Hget Happly Hk Hroot Hhair.
  (* the template's root track *)
  pose proof (get_template_stored _ Hget) as Hin.
  pose proof templates_root_ok as Hok. rewrite forallb_forall in Hok.
  specialize (Hok _ Hin). unfold root_track_ok in Hok.
  destruct (a_keyframes template) as [k0|] eqn:Hk0; [|discriminate].
  destruct (apply_emotion_same_shape _ _ _ Happly Hk0) as (k1 & Hk1 & Hshape).
  rewrite Hk in Hk1. injection Hk1 as <-.
  pose proof (same_shape_get "root" Hshape) as Hr. rewrite Hroot in Hr.
  destruct (Dict.get "root" k0) as [root0|]; [|contradiction].
  apply andb_true_iff in Hok. destruct Hok as [Hlen Htimed].
  apply Nat.leb_le in Hlen.
  pose proof (Forall2_length_eq Hr) as Hlen'.
  pose proof (same_keys_timed Hr Htimed) as Htimed'.
  (* the hair keyframes *)
  destruct root as [|kf0 rest]; [simpl in Hlen'; lia|].
  simpl in Htimed'. apply andb_true_iff in Htimed'. destruct Htimed' as [_ Hrest].
  destruct (hair_keyframes_total (a_duration modulated) _ Hrest) as [hair Hmap].
  destruct (add_physics_hair modulated description (root := kf0 :: rest) Hk Hroot Hhair Hmap)
    as (out & Hout & _ & Hd & Hkout & _).
  pose proof (mapM_Forall2 _ _ Hmap) as HF.
  pose proof (Forall2_length_eq HF) as HlenH.
  assert (Hne : nonempty hair = true).
  { destruct hair; simpl in *; [lia | reflexivity]. }
  rewrite Hne in Hkout.
  exists out, (Dict.set "hair" hair k), hair.
  split.
  { unfold synthesize. rewrite Hget. simpl. rewrite Happly. simpl. exact Hout. }
  split; [exact Hd|]. split; [exact Hkout|].
  split; [apply dict_get_set_same|].
  split; [lia|]. split; [simpl; lia|].
  intros i Hi. destruct i as [|j]; [lia|]. simpl in Hi.
  destruct (nth_error rest j) as [rk|] eqn:Ej.
  2:{ apply nth_error_None in Ej. lia. }
  destruct (Forall2_nth_error_left _ HF Ej) as (hk & Ehk & Hhk).
  unfold hair_keyframe in Hhk.
  destruct (kf_time rk) as [t|] eqn:Et; simpl in Hhk; [|discriminate].
  injection Hhk as <-.
  exists rk, (mk_keyframe (Some (py_min (t + delay) (a_duration modulated)))
                (option_map exaggerate (kf_rotation rk))
                (option_map exaggerate (kf_x rk))
                (option_map exaggerate (kf_y rk)) None), t.
  simpl. rewrite Nat.sub_0_r, Hd. repeat split; auto.
Qed.

End HairTrack.

(** C3 at a concrete request: the jump template, "happy", intensity 1.5,
    in binary64. *)
Lemma C3_jump_happy_witness :
  let modulated :=
    match @_apply_emotion float float64 jump_template "happy" 1.5%float with
    | Ok m => m
    | Raise _ => jump_template
    end in
  let root := get_or (Dict.get "root" (get_or (a_keyframes modulated) Dict.empty)) [] in
  exists (out : animation float) (k' : tracks float) (hair : list (keyframe float)),
    synthesize "jump" "happy" 1.5%float "hero" "happy jump" = Ok out /\
    a_duration out = a_duration modulated /\
    a_keyframes out = Some k' /\
    Dict.get "hair" k' = Some hair /\
    (2 <= List.length root)%nat /\
    List.length hair = (List.length root - 1)%nat /\
    forall i : nat, (1 <= i < List.length root)%nat ->
      exists (root_kf hair_kf : keyframe float) (t : float),
        nth_error root i = Some root_kf /\
        nth_error hair (i - 1) = Some hair_kf /\
        kf_time root_kf = Some t /\
        kf_time hair_kf = Some (py_min (t + dec 1 10)%num (a_duration out)) /\
        kf_x hair_kf = option_map (fun v => v * dec 12 10)%num (kf_x root_kf) /\
        kf_y hair_kf = option_map (fun v => v * dec 12 10)%num (kf_y root_kf) /\
        kf_rotation hair_kf =
          option_map (fun v => v * dec 12 10)%num (kf_rotation root_kf).
Proof.
  intros modulated root.
  apply (@C3_hair_track_follows_root float float64 "jump" "happy" 1.5%float
           "hero" "happy jump" jump_template modulated
           (get_or (a_keyframes modulated) Dict.empty) root);
    reflexivity.
Defined.

(** The jump scenario, evaluated: three root keyframes give two hair
    keyframes, the second clamped to the shortened duration. *)
Example jump_happy_hair_track :
  exists (out : animation float) (k : tracks float),
    synthesize "jump" "happy" 1.5%float "hero" "happy jump" = Ok out /\
    a_keyframes out = Some k /\
    Dict.get "hair" k =
      Some [ mk_keyframe (Some (0.7 + 0.1)%float) None None
               (Some ((100 * (1 + (1.3 - 1) * 1.5)) * 1.2)%float) None;
             mk_keyframe (Some (a_duration out)) None None (Some 0%float) None ].
Proof. do 2 eexists. split; [reflexivity|]. split; reflexivity. Qed.

(** Outside the pipeline: a root track of one keyframe yields no hair
    track at all (the templates' root tracks have two or more). *)
Example single_root_keyframe_no_hair :
  let a := mk_animation "Still" 1%float
             (Some [ ("root", [ kf_ty 0%float 0%float ]) ]) None in
  exists out : animation float,
    _add_physics_and_effects a "" = Ok out /\
    a_keyframes out = Some [ ("root", [ kf_ty 0%float 0%float ]) ].
Proof. eexists. split; reflexivity. Qed.

(* ===================================================================== *)
(** * The interchange exporter: bones *)
(* ===================================================================== *)

Lemma nodupb_NoDup (l : list string) : nodupb l = true -> NoDup l.
Proof.
  induction l as [|x r IH]; simpl; intros H; constructor.
  - apply andb_true_iff in H. destruct H as [H _].
    intros Hin. apply negb_true_iff in H.
    assert (existsb (String.eqb x) r = true).
    { apply existsb_exists. exists x. split; auto. apply String.eqb_refl. }
    congruence.
  - apply andb_true_iff in H. tauto.
Qed.

Lemma dict_wfb {V} (d : Dict.t V) : nodupb (Dict.keys d) = true -> Dict.wf d.
Proof. apply nodupb_NoDup. Qed.

Section Exporter.
Context {R : Type} {NR : Number R}.
Local Open Scope num_scope.

Lemma fold_convert_keyframe (kfs : list (keyframe R)) (b : bone_animation R) :
  fold_left convert_keyframe kfs b =
  {| rotate := rotate b ++ flat_map rotate_entry kfs;
     translate := translate b ++ flat_map translate_entry kfs;
     scale := scale b |}.
Proof.
  revert b; induction kfs as [|kf kfs IH]; intros b; simpl.
  - rewrite !app_nil_r. now destruct b.
  - rewrite IH. unfold convert_keyframe, rotate_entry, translate_entry.
    destruct (kf_rotation kf), (kf_x kf), (kf_y kf); simpl;
      rewrite <- ?app_assoc; reflexivity.
Qed.

Lemma track_animation_entries (kfs : list (keyframe R)) :
  track_animation kfs =
  {| rotate := flat_map rotate_entry kfs;
     translate := flat_map translate_entry kfs;
     scale := [] |}.
Proof. unfold track_animation. now rewrite fold_convert_keyframe. Qed.

Lemma has_animations_moves (kfs : list (keyframe R)) :
  has_animations (track_animation kfs) = existsb moves kfs.
Proof.
  rewrite track_animation_entries. unfold has_animations. simpl.
  rewrite orb_false_r.
  induction kfs as [|kf kfs IH]; simpl; auto.
  rewrite <- IH. unfold moves, rotate_entry, translate_entry.
  destruct (kf_rotation kf), (kf_x kf), (kf_y kf); simpl; auto.
  - now rewrite orb_true_r.
  - now rewrite orb_true_r.
  - now rewrite orb_true_r.
Qed.

Lemma nonempty_nil {A} (l : list A) : nonempty l = false <-> l = [].
Proof. destruct l; simpl; split; congruence. Qed.

(** The loop over the tracks, from any dictionary built so far. *)
Lemma fold_convert_bones (k : tracks R) (acc : Dict.t (bone_animation R))
  (name : string) :
  Dict.wf k ->
  Dict.get name
    (fold_left
       (fun (bones : Dict.t (bone_animation R)) (item : string * list (keyframe R)) =>
          let bone_animation := track_animation (snd item) in
          if has_animations bone_animation
          then Dict.set (fst item) bone_animation bones
          else bones) k acc) =
  match Dict.get name k with
  | Some kfs =>
      if has_animations (track_animation kfs)
      then Some (track_animation kfs) else Dict.get name acc
  | None => Dict.get name acc
  end.
Proof.
  unfold Dict.wf.
  revert acc; induction k as [|[n kfs] k IH]; intros acc Hwf; simpl; auto.
  inversion Hwf as [|? ? Hnotin Hwf']; subst.
  rewrite IH by assumption.
  destruct (String.eqb n name) eqn:E.
  - apply String.eqb_eq in E. subst n.
    assert (Hnone : Dict.get name k = None).
    { destruct (Dict.get name k) eqn:G; auto.
      exfalso. apply Hnotin. apply dict_mem_keys. apply dict_mem_get. eauto. }
    rewrite Hnone. simpl.
    destruct (has_animations (track_animation kfs)); auto using dict_get_set_same.
  - apply String.eqb_neq in E. simpl.
    assert (Hacc : Dict.get name
                     (if has_animations (track_animation kfs)
                      then Dict.set n (track_animation kfs) acc else acc)
                   = Dict.get name acc).
    { destruct (has_animations (track_animation kfs)); auto.
      apply dict_get_set_other. congruence. }
    now rewrite Hacc.
Qed.

Lemma convert_bones_get (k : tracks R) (name : string) :
  Dict.wf k ->
  Dict.get name (convert_bones k) =
  match Dict.get name k with
  | Some kfs => if existsb moves kfs then Some (track_animation kfs) else None
  | None => None
  end.
Proof.
  intros Hwf. unfold convert_bones, Dict.items.
  rewrite fold_convert_bones by assumption. simpl.
  destruct (Dict.get name k) as [kfs|]; auto.
  now rewrite has_animations_moves.
Qed.

End Exporter.

Section SynthesizedTracks.
Context {R : Type} {NR : Number R}.
Local Open Scope num_scope.

Lemma same_shape_keys (k k' : tracks R) :
  same_shape k k' -> Dict.keys k' = Dict.keys k.
Proof.
  induction 1 as [|it it' k k' [Hn _] _ IH]; simpl; auto.
  now rewrite Hn, IH.
Qed.

Lemma same_keys_moves (kfs kfs' : list (keyframe R)) :
  Forall2 same_keys kfs kfs' -> existsb moves kfs' = existsb moves kfs.
Proof.
  induction 1 as [|kf kf' kfs kfs' (_ & Hr & Hx & Hy & _) _ IH]; simpl; auto.
  unfold moves at 1 3. now rewrite Hr, Hx, Hy, IH.
Qed.

(** What [_add_physics_and_effects] does to the tracks: nothing, or one
    assignment to ["hair"] of keyframes without expression. *)
Lemma add_physics_tracks (a out : animation R) (description : string) :
  _add_physics_and_effects a description = Ok out ->
  exists k : tracks R,
    a_keyframes a = Some k /\
    (a_keyframes out = Some k \/
     exists hair, Dict.mem "hair" k = false /\
                  a_keyframes out = Some (Dict.set "hair" hair k)).
Proof.
  unfold _add_physics_and_effects.
  destruct (a_keyframes a) as [k|] eqn:Hk; simpl; [|discriminate].
  intros H. exists k. split; auto.
  destruct (Dict.mem "hair" k) eqn:Hh.
  - injection H as <-. auto.
  - destruct (Dict.mem "root" k); simpl in H.
    + destruct (Dict.get "root" k) as [root|]; simpl in H; [|discriminate].
      destruct (hair_loop (a_duration a) 0 root) as [hair|]; simpl in H;
        [|discriminate].
      destruct (nonempty hair); simpl in H.
      * right. exists hair. split; auto.
        destruct (nonempty (particles_of _ description)); injection H as <-; auto.
      * left.
        destruct (nonempty (particles_of _ description)); injection H as <-; auto.
    + left.
      destruct (nonempty (particles_of _ description)); injection H as <-; auto.
Qed.

Lemma templates_face_still : forallb face_still (Dict.values templates) = true.
Proof. reflexivity. Qed.

(** Every synthesized animation has well-formed tracks whose face track
    carries no rotation, x or y. *)
Lemma synthesized_face_still (animation_type emotion : string) (intensity : R)
  (character_id description : string) (out : animation R) :
  synthesize animation_type emotion intensity character_id description = Ok out ->
  exists k : tracks R,
    a_keyframes out = Some k /\ Dict.wf k /\
    forall kfs, Dict.get "face" k = Some kfs -> existsb moves kfs = false.
Proof.
  unfold synthesize, _adjust_for_character. intros H.
  destruct (_get_template animation_type) as [t|] eqn:Hget; simpl in H;
    [|discriminate].
  destruct (_apply_emotion t emotion intensity) as [m|] eqn:Happly; simpl in H;
    [|discriminate].
  pose proof (get_template_stored _ Hget) as Hin.
  pose proof templates_face_still as Hok. rewrite forallb_forall in Hok.
  specialize (Hok _ Hin). unfold face_still in Hok.
  destruct (a_keyframes t) as [k0|] eqn:Hk0; [|discriminate].
  apply andb_true_iff in Hok. destruct Hok as [Hwf0 Hface0].
  destruct (apply_emotion_same_shape _ _ _ Happly Hk0) as (k1 & Hk1 & Hshape).
  assert (Hwf1 : Dict.wf k1).
  { unfold Dict.wf. rewrite (same_shape_keys Hshape). now apply nodupb_NoDup. }
  assert (Hface1 : forall kfs, Dict.get "face" k1 = Some kfs ->
                               existsb moves kfs = false).
  { intros kfs Hg. pose proof (same_shape_get "face" Hshape) as Hs.
    rewrite Hg in Hs. destruct (Dict.get "face" k0) as [kfs0|]; [|contradiction].
    rewrite (same_keys_moves Hs). now apply negb_true_iff. }
  destruct (add_physics_tracks _ _ H) as (k & Hk & Hout).
  rewrite Hk1 in Hk. injection Hk as <-.
  destruct Hout as [Hout | (hair & Hh & Hout)].
  - exists k1. auto.
  - exists (Dict.set "hair" hair k1). split; auto. split.
    + now apply dict_set_wf.
    + intros kfs Hg. rewrite dict_get_set_other in Hg by discriminate. auto.
Qed.

(** C5, amended.  In the converted animation, every track (the "face" track
    is no exception) gets a rotate entry, with field [angle], from each
    keyframe containing rotation and a translate entry from each keyframe
    containing x or y, a missing axis being 0, all stepped; a track is in the
    bones output exactly when it produced a rotate or translate entry.  The
    "face" track is in the bones output exactly when one of its keyframes
    contains rotation, x or y, which never happens for a synthesized
    animation. *)
Theorem C5_bones_from_tracks (a : animation R) :
  let k := get_or (a_keyframes a) Dict.empty in
  let bones := sa_bones (_convert_to_spine_animation a) in
  Dict.wf k ->
  (forall (name : string) (kfs : list (keyframe R)),
      Dict.get name k = Some kfs ->
      (existsb moves kfs = true ->
       Dict.get name bones =
         Some {| rotate := flat_map rotate_entry kfs;
                 translate := flat_map translate_entry kfs;
                 scale := [] |}) /\
      (existsb moves kfs = false ->
       Dict.get name bones = None /\
       flat_map rotate_entry kfs = [] /\ flat_map translate_entry kfs = [])) /\
  (forall name : string,
      Dict.mem name bones = true <->
      exists kfs, Dict.get name k = Some kfs /\
                  (flat_map rotate_entry kfs <> [] \/
                   flat_map translate_entry kfs <> [])) /\
  (Dict.mem "face" bones = true <->
   exists kfs kf, Dict.get "face" k = Some kfs /\ In kf kfs /\ moves kf = true) /\
  (forall (animation_type emotion : string) (intensity : R)
          (character_id description : string) (out : animation R),
      synthesize animation_type emotion intensity character_id description = Ok out ->
      Dict.mem "face" (sa_bones (_convert_to_spine_animation out)) = false).
Proof.
  intros k bones Hwf.
  assert (Hbones : forall name,
             Dict.get name bones =
             match Dict.get name k with
             | Some kfs => if existsb moves kfs then Some (track_animation kfs) else None
             | None => None
             end).
  { intros name. unfold bones, _convert_to_spine_animation. simpl.
    now apply convert_bones_get. }
  assert (Hentries : forall kfs,
             existsb moves kfs = false <->
             flat_map rotate_entry kfs = [] /\ flat_map translate_entry kfs = []).
  { intros kfs. rewrite <- has_animations_moves, track_animation_entries.
    unfold has_animations. simpl. rewrite orb_false_r, orb_false_iff.
    now rewrite !nonempty_nil. }
  split; [|split; [|split]].
  - intros name kfs Hg. rewrite Hbones, Hg. split; intros Hm; rewrite Hm.
    + now rewrite track_animation_entries.
    + split; auto. now apply Hentries.
  - intros name. rewrite dict_mem_get, Hbones. split.
    + intros [b Hb]. destruct (Dict.get name k) as [kfs|]; [|discriminate].
      exists kfs. split; auto.
      destruct (existsb moves kfs) eqn:Hm; [|discriminate].
      destruct (flat_map rotate_entry kfs) eqn:Er; [|left; discriminate].
      destruct (flat_map translate_entry kfs) eqn:Et; [|right; discriminate].
      assert (existsb moves kfs = false) by (apply Hentries; auto). congruence.
    + intros (kfs & Hg & Hne). rewrite Hg.
      destruct (existsb moves kfs) eqn:Hm; eauto.
      apply Hentries in Hm. destruct Hm as [Hr Ht]. destruct Hne; contradiction.
  - rewrite dict_mem_get, Hbones. split.
    + intros [b Hb]. destruct (Dict.get "face" k) as [kfs|]; [|discriminate].
      destruct (existsb moves kfs) eqn:Hm; [|discriminate].
      apply existsb_exists in Hm. destruct Hm as (kf & Hin & Hkf). eauto.
    + intros (kfs & kf & Hg & Hin & Hkf). rewrite Hg.
      assert (Hm : existsb moves kfs = true) by (apply existsb_exists; eauto).
      rewrite Hm. eauto.
  - intros animation_type emotion intensity character_id description out Hs.
    destruct (synthesized_face_still _ _ _ _ _ Hs) as (ko & Hko & Hwfo & Hface).
    unfold _convert_to_spine_animation. simpl. rewrite Hko. simpl.
    unfold Dict.mem. rewrite convert_bones_get by assumption.
    destruct (Dict.get "face" ko) as [kfs|]; auto.
    now rewrite (Hface kfs eq_refl).
Qed.

End SynthesizedTracks.

(** C5, as stated, fails: a face track whose keyframe carries a rotation is
    converted like any other track and gets a bones entry. *)
Lemma C5_face_track_gets_bones_entry :
  Dict.get "face" (sa_bones (_convert_to_spine_animation nodding_face)) =
  Some {| rotate := [ mk_rotate 0%float 5%float "stepped" ];
          translate := []; scale := [] |}.
Proof. reflexivity. Qed.

(** C5 at the wave template, in binary64. *)
Lemma C5_wave_template_witness :
  let a := @wave_template float float64 in
  let k := get_or (a_keyframes a) Dict.empty in
  let bones := sa_bones (_convert_to_spine_animation a) in
  (forall (name : string) (kfs : list (keyframe float)),
      Dict.get name k = Some kfs ->
      (existsb moves kfs = true ->
       Dict.get name bones =
         Some {| rotate := flat_map rotate_entry kfs;
                 translate := flat_map translate_entry kfs;
                 scale := [] |}) /\
      (existsb moves kfs = false ->
       Dict.get name bones = None /\
       flat_map rotate_entry kfs = [] /\ flat_map translate_entry kfs = [])) /\
  (forall name : string,
      Dict.mem name bones = true <->
      exists kfs, Dict.get name k = Some kfs /\
                  (flat_map rotate_entry kfs <> [] \/
                   flat_map translate_entry kfs <> [])) /\
  (Dict.mem "face" bones = true <->
   exists kfs kf, Dict.get "face" k = Some kfs /\ In kf kfs /\ moves kf = true) /\
  (forall (animation_type emotion : string) (intensity : float)
          (character_id description : string) (out : animation float),
      synthesize animation_type emotion intensity character_id description = Ok out ->
      Dict.mem "face" (sa_bones (_convert_to_spine_animation out)) = false).
Proof.
  intros a k bones.
  apply (@C5_bones_from_tracks float float64 a).
  apply dict_wfb. reflexivity.
Defined.

Example wave_template_bones :
  Dict.keys (sa_bones (_convert_to_spine_animation (@wave_template float float64)))
  = [ "arm_right"; "hand_right" ].
Proof. reflexivity. Qed.

(* ===================================================================== *)
(** * The skeleton builder: IK constraints *)
(* ===================================================================== *)

Section IKConstraints.
Context {R : Type}.

Lemma limb_ik_in (rig : rig_data R) (name proximal distal : string) (bend : bool)
  (c : ik_constraint) :
  In c (limb_ik rig name proximal distal bend) <->
  Dict.mem proximal (parts rig) = true /\ Dict.mem distal (parts rig) = true /\
  c = mk_ik name distal [proximal] 1%Z bend.
Proof.
  unfold limb_ik.
  destruct (Dict.mem proximal (parts rig)), (Dict.mem distal (parts rig)); simpl;
    split; try tauto; try (intros (? & ? & ?); discriminate).
  - intros [<-|[]]. auto.
  - intros (_ & _ & ->). auto.
Qed.

Lemma create_ik_in (rig : rig_data R) (sk : skeleton R) (c : ik_constraint) :
  In c (_create_ik_constraints rig sk) <->
  exists (name proximal distal : string) (bend : bool),
    In (name, proximal, distal, bend)
       [ ("arm_right_ik", "arm_right", "hand_right", true);
         ("arm_left_ik", "arm_left", "hand_left", false);
         ("leg_right_ik", "leg_right", "foot_right", false);
         ("leg_left_ik", "leg_left", "foot_left", false) ] /\
    Dict.mem proximal (parts rig) = true /\ Dict.mem distal (parts rig) = true /\
    c = mk_ik name distal [proximal] 1%Z bend.
Proof.
  unfold _create_ik_constraints. rewrite !in_app_iff, !limb_ik_in. split.
  - intros [H|[H|[H|H]]]; destruct H as (Hp & Hd & ->);
      do 4 eexists; (split; [|split; [exact Hp|split; [exact Hd|reflexivity]]]);
      simpl; tauto.
  - intros (name & p & d & b & Hin & Hp & Hd & ->).
    simpl in Hin.
    destruct Hin as [H|[H|[H|[H|[]]]]]; injection H as <- <- <- <-; tauto.
Qed.

(** C4.  For each of the four limb pairs the IK constraints contain a
    constraint for the pair (its bone the proximal part, its target the
    distal part) if and only if both parts are keys of [parts]; every
    constraint emitted belongs to one of the four pairs, targets the distal
    part, lists only the proximal bone, has mix 1, and has bendPositive true
    exactly when it is "arm_right_ik". *)
Theorem C4_ik_constraint_iff_both_parts (rig : rig_data R) (sk : skeleton R) :
  let iks := _create_ik_constraints rig sk in
  (forall proximal distal : string,
      In (proximal, distal) limb_pairs ->
      ((exists c, In c iks /\ ik_bones c = [proximal] /\ ik_target c = distal) <->
       (Dict.mem proximal (parts rig) = true /\ Dict.mem distal (parts rig) = true))) /\
  (forall c : ik_constraint,
      In c iks ->
      exists proximal distal : string,
        In (proximal, distal) limb_pairs /\
        ik_name c = (proximal ++ "_ik")%string /\
        ik_target c = distal /\
        ik_bones c = [proximal] /\
        ik_mix c = 1%Z /\
        ik_bendPositive c = String.eqb (ik_name c) "arm_right_ik").
Proof.
  intros iks. split.
  - intros proximal distal Hpair. split.
    + intros (c & Hin & Hb & Ht).
      apply create_ik_in in Hin.
      destruct Hin as (name & p & d & b & Htab & Hp & Hd & ->).
      simpl in Hb, Ht. injection Hb as <-. subst d. auto.
    + intros [Hp Hd].
      simpl in Hpair.
      destruct Hpair as [H|[H|[H|[H|[]]]]]; injection H as <- <-;
        eexists; (split; [apply create_ik_in; do 4 eexists;
                          (split; [|split; [exact Hp|split; [exact Hd|reflexivity]]]);
                          simpl; tauto
                         | split; reflexivity]).
  - intros c Hin. apply create_ik_in in Hin.
    destruct Hin as (name & p & d & b & Htab & Hp & Hd & ->).
    simpl in Htab.
    destruct Htab as [H|[H|[H|[H|[]]]]]; injection H as <- <- <- <-.
    + exists "arm_right", "hand_right". repeat split; simpl; auto 10.
    + exists "arm_left", "hand_left". repeat split; simpl; auto 10.
    + exists "leg_right", "foot_right". repeat split; simpl; auto 10.
    + exists "leg_left", "foot_left". repeat split; simpl; auto 10.
Qed.

End IKConstraints.

(* ===================================================================== *)
(** * The export merge *)
(* ===================================================================== *)

Section ExportMerge.
Context {R : Type} {NR : Number R}.

(** C7.  Merging an exported animation into a skeleton document under its
    motion-type name leaves that name bound to the new animation, whatever
    was bound to it before, and bound once (an existing name keeps its place,
    a new one is added last); every other name of the animations map is
    bound as before; skeleton header, bones, slots, skins and IK constraints
    are unchanged.  [export_animation] performs exactly this merge, under the
    metadata's animation type. *)
Theorem C7_merge_overwrites_only_its_name (project : spine_project R)
  (animation_name : string) (exported : spine_animation R) :
  let merged := merge_animation project animation_name exported in
  Dict.get animation_name (sp_animations merged) = Some exported /\
  (forall other : string,
      other <> animation_name ->
      Dict.get other (sp_animations merged) = Dict.get other (sp_animations project)) /\
  Dict.keys (sp_animations merged) =
    (if Dict.mem animation_name (sp_animations project)
     then Dict.keys (sp_animations project)
     else Dict.keys (sp_animations project) ++ [animation_name]) /\
  sp_skeleton merged = sp_skeleton project /\
  sp_bones merged = sp_bones project /\
  sp_slots merged = sp_slots project /\
  sp_skins merged = sp_skins project /\
  sp_ik merged = sp_ik project /\
  (forall (animation_data : animation R) (animation_type : option string),
      export_animation project animation_data animation_type =
      (get_or animation_type "animation",
       merge_animation project (get_or animation_type "animation")
         (_convert_to_spine_animation animation_data))).
Proof.
  intros merged. unfold merged, merge_animation. simpl.
  split; [apply dict_get_set_same|].
  split; [intros other Hne; now apply dict_get_set_other|].
  split; [apply dict_keys_set|].
  repeat split.
Qed.

End ExportMerge.

(** Two exports of the same motion type into one document: the second
    replaces the first, an entry under another name stays. *)
Example second_export_replaces_first :
  let empty_project : spine_project float :=
    mk_spine_project (mk_skeleton_meta "h" "4.1.00" 100%float 100%float "" "")
      [] [] [] [] Dict.empty in
  let first := snd (export_animation empty_project wave_template (Some "wave")) in
  let second := snd (export_animation first idle_template (Some "idle")) in
  let third := snd (export_animation second jump_template (Some "wave")) in
  Dict.keys (sp_animations third) = [ "wave"; "idle" ] /\
  Dict.get "wave" (sp_animations third)
    = Some (_convert_to_spine_animation jump_template) /\
  Dict.get "idle" (sp_animations third)
    = Some (_convert_to_spine_animation idle_template).
Proof. repeat split. Qed.

(* ===================================================================== *)
(** * The skeleton builder: bone parents *)
(* ===================================================================== *)

Lemma existsb_eqb_in (part : string) (children : list string) :
  existsb (String.eqb part) children = true <-> In part children.
Proof.
  rewrite existsb_exists. split.
  - intros (x & Hin & He). apply String.eqb_eq in He. now subst.
  - intros Hin. exists part. split; auto. apply String.eqb_refl.
Qed.

Lemma find_parent_spec (table : Dict.t (list string)) (part : string) :
  hierarchy_parent table part (find_parent table part "root").
Proof.
  induction table as [|[p c] rest IH]; simpl.
  - right. split; auto.
  - destruct (existsb (String.eqb part) c) eqn:E.
    + left. exists [], rest, c. repeat split.
      * now apply existsb_eqb_in.
      * intros ? ? [].
    + assert (Hnot : ~ In part c).
      { intros Hin. apply existsb_eqb_in in Hin. congruence. }
      destruct IH as [(earlier & later & children & Ht & Hin & Hnone) | [Hd Hnone]].
      * left. exists ((p, c) :: earlier), later, children. repeat split; auto.
        -- simpl. now rewrite <- Ht.
        -- intros p' c' [H|H]; [injection H as <- <-; auto | eauto].
      * right. split; auto. intros p' c' [H|H]; [injection H as <- <-; auto | eauto].
Qed.

Section BoneParents.
Context {R : Type} {NR : Number R}.
Local Open Scope num_scope.

Lemma part_bone_name_parent (rig : rig_data R) (dims : dimensions R)
  (part_name : string) (l : layer R) (b : bone R) :
  part_bone rig dims part_name l = Ok b ->
  b_name b = part_name /\
  b_parent b = Some (find_parent (Dict.items (hierarchy rig)) part_name "root").
Proof.
  unfold part_bone.
  destruct (l_position l) as [pos|]; simpl.
  - destruct (l_dimensions l) as [ld|]; simpl; [|discriminate].
    intros [= <-]. auto.
  - intros [= <-]. auto.
Qed.

Lemma part_loop_bones (rig : rig_data R) (dims : dimensions R)
  (items : list (string * layer R)) (bs : list (bone R) * list slot) :
  part_loop rig dims items = Ok bs ->
  map (@b_name R) (fst bs) = map fst items /\
  forall b, In b (fst bs) ->
    b_parent b = Some (find_parent (Dict.items (hierarchy rig)) (b_name b) "root").
Proof.
  revert bs; induction items as [|[part_name l] rest IH]; simpl; intros bs H.
  - injection H as <-. simpl. split; [reflexivity | tauto].
  - destruct (part_bone rig dims part_name l) as [b|] eqn:Eb; simpl in H;
      [|discriminate].
    destruct (part_loop rig dims rest) as [bs'|] eqn:Er; simpl in H; [|discriminate].
    injection H as <-. simpl.
    destruct (IH _ eq_refl) as [Hn Hp].
    destruct (part_bone_name_parent _ _ _ _ Eb) as [Hbn Hbp].
    split.
    + now rewrite Hbn, Hn.
    + intros b' [<-|Hin]; [now rewrite Hbn | auto].
Qed.

(** The layers the importer writes carry their dimensions: for them
    [_create_skeleton] returns a skeleton. *)
Lemma create_skeleton_total (rig : rig_data R) (dims : dimensions R) :
  (forall part l, In (part, l) (parts rig) ->
                  l_position l <> None -> l_dimensions l <> None) ->
  exists sk, _create_skeleton rig dims = Ok sk.
Proof.
  unfold _create_skeleton, Dict.items.
  intros H.
  assert (Hloop : exists bs, part_loop rig dims (parts rig) = Ok bs).
  { induction (parts rig) as [|[part_name l] rest IH]; simpl.
    - eauto.
    - destruct IH as [bs Hbs]; [intros; eapply H; simpl; eauto|].
      rewrite Hbs.
      assert (Hb : exists b, part_bone rig dims part_name l = Ok b).
      { unfold part_bone. specialize (H part_name l (or_introl eq_refl)).
        destruct (l_position l); simpl; eauto.
        destruct (l_dimensions l); simpl; eauto.
        exfalso. apply H; congruence. }
      destruct Hb as [b Hb]. rewrite Hb. simpl. eauto. }
  destruct Hloop as [bs Hbs]. rewrite Hbs. simpl. eauto.
Qed.

(** C10.  With the fixed hierarchy table, the built bone list is the root
    bone followed by one bone per part, in the order of [parts]; the parent
    of each of these bones is the first key of the fixed table whose child
    list contains the part ("root" when none does), whatever parts were
    detected; the table of the structure inferred from any layers is the
    fixed one.  So a part whose table parent is neither "root" nor a detected
    part gives a bone whose parent names no bone of the list, as when
    "hand_right" is detected and "arm_right" is not. *)
Theorem C10_bone_parent_from_fixed_table (rig : rig_data R) (dims : dimensions R)
  (sk : skeleton R) :
  hierarchy rig = fixed_hierarchy ->
  _create_skeleton rig dims = Ok sk ->
  (forall layers : list (layer R),
      hierarchy (_analyze_character_structure layers) = fixed_hierarchy) /\
  exists bs : list (bone R),
    sk_bones sk = root_bone dims :: bs /\
    map (@b_name R) bs = Dict.keys (parts rig) /\
    (forall b, In b bs ->
       exists parent, b_parent b = Some parent /\
                      hierarchy_parent fixed_hierarchy (b_name b) parent) /\
    (forall part parent,
       In part (Dict.keys (parts rig)) ->
       parent = find_parent fixed_hierarchy part "root" ->
       parent <> "root" ->
       ~ In parent (Dict.keys (parts rig)) ->
       exists b, In b (sk_bones sk) /\ b_name b = part /\
                 b_parent b = Some parent /\
                 ~ In parent (map (@b_name R) (sk_bones sk))) /\
    (Dict.mem "hand_right" (parts rig) = true ->
     Dict.mem "arm_right" (parts rig) = false ->
     exists b, In b (sk_bones sk) /\ b_name b = "hand_right" /\
               b_parent b = Some "arm_right" /\
               ~ In "arm_right" (map (@b_name R) (sk_bones sk))).
Proof.
  intros Hh Hsk. split; [reflexivity|].
  unfold _create_skeleton in Hsk.
  destruct (part_loop rig dims (Dict.items (parts rig))) as [bs|] eqn:Hloop;
    simpl in Hsk; [|discriminate].
  injection Hsk as <-. simpl.
  destruct (part_loop_bones _ _ _ Hloop) as [Hnames Hparents].
  rewrite Hh in Hparents. unfold Dict.items in Hnames, Hparents.
  fold (Dict.keys (parts rig)) in Hnames.
  assert (Hdangling : forall part parent,
             In part (Dict.keys (parts rig)) ->
             parent = find_parent fixed_hierarchy part "root" ->
             parent <> "root" ->
             ~ In parent (Dict.keys (parts rig)) ->
             exists b, (root_bone dims = b \/ In b (fst bs)) /\ b_name b = part /\
                       b_parent b = Some parent /\
                       ~ ("root" = parent \/ In parent (map (@b_name R) (fst bs)))).
  { intros part parent Hin Hpar Hnr Hnot.
    rewrite <- Hnames in Hin.
    apply in_map_iff in Hin. destruct Hin as (b & Hb & Hinb).
    exists b. split; auto. split; auto. split.
    - rewrite (Hparents b Hinb), Hb. now subst parent.
    - rewrite Hnames. intros [H|H]; [congruence | auto]. }
  exists (fst bs). split; [reflexivity|]. split; [exact Hnames|].
  split; [|split].
  - intros b Hin. eexists. split; [apply Hparents; exact Hin|].
    apply find_parent_spec.
  - exact Hdangling.
  - intros Hhand Harm.
    apply (Hdangling "hand_right" "arm_right").
    + now apply dict_mem_keys.
    + reflexivity.
    + discriminate.
    + now apply dict_mem_false_keys.
Qed.

End BoneParents.

(** C10 at that character, on a 200 x 300 canvas, in binary64. *)
Lemma C10_hand_without_arm_witness :
  let rig := _analyze_character_structure hand_only_layers in
  let dims := mk_dimensions 200%float 300%float in
  let sk :=
    match _create_skeleton rig dims with
    | Ok sk => sk
    | Raise _ => mk_skeleton [] []
    end in
  (forall layers : list (layer float),
      hierarchy (_analyze_character_structure layers) = fixed_hierarchy) /\
  exists bs : list (bone float),
    sk_bones sk = root_bone dims :: bs /\
    map (@b_name float) bs = Dict.keys (parts rig) /\
    (forall b, In b bs ->
       exists parent, b_parent b = Some parent /\
                      hierarchy_parent fixed_hierarchy (b_name b) parent) /\
    (forall part parent,
       In part (Dict.keys (parts rig)) ->
       parent = find_parent fixed_hierarchy part "root" ->
       parent <> "root" ->
       ~ In parent (Dict.keys (parts rig)) ->
       exists b, In b (sk_bones sk) /\ b_name b = part /\
                 b_parent b = Some parent /\
                 ~ In parent (map (@b_name float) (sk_bones sk))) /\
    (Dict.mem "hand_right" (parts rig) = true ->
     Dict.mem "arm_right" (parts rig) = false ->
     exists b, In b (sk_bones sk) /\ b_name b = "hand_right" /\
               b_parent b = Some "arm_right" /\
               ~ In "arm_right" (map (@b_name float) (sk_bones sk))).
Proof.
  intros rig dims sk.
  apply (@C10_bone_parent_from_fixed_table float float64 rig dims sk);
    reflexivity.
Defined.

Example hand_without_arm_bones :
  exists sk : skeleton float,
    _create_skeleton (_analyze_character_structure hand_only_layers)
      (mk_dimensions 200%float 300%float) = Ok sk /\
    map (fun b => (b_name b, b_parent b)) (sk_bones sk) =
      [ ("root", None); ("body", Some "root"); ("hand_right", Some "arm_right") ] /\
    _create_ik_constraints (_analyze_character_structure hand_only_layers) sk = [].
Proof. eexists. split; [reflexivity|]. split; reflexivity. Qed.

(** The specification's scenario: layers "Right_Arm" and "RightHand". *)
Example right_arm_and_hand_scenario :
  let layers : list (layer float) :=
    [ mk_layer "layer_0" "Right_Arm" "pixel" "Right_Arm"
        (Some (mk_position 10%float 20%float))
        (Some (mk_dimensions 30%float 90%float)) (Some "layer_0.png") None;
      mk_layer "layer_1" "RightHand" "pixel" "RightHand"
        (Some (mk_position 10%float 110%float))
        (Some (mk_dimensions 30%float 40%float)) (Some "layer_1.png") None ] in
  exists sk : skeleton float,
    _create_skeleton (_analyze_character_structure layers)
      (mk_dimensions 200%float 300%float) = Ok sk /\
    map (fun b => (b_name b, b_parent b)) (sk_bones sk) =
      [ ("root", None); ("arm_right", Some "body"); ("hand_right", Some "arm_right") ] /\
    _create_ik_constraints (_analyze_character_structure layers) sk =
      [ mk_ik "arm_right_ik" "hand_right" [ "arm_right" ] 1%Z true ].
Proof. eexists. split; [reflexivity|]. split; reflexivity. Qed.

(* ===================================================================== *)
(** * The object store: frames, ownership and simulation *)
(* ===================================================================== *)

Unset Implicit Arguments.

Lemma nth_error_alloc_new {A} (h : list A) (o : A) :
  nth_error (h ++ [o]) (List.length h) = Some o.
Proof. induction h; simpl; auto. Qed.

Lemma nth_error_alloc_old {A} (h : list A) (o x : A) (l : nat) :
  nth_error h l = Some x -> nth_error (h ++ [o]) l = Some x.
Proof.
  intros H. rewrite nth_error_app1; auto.
  apply nth_error_Some. congruence.
Qed.

Lemma length_update {A} (l : nat) (a : A) (h : list A) :
  List.length (Store.update l a h) = List.length h.
Proof.
  revert l; induction h as [|x h IH]; intros [|l]; simpl; auto.
Qed.

Lemma nth_error_update_same {A} (l : nat) (a : A) (h : list A) :
  (l < List.length h)%nat -> nth_error (Store.update l a h) l = Some a.
Proof.
  revert l; induction h as [|x h IH]; intros [|l]; simpl; intros H;
    try lia; auto.
  apply IH. lia.
Qed.

Lemma nth_error_update_other {A} (l l' : nat) (a : A) (h : list A) :
  l <> l' -> nth_error (Store.update l a h) l' = nth_error h l'.
Proof.
  revert l l'; induction h as [|x h IH]; intros [|l] [|l'] H; simpl; auto;
    try congruence.
Qed.

Lemma nth_error_lt {A} (h : list A) (l : nat) (x : A) :
  nth_error h l = Some x -> (l < List.length h)%nat.
Proof. intros H. apply nth_error_Some. congruence. Qed.

Section StoreFacts.
Context {R : Type} {NR : Number R}.

Lemma frame_refl (n : nat) (h : @Store.heap R) : frame n h h.
Proof. split; auto. Qed.

Lemma frame_trans (n : nat) (h1 h2 h3 : @Store.heap R) :
  frame n h1 h2 -> frame n h2 h3 -> frame n h1 h3.
Proof.
  intros [L1 F1] [L2 F2]. split; [lia|].
  intros l Hl. rewrite F2, F1; auto.
Qed.

Lemma frame_alloc (n : nat) (h : @Store.heap R) (o : Store.object) :
  (n <= List.length h)%nat -> frame n h (h ++ [o]).
Proof.
  intros Hn. split.
  - rewrite length_app. lia.
  - intros l Hl. apply nth_error_app1. lia.
Qed.

Lemma frame_update (n l : nat) (h : @Store.heap R) (o : Store.object) :
  (n <= l)%nat -> frame n h (Store.update l o h).
Proof.
  intros Hn. split.
  - rewrite length_update. lia.
  - intros l' Hl. apply nth_error_update_other. lia.
Qed.

Lemma frame_weaken (n m : nat) (h h' : @Store.heap R) :
  (m <= n)%nat -> frame n h h' -> frame m h h'.
Proof. intros Hm [L F]. split; auto. intros l Hl. apply F. lia. Qed.

Lemma owns_snapshot (n : nat) (l : Store.loc) (h : @Store.heap R) (v : animation R) :
  owns n l h v -> Store.snapshot l h = Some v.
Proof.
  unfold owns, Store.snapshot. intros [_ H]. destruct v as [name d [k|] p]; simpl in *.
  - destruct H as (kl & _ & Hl & Hk). now rewrite Hl, Hk.
  - now rewrite H.
Qed.

(** A new animation object is owned from the length of the store on. *)
Lemma new_animation_owns (v : animation R) (h : @Store.heap R) :
  exists (l : Store.loc) (h' : @Store.heap R),
    Store.new_animation v h = (Ok l, h') /\
    owns (List.length h) l h' v /\
    frame (List.length h) h h'.
Proof.
  unfold Store.new_animation, owns.
  destruct v as [name d [k|] p]; simpl.
  - unfold Store.sbind, Store.alloc, Store.ret. simpl.
    do 2 eexists. split; [reflexivity|]. split.
    + split; [rewrite length_app; lia|].
      exists (List.length h). split; [lia|]. split.
      * apply nth_error_alloc_new.
      * apply nth_error_alloc_old, nth_error_alloc_new.
    + apply frame_trans with (h ++ [Store.TracksObject k]);
        apply frame_alloc; rewrite ?length_app; lia.
  - unfold Store.sbind, Store.alloc, Store.ret. simpl.
    do 2 eexists. split; [reflexivity|]. split.
    + split; [lia|]. apply nth_error_alloc_new.
    + apply frame_alloc. lia.
Qed.

Lemma deepcopy_owns (l0 : Store.loc) (v : animation R) (h : @Store.heap R) :
  Store.snapshot l0 h = Some v ->
  exists (l : Store.loc) (h' : @Store.heap R),
    Store.deepcopy l0 h = (Ok l, h') /\
    owns (List.length h) l h' v /\
    frame (List.length h) h h'.
Proof.
  intros Hs. unfold Store.deepcopy. rewrite Hs. apply new_animation_owns.
Qed.

End StoreFacts.


Section ApplyEmotionStore.
Context {R : Type} {NR : Number R}.
Local Open Scope num_scope.

Lemma sbind_ok {A B} (m : @Store.M R A) (f : A -> @Store.M R B)
  (h h1 : @Store.heap R) (a : A) :
  m h = (Ok a, h1) -> Store.sbind m f h = f a h1.
Proof. unfold Store.sbind. now intros ->. Qed.

Lemma sbind_raise {A B} (m : @Store.M R A) (f : A -> @Store.M R B)
  (h h1 : @Store.heap R) (e : exn) :
  m h = (Raise e, h1) -> Store.sbind m f h = (Raise e, h1).
Proof. unfold Store.sbind. now intros ->. Qed.

Lemma run_read (l : Store.loc) (h : @Store.heap R) (o : Store.object) :
  nth_error h l = Some o -> Store.read l h = (Ok o, h).
Proof. unfold Store.read. now intros ->. Qed.

Lemma run_read_tracks (l : Store.loc) (h : @Store.heap R) (k : tracks R) :
  nth_error h l = Some (Store.TracksObject k) -> Store.read_tracks l h = (Ok k, h).
Proof.
  intros H. unfold Store.read_tracks. now rewrite (sbind_ok _ _ _ _ _ (run_read _ _ _ H)).
Qed.

(** An animation object and a tracks object are different objects. *)
Lemma kinds_differ (h : @Store.heap R) (l kl : Store.loc) name d ko p k :
  nth_error h l = Some (Store.AnimationObject name d ko p) ->
  nth_error h kl = Some (Store.TracksObject k) ->
  l <> kl.
Proof. intros Hl Hk ->. congruence. Qed.

(** The second half of [_apply_emotion]: the keyframes of [result] are
    rewritten in place. *)
Lemma modulate_in_place (n : nat) (result kl : Store.loc) (h : @Store.heap R)
  (name : string) (d : R) (p : option (list (particle R))) (k : tracks R)
  (ed : emotion_data R) (e : R) :
  (n <= result)%nat -> (n <= kl)%nat ->
  nth_error h result = Some (Store.AnimationObject name d (Some kl) p) ->
  nth_error h kl = Some (Store.TracksObject k) ->
  exists (r : res Store.loc) (h' : @Store.heap R),
    Store.sbind (Store.lift (index "keyframes" (Some kl)))
      (fun kl =>
         Store.sbind (Store.read_tracks kl)
           (fun k =>
              Store.sbind (Store.lift (modulate_tracks ed e k))
                (fun k' =>
                   Store.sbind (Store.write kl (Store.TracksObject k'))
                     (fun _ => Store.ret result)))) h = (r, h') /\
    frame n h h' /\
    match modulate_tracks ed e k with
    | Ok k' => r = Ok result /\ owns n result h' (mk_animation name d (Some k') p)
    | Raise ex => r = Raise ex
    end.
Proof.
  intros Hn Hkn Hr Hk.
  pose proof (kinds_differ _ _ _ _ _ _ _ _ Hr Hk) as Hne.
  pose proof (nth_error_lt _ _ _ Hk) as Hklt.
  cbn [index Store.lift].
  rewrite (sbind_ok _ _ h h kl eq_refl).
  rewrite (sbind_ok _ _ _ _ _ (run_read_tracks _ _ _ Hk)).
  destruct (modulate_tracks ed e k) as [k'|ex].
  - do 2 eexists. split; [reflexivity|]. split; [apply frame_update; lia|].
    split; [reflexivity|]. split; [exact Hn|]. simpl.
    exists kl. split; [exact Hkn|]. split.
    + rewrite nth_error_update_other by congruence. exact Hr.
    + now apply nth_error_update_same.
  - do 2 eexists. split; [reflexivity|]. split; [apply frame_refl | reflexivity].
Qed.

Lemma apply_emotion_sim (n : nat) (l : Store.loc) (h : @Store.heap R)
  (v : animation R) (emotion : string) (intensity : R) :
  (n <= List.length h)%nat ->
  owns n l h v ->
  exists (r : res Store.loc) (h' : @Store.heap R),
    Store._apply_emotion l emotion intensity h = (r, h') /\
    frame n h h' /\
    match _apply_emotion v emotion intensity with
    | Ok v' => exists l', r = Ok l' /\ owns n l' h' v'
    | Raise e => r = Raise e
    end.
Proof.
  intros Hnh Hown.
  unfold Store._apply_emotion, _apply_emotion.
  destruct (Dict.get emotion emotions) as [ed|].
  2:{ do 2 eexists. split; [reflexivity|]. split; [apply frame_refl | eauto]. }
  destruct Hown as [Hl Hv].
  set (speed_modifier := of_Z 1 + (speed (movement ed) - of_Z 1) * intensity).
  set (energy_modifier := of_Z 1 + (energy (movement ed) - of_Z 1) * intensity).
  destruct v as [name d [k|] p]; simpl in Hv; simpl.
  - destruct Hv as (kl & Hkl & Hlo & Hk).
    pose proof (nth_error_lt _ _ _ Hk) as Hklt.
    rewrite (sbind_ok _ _ _ _ _ (run_read _ _ _ Hlo)).
    set (o := Store.AnimationObject name d (Some kl) p).
    rewrite (sbind_ok _ _ _ _ _ (eq_refl : Store.alloc o h = (Ok (List.length h), h ++ [o]))).
    assert (Hk1 : nth_error (h ++ [o]) kl = Some (Store.TracksObject k))
      by now apply nth_error_alloc_old.
    assert (Hf1 : frame n h (h ++ [o])) by now apply frame_alloc.
    destruct (negb (speed_modifier == of_Z 1)).
    + unfold py_div. destruct (speed_modifier == of_Z 0).
      * do 2 eexists. split; [reflexivity|]. simpl. split; [exact Hf1 | reflexivity].
      * set (o' := Store.AnimationObject name (d / speed_modifier) (Some kl) p).
        destruct (modulate_in_place n (List.length h) kl
                    (Store.update (List.length h) o' (h ++ [o]))
                    name (d / speed_modifier) p k ed energy_modifier)
          as (r & h' & Hrun & Hf & Hres); auto.
        { apply nth_error_update_same. rewrite length_app. simpl. lia. }
        { rewrite nth_error_update_other by lia. exact Hk1. }
        exists r, h'. split; [exact Hrun|]. split.
        { eapply frame_trans; [exact Hf1|]. eapply frame_trans; [|exact Hf].
          apply frame_update. lia. }
        simpl. destruct (modulate_tracks ed energy_modifier k); simpl.
        -- exists (List.length h). exact Hres.
        -- exact Hres.
    + destruct (modulate_in_place n (List.length h) kl (h ++ [o])
                  name d p k ed energy_modifier)
        as (r & h' & Hrun & Hf & Hres); auto.
      { apply nth_error_alloc_new. }
      exists r, h'. split; [exact Hrun|]. split.
      { eapply frame_trans; [exact Hf1 | exact Hf]. }
      simpl. destruct (modulate_tracks ed energy_modifier k); simpl.
      * exists (List.length h). exact Hres.
      * exact Hres.
  - rewrite (sbind_ok _ _ _ _ _ (run_read _ _ _ Hv)).
    set (o := Store.AnimationObject name d None p).
    rewrite (sbind_ok _ _ _ _ _ (eq_refl : Store.alloc o h = (Ok (List.length h), h ++ [o]))).
    assert (Hf1 : frame n h (h ++ [o])) by now apply frame_alloc.
    destruct (negb (speed_modifier == of_Z 1)).
    + unfold py_div. destruct (speed_modifier == of_Z 0).
      * do 2 eexists. split; [reflexivity|]. simpl. split; [exact Hf1 | reflexivity].
      * do 2 eexists. split; [reflexivity|]. simpl. split; [|reflexivity].
        eapply frame_trans; [exact Hf1|]. apply frame_update. lia.
    + do 2 eexists. split; [reflexivity|]. simpl. split; [exact Hf1 | reflexivity].
Qed.

End ApplyEmotionStore.


Section AddPhysicsStore.
Context {R : Type} {NR : Number R}.
Local Open Scope num_scope.

Lemma add_physics_sim (n : nat) (l : Store.loc) (h : @Store.heap R)
  (v : animation R) (description : string) :
  owns n l h v ->
  exists (r : res Store.loc) (h' : @Store.heap R),
    Store._add_physics_and_effects l description h = (r, h') /\
    frame n h h' /\
    match _add_physics_and_effects v description with
    | Ok v' => r = Ok l /\ owns n l h' v'
    | Raise e => r = Raise e
    end.
Proof.
  intros [Hl Hv].
  unfold Store._add_physics_and_effects, _add_physics_and_effects.
  destruct v as [name d [k|] p]; simpl in Hv; simpl.
  2:{ rewrite (sbind_ok _ _ _ _ _ (run_read _ _ _ Hv)).
      do 2 eexists. split; [reflexivity|]. split; [apply frame_refl | reflexivity]. }
  destruct Hv as (kl & Hkl & Hlo & Hk).
  pose proof (kinds_differ _ _ _ _ _ _ _ _ Hlo Hk) as Hne.
  pose proof (nth_error_lt _ _ _ Hk) as Hklt.
  pose proof (nth_error_lt _ _ _ Hlo) as Hllt.
  rewrite (sbind_ok _ _ _ _ _ (run_read _ _ _ Hlo)).
  cbn [index Store.lift].
  rewrite (sbind_ok _ _ h h kl eq_refl).
  rewrite (sbind_ok _ _ _ _ _ (run_read_tracks _ _ _ Hk)).
  destruct (Dict.mem "hair" k) eqn:Hhair.
  { do 2 eexists. split; [reflexivity|]. split; [apply frame_refl|].
    split; [reflexivity|]. split; [exact Hl|]. simpl. eauto. }
  (* the hair block leaves a store [h1] with the tracks [k1] at [kl] *)
  assert (Hblock :
    exists (r1 : res unit) (h1 : @Store.heap R),
      (if Dict.mem "root" k && negb false
       then Store.sbind (Store.lift (index "root" (Dict.get "root" k)))
              (fun root_keyframes =>
                 Store.sbind (Store.lift (hair_loop d 0 root_keyframes))
                   (fun hair_keyframes =>
                      if nonempty hair_keyframes
                      then Store.write kl
                             (Store.TracksObject (Dict.set "hair" hair_keyframes k))
                      else Store.ret tt))
       else Store.ret tt) h = (r1, h1) /\
      frame n h h1 /\
      List.length h1 = List.length h /\
      nth_error h1 l = Some (Store.AnimationObject name d (Some kl) p) /\
      match
        (if Dict.mem "root" k && negb false
         then root_keyframes <- index "root" (Dict.get "root" k) ;;
              hair_keyframes <- hair_loop d 0 root_keyframes ;;
              if nonempty hair_keyframes
              then Ok (set_keyframes (mk_animation name d (Some k) p)
                         (Dict.set "hair" hair_keyframes k))
              else Ok (mk_animation name d (Some k) p)
         else Ok (mk_animation name d (Some k) p))
      with
      | Ok a1 =>
          r1 = Ok tt /\ a_name a1 = name /\ a_duration a1 = d /\ a_particles a1 = p /\
          exists k1, a_keyframes a1 = Some k1 /\
                     nth_error h1 kl = Some (Store.TracksObject k1)
      | Raise e => r1 = Raise e
      end).
  { destruct (Dict.mem "root" k && negb false).
    2:{ do 2 eexists. split; [reflexivity|]. split; [apply frame_refl|].
        repeat split; auto. simpl. eauto. }
    destruct (Dict.get "root" k) as [root|]; cbn [index Store.lift bind].
    2:{ do 2 eexists. split; [reflexivity|]. split; [apply frame_refl|].
        repeat split; auto. }
    rewrite (sbind_ok _ _ h h root eq_refl).
    destruct (hair_loop d 0 root) as [hair|ex]; cbn [bind].
    2:{ do 2 eexists. split; [reflexivity|]. split; [apply frame_refl|].
        repeat split; auto. }
    rewrite (sbind_ok _ _ h h hair eq_refl).
    destruct (nonempty hair).
    - do 2 eexists. split; [reflexivity|]. split; [apply frame_update; lia|].
      split; [apply length_update|].
      split; [rewrite nth_error_update_other by congruence; exact Hlo|].
      repeat split; auto. simpl. eexists. split; [reflexivity|].
      now apply nth_error_update_same.
    - do 2 eexists. split; [reflexivity|]. split; [apply frame_refl|].
      repeat split; auto. simpl. eauto. }
  destruct Hblock as (r1 & h1 & Hrun1 & Hf1 & Hlen1 & Hl1 & Hres1).
  unfold Store.sbind at 1. rewrite Hrun1.
  match type of Hres1 with
  | match ?x with _ => _ end => destruct x as [a1|ex]
  end.
  2:{ subst r1. cbn [bind]. do 2 eexists. split; [reflexivity|].
      split; [exact Hf1 | reflexivity]. }
  destruct Hres1 as (-> & Hname & Hdur & Hparts & k1 & Hk1 & Hkl1).
  cbn [bind]. rewrite Hdur.
  destruct (nonempty (particles_of d description)).
  - do 2 eexists. split; [reflexivity|]. split.
    { eapply frame_trans; [exact Hf1|]. apply frame_update. lia. }
    split; [reflexivity|]. split; [exact Hl|].
    destruct a1 as [name1 d1 ko1 p1]. simpl in *. subst. simpl.
    exists kl. split; [exact Hkl|]. split.
    + apply nth_error_update_same. lia.
    + rewrite nth_error_update_other by congruence. exact Hkl1.
  - do 2 eexists. split; [reflexivity|]. split; [exact Hf1|].
    split; [reflexivity|]. split; [exact Hl|].
    destruct a1 as [name1 d1 ko1 p1]. simpl in *. subst. simpl.
    exists kl. split; [exact Hkl|]. split; [exact Hl1 | exact Hkl1].
Qed.

End AddPhysicsStore.


Section StoredTemplates.
Context {R : Type} {NR : Number R}.
Local Open Scope num_scope.

Lemma stored_get (self : Store.self_templates) (h : @Store.heap R)
  (ts : Dict.t (animation R)) (name : string) :
  Store.stored_templates self h = Some ts ->
  match Dict.get name self, Dict.get name ts with
  | Some l, Some v => Store.snapshot l h = Some v
  | None, None => True
  | _, _ => False
  end.
Proof.
  revert ts; induction self as [|[n l] self IH]; simpl; intros ts H.
  - injection H as <-. exact I.
  - destruct (Store.snapshot l h) as [v|] eqn:Hs; [|discriminate].
    destruct (Store.stored_templates self h) as [ts'|]; [|discriminate].
    injection H as <-. simpl.
    destruct (String.eqb n name); [exact Hs | now apply IH].
Qed.

Lemma stored_keys (self : Store.self_templates) (h : @Store.heap R)
  (ts : Dict.t (animation R)) :
  Store.stored_templates self h = Some ts -> Dict.keys self = Dict.keys ts.
Proof.
  revert ts; induction self as [|[n l] self IH]; simpl; intros ts H.
  - now injection H as <-.
  - destruct (Store.snapshot l h) as [v|]; [|discriminate].
    destruct (Store.stored_templates self h) as [ts'|]; [|discriminate].
    injection H as <-. simpl. f_equal. now apply IH.
Qed.

Lemma stored_mem (self : Store.self_templates) (h : @Store.heap R)
  (ts : Dict.t (animation R)) (name : string) :
  Store.stored_templates self h = Some ts ->
  Dict.mem name self = Dict.mem name ts.
Proof.
  intros H. apply stored_get with (name := name) in H.
  unfold Dict.mem. destruct (Dict.get name self), (Dict.get name ts); tauto.
Qed.

(** What a snapshot reads lies in the store, and a frame keeps it. *)
Lemma snapshot_frame (l : Store.loc) (h h' : @Store.heap R) (v : animation R) :
  Store.snapshot l h = Some v ->
  frame (List.length h) h h' ->
  Store.snapshot l h' = Some v.
Proof.
  unfold Store.snapshot. intros H [_ F].
  destruct (nth_error h l) as [o|] eqn:Hl; [|discriminate].
  rewrite (F l (nth_error_lt _ _ _ Hl)), Hl.
  destruct o as [name d [kl|] p|]; auto.
  destruct (nth_error h kl) as [o'|] eqn:Hk; [|discriminate].
  now rewrite (F kl (nth_error_lt _ _ _ Hk)), Hk.
Qed.

Lemma stored_frame (self : Store.self_templates) (h h' : @Store.heap R)
  (ts : Dict.t (animation R)) :
  Store.stored_templates self h = Some ts ->
  frame (List.length h) h h' ->
  Store.stored_templates self h' = Some ts.
Proof.
  intros H F. revert ts H; induction self as [|[n l] self IH]; simpl; intros ts H; auto.
  destruct (Store.snapshot l h) as [v|] eqn:Hs; [|discriminate].
  destruct (Store.stored_templates self h) as [ts'|]; [|discriminate].
  rewrite (snapshot_frame _ _ _ _ Hs F), (IH _ eq_refl). exact H.
Qed.

(** The store-level pipeline computes the value-level one, in new
    objects. *)
Lemma synthesize_sim (self : Store.self_templates) (h : @Store.heap R)
  (animation_type emotion : string) (intensity : R)
  (character_id description : string) :
  Store.stored_templates self h = Some templates ->
  exists (r : res Store.loc) (h' : @Store.heap R),
    Store.synthesize self animation_type emotion intensity character_id description h
      = (r, h') /\
    frame (List.length h) h h' /\
    match synthesize animation_type emotion intensity character_id description with
    | Ok v => exists l, r = Ok l /\ owns (List.length h) l h' v
    | Raise e => r = Raise e
    end.
Proof.
  intros Hst.
  unfold Store.synthesize, synthesize, Store._get_template, _get_template,
    Store._adjust_for_character, _adjust_for_character.
  rewrite (stored_mem _ _ _ animation_type Hst).
  set (name := if negb (Dict.mem animation_type templates) then "idle" else animation_type).
  pose proof (stored_get _ _ _ name Hst) as Hget.
  destruct (Dict.get name self) as [l0|], (Dict.get name templates) as [v|];
    try contradiction.
  2:{ do 2 eexists. split; [reflexivity|]. split; [apply frame_refl | reflexivity]. }
  cbn [index Store.lift bind].
  destruct (deepcopy_owns l0 v h Hget) as (l1 & h1 & Hcopy & Hown1 & Hf1).
  assert (Hinner :
    Store.sbind (Store.lift (Ok l0)) (fun l => Store.deepcopy l) h = (Ok l1, h1))
    by exact Hcopy.
  rewrite (sbind_ok _ _ _ _ _ Hinner).
  destruct (apply_emotion_sim (List.length h) l1 h1 v emotion intensity)
    as (r2 & h2 & Hrun2 & Hf2 & Hres2); [apply Hf1 | exact Hown1 |].
  destruct (_apply_emotion v emotion intensity) as [v2|e2]; cbn [bind].
  2:{ subst r2. rewrite (sbind_raise _ _ _ _ _ Hrun2).
      do 2 eexists. split; [reflexivity|]. split; [|reflexivity].
      eapply frame_trans; eauto. }
  destruct Hres2 as (l2 & -> & Hown2).
  rewrite (sbind_ok _ _ _ _ _ Hrun2).
  destruct (add_physics_sim (List.length h) l2 h2 v2 description Hown2)
    as (r3 & h3 & Hrun3 & Hf3 & Hres3).
  exists r3, h3. split; [exact Hrun3|]. split.
  { eapply frame_trans; [exact Hf1|]. eapply frame_trans; eauto. }
  destruct (_add_physics_and_effects v2 description); [|exact Hres3].
  exists l2. exact Hres3.
Qed.

End StoredTemplates.


Section Purity.
Context {R : Type} {NR : Number R}.
Local Open Scope num_scope.

(** [__init__] stores the templates. *)
Lemma init_stored :
  exists (self : Store.self_templates) (h0 : @Store.heap R),
    Store.init = (Ok self, h0) /\
    Store.stored_templates self h0 = Some templates.
Proof. do 2 eexists. split; reflexivity. Qed.

Lemma synthesize_and_dump_sim (self : Store.self_templates) (h : @Store.heap R)
  (c : Store.call) :
  Store.stored_templates self h = Some templates ->
  exists h' : @Store.heap R,
    synthesize_and_dump self c h =
      (synthesize (Store.c_animation_type c) (Store.c_emotion c)
         (Store.c_intensity c) (Store.c_character_id c) (Store.c_description c), h') /\
    frame (List.length h) h h'.
Proof.
  intros Hst. unfold synthesize_and_dump.
  destruct (synthesize_sim self h (Store.c_animation_type c) (Store.c_emotion c)
              (Store.c_intensity c) (Store.c_character_id c)
              (Store.c_description c) Hst) as (r & h' & Hrun & Hf & Hres).
  exists h'. split; [|exact Hf].
  destruct (synthesize _ _ _ _ _) as [v|e].
  - destruct Hres as (l & -> & Hown).
    rewrite (sbind_ok _ _ _ _ _ Hrun). unfold Store.dump.
    now rewrite (owns_snapshot _ _ _ _ Hown).
  - subst r. now rewrite (sbind_raise _ _ _ _ _ Hrun).
Qed.

Lemma generate_animation_sim (self : Store.self_templates) (h : @Store.heap R)
  (character_id description : string) :
  Store.stored_templates self h = Some templates ->
  exists h' : @Store.heap R,
    Store.generate_animation self character_id description h =
      (generate_animation character_id description, h') /\
    frame (List.length h) h h'.
Proof.
  intros Hst. unfold Store.generate_animation, generate_animation,
    Store._parse_description, _parse_description.
  rewrite (stored_keys _ _ _ Hst).
  set (animation_type := first_key_in (Dict.keys templates) (lower description) "idle").
  set (emotion := first_key_in (Dict.keys emotions) (lower description) "neutral").
  set (intensity := first_word_in (Dict.items intensity_words) (lower description) (of_Z 1)).
  destruct (synthesize_sim self h animation_type emotion intensity character_id
              description Hst) as (r & h' & Hrun & Hf & Hres).
  exists h'. split; [|exact Hf].
  destruct (synthesize _ _ _ _ _) as [v|e].
  - destruct Hres as (l & -> & Hown).
    rewrite (sbind_ok _ _ _ _ _ Hrun).
    assert (Hdump : Store.dump l h' = (Ok v, h')).
    { unfold Store.dump. now rewrite (owns_snapshot _ _ _ _ Hown). }
    rewrite (sbind_ok _ _ _ _ _ Hdump). reflexivity.
  - subst r. now rewrite (sbind_raise _ _ _ _ _ Hrun).
Qed.

(** A sequence of calls keeps the templates and every object of the store
    it started from. *)
Lemma run_stored (self : Store.self_templates) (calls : list Store.call)
  (h : @Store.heap R) :
  Store.stored_templates self h = Some templates ->
  Store.stored_templates self (Store.run self calls h) = Some templates /\
  frame (List.length h) h (Store.run self calls h).
Proof.
  revert h; induction calls as [|c calls IH]; intros h Hst; simpl.
  - split; [exact Hst | apply frame_refl].
  - destruct (synthesize_sim self h (Store.c_animation_type c) (Store.c_emotion c)
                (Store.c_intensity c) (Store.c_character_id c)
                (Store.c_description c) Hst) as (r & h' & Hrun & Hf & _).
    rewrite Hrun. simpl.
    destruct (IH h' (stored_frame _ _ _ _ Hst Hf)) as [Hst' Hf'].
    split; [exact Hst'|].
    eapply frame_trans; [exact Hf|].
    eapply frame_weaken; [|exact Hf']. apply Hf.
Qed.

(** C8.  After any sequence of synthesize calls, with any motion names,
    emotion names, intensities, character ids and request texts, returned or
    raised, the stored templates read back as the same values as before the
    sequence (the template library's values), and every object of the
    initial store is unchanged.  Each further call changes no object of the
    store it starts from, and the animation it returns and that animation's
    keyframes are objects allocated by the call: the synthesizer works on a
    copy and shares nothing with the templates. *)
Theorem C8_templates_never_mutated (calls : list Store.call) :
  exists (self : Store.self_templates) (h0 : @Store.heap R),
    Store.init = (Ok self, h0) /\
    Store.stored_templates self h0 = Some templates /\
    let h := Store.run self calls h0 in
    Store.stored_templates self h = Store.stored_templates self h0 /\
    frame (List.length h0) h0 h /\
    forall c : Store.call,
      let result :=
        Store.synthesize self (Store.c_animation_type c) (Store.c_emotion c)
          (Store.c_intensity c) (Store.c_character_id c) (Store.c_description c) h in
      frame (List.length h) h (snd result) /\
      match fst result with
      | Ok l => exists v, owns (List.length h) l (snd result) v
      | Raise _ => True
      end.
Proof.
  destruct init_stored as (self & h0 & Hinit & Hst0).
  exists self, h0. split; [exact Hinit|]. split; [exact Hst0|].
  destruct (run_stored self calls h0 Hst0) as [Hst Hf].
  split; [congruence|]. split; [exact Hf|].
  intros c.
  destruct (synthesize_sim self (Store.run self calls h0)
              (Store.c_animation_type c) (Store.c_emotion c)
              (Store.c_intensity c) (Store.c_character_id c)
              (Store.c_description c) Hst) as (r & h' & Hrun & Hf' & Hres).
  rewrite Hrun. simpl. split; [exact Hf'|].
  destruct (synthesize _ _ _ _ _) as [v|e].
  - destruct Hres as (l & -> & Hown). eauto.
  - now subst r.
Qed.

(** C9.  In any store reached by a sequence of calls, running the synthesis
    twice on the same motion name, emotion name, intensity, character id and
    request text dumps the same animation data (or raises the same
    exception) both times: the result is the value-level function of the
    arguments.  The same holds for [generate_animation] from the
    description, for everything it saves but the generated identifier and the
    timestamp, which the model leaves out. *)
Theorem C9_synthesis_is_deterministic (calls : list Store.call) (c : Store.call) :
  exists (self : Store.self_templates) (h0 : @Store.heap R),
    Store.init = (Ok self, h0) /\
    let h := Store.run self calls h0 in
    let first := synthesize_and_dump self c h in
    let second := synthesize_and_dump self c (snd first) in
    fst first = fst second /\
    fst first =
      synthesize (Store.c_animation_type c) (Store.c_emotion c)
        (Store.c_intensity c) (Store.c_character_id c) (Store.c_description c) /\
    forall character_id description : string,
      let g1 := Store.generate_animation self character_id description h in
      let g2 := Store.generate_animation self character_id description (snd g1) in
      fst g1 = fst g2 /\
      fst g1 = generate_animation character_id description.
Proof.
  destruct init_stored as (self & h0 & Hinit & Hst0).
  exists self, h0. split; [exact Hinit|].
  destruct (run_stored self calls h0 Hst0) as [Hst _].
  cbv zeta.
  destruct (synthesize_and_dump_sim self _ c Hst) as (h1 & Hrun1 & Hf1).
  rewrite Hrun1. simpl.
  destruct (synthesize_and_dump_sim self h1 c (stored_frame _ _ _ _ Hst Hf1))
    as (h2 & Hrun2 & _).
  rewrite Hrun2. simpl. split; [reflexivity|]. split; [reflexivity|].
  intros character_id description.
  destruct (generate_animation_sim self _ character_id description Hst)
    as (g1 & Hg1 & Hfg1).
  rewrite Hg1. simpl.
  destruct (generate_animation_sim self g1 character_id description
              (stored_frame _ _ _ _ Hst Hfg1)) as (g2 & Hg2 & _).
  rewrite Hg2. simpl. split; reflexivity.
Qed.

End Purity.

(** What the deep copy is for: modulating a stored template where it stands
    changes the stored value (here the second "arm_right" rotation of the
    wave template, from 45 to 45 * 1.3). *)
Example modulation_in_place_would_mutate :
  let h0 := snd (@Store.init float float64) in
  let wave := 1%nat in
  Store.snapshot wave h0 = Some wave_template /\
  second_arm_rotation (Store.snapshot wave h0) = Some 45%float /\
  second_arm_rotation
    (Store.snapshot wave (snd (Store._apply_emotion wave "happy" 1%float h0)))
  = Some (45 * 1.3)%float.
Proof. split; [reflexivity|]. split; reflexivity. Qed.

(** After three calls the store has grown by nine objects and the templates
    are what they were. *)
Example templates_after_three_calls :
  let self := match fst (@Store.init float float64) with Ok s => s | Raise _ => [] end in
  let h := Store.run self
             [ Store.mk_call "wave" "happy" 1.5%float "hero" "sparkle";
               Store.mk_call "jump" "sad" 2%float "hero" "fire";
               Store.mk_call "unknown" "angry" 0.5%float "hero" "" ]
             (snd (@Store.init float float64)) in
  Store.stored_templates self h = Some templates /\ List.length h = 19%nat.
Proof. split; reflexivity. Qed.

(* ===================================================================== *)
(** * Further properties: the motion synthesizer *)
(* ===================================================================== *)

Section SynthesisOutcome.
Context {R : Type} {NR : Number R}.
Local Open Scope num_scope.

(** [_add_physics_and_effects] as one equation. *)
Lemma add_physics_eq (a : animation R) (description : string) (k : tracks R) :
  a_keyframes a = Some k ->
  _add_physics_and_effects a description =
  if Dict.mem "hair" k then Ok a
  else
    hair <- derived_hair (a_duration a) k ;;
    Ok {| a_name := a_name a;
          a_duration := a_duration a;
          a_keyframes := Some (if nonempty hair then Dict.set "hair" hair k else k);
          a_particles :=
            if nonempty (particles_of (a_duration a) description)
            then Some (particles_of (a_duration a) description)
            else a_particles a |}.
Proof.
  intros Hk. unfold _add_physics_and_effects, derived_hair. rewrite Hk. simpl.
  destruct (Dict.mem "hair" k) eqn:Hh; [reflexivity|].
  destruct (Dict.mem "root" k) eqn:Hr; simpl.
  - apply dict_mem_get in Hr. destruct Hr as [root Hroot]. rewrite Hroot. simpl.
    rewrite hair_loop_tail.
    destruct (mapM (hair_keyframe (a_duration a)) (tl root)) as [hair|e]; simpl;
      [|reflexivity].
    destruct a as [name d ko p]. simpl in *. subst ko.
    destruct (nonempty hair); simpl;
      destruct (nonempty (particles_of d description)); reflexivity.
  - destruct a as [name d ko p]. simpl in *. subst ko.
    destruct (nonempty (particles_of d description)); reflexivity.
Qed.

Lemma express_expressed (base : string) (kf kf' : keyframe R) :
  express base kf = Ok kf' -> expressed base kf kf'.
Proof.
  unfold express, expressed.
  destruct (kf_expression kf) as [e|] eqn:E; simpl; [|discriminate].
  destruct (String.eqb e "neutral") eqn:En; intros [= <-]; exists e; simpl;
    rewrite ?E, ?En; repeat split; auto.
Qed.

Lemma modulate_tracks_get (ed : emotion_data R) (e : R) (k k' : tracks R)
  (name : string) :
  modulate_tracks ed e k = Ok k' ->
  match Dict.get name k with
  | Some kfs =>
      exists kfs', Dict.get name k' = Some kfs' /\
                   modulate_track ed e name kfs = Ok kfs'
  | None => Dict.get name k' = None
  end.
Proof.
  unfold modulate_tracks, Dict.items. revert k'.
  induction k as [|[n kfs] k IH]; simpl; intros k' H.
  - now injection H as <-.
  - destruct (modulate_track ed e n kfs) as [kfs1|] eqn:E1; simpl in H;
      [|discriminate].
    destruct (mapM _ k) as [k1|] eqn:E2; simpl in H; [|discriminate].
    injection H as <-. simpl.
    destruct (String.eqb n name) eqn:En.
    + apply String.eqb_eq in En. subst n. eauto.
    + apply (IH k1 eq_refl).
Qed.

(** Every face keyframe of a template has an expression, so rewriting the
    expressions never raises on one. *)
Lemma templates_modulate (t : animation R) (ed : emotion_data R) (e : R) :
  In t (Dict.values templates) ->
  exists k k', a_keyframes t = Some k /\ modulate_tracks ed e k = Ok k'.
Proof.
  intros Hin. simpl in Hin.
  destruct Hin as [<-|[<-|[<-|[<-|[<-|[]]]]]]; do 2 eexists; split;
    reflexivity.
Qed.

Lemma templates_no_hair (t : animation R) :
  In t (Dict.values templates) ->
  exists k, a_keyframes t = Some k /\ Dict.mem "hair" k = false.
Proof.
  intros Hin. simpl in Hin.
  destruct Hin as [<-|[<-|[<-|[<-|[<-|[]]]]]]; eexists; split; reflexivity.
Qed.

(** What [_apply_emotion] returns on a stored template. *)
Lemma apply_emotion_on_template (t : animation R) (emotion : string) (intensity : R) :
  In t (Dict.values templates) ->
  if divides_by_zero emotion intensity
  then _apply_emotion t emotion intensity = Raise ZeroDivisionError
  else exists m, _apply_emotion t emotion intensity = Ok m.
Proof.
  intros Hin. unfold divides_by_zero, _apply_emotion, speed_modifier_of.
  destruct (Dict.get emotion emotions) as [ed|]; [|eauto].
  destruct (templates_modulate t ed
              (of_Z 1 + (energy (movement ed) - of_Z 1) * intensity) Hin)
    as (k & k' & Hk & Hm).
  destruct (negb (_ == of_Z 1)); simpl.
  - unfold py_div. destruct (_ == of_Z 0); simpl; [reflexivity|].
    rewrite Hk. simpl. rewrite Hm. simpl. eauto.
  - rewrite Hk. simpl. rewrite Hm. simpl. eauto.
Qed.

(** A modulated template always gets through [_add_physics_and_effects]. *)
Lemma add_physics_on_modulated (t m : animation R) (emotion : string)
  (intensity : R) (description : string) :
  In t (Dict.values templates) ->
  _apply_emotion t emotion intensity = Ok m ->
  exists (k : tracks R) (hair : list (keyframe R)),
    a_keyframes m = Some k /\ Dict.mem "hair" k = false /\
    derived_hair (a_duration m) k = Ok hair /\
    _add_physics_and_effects m description =
      Ok {| a_name := a_name m;
            a_duration := a_duration m;
            a_keyframes := Some (if nonempty hair then Dict.set "hair" hair k else k);
            a_particles :=
              if nonempty (particles_of (a_duration m) description)
              then Some (particles_of (a_duration m) description)
              else a_particles m |}.
Proof.
  intros Hin Happly.
  destruct (templates_no_hair t Hin) as (k0 & Hk0 & Hh0).
  destruct (apply_emotion_same_shape _ _ _ Happly Hk0) as (k & Hk & Hshape).
  assert (Hh : Dict.mem "hair" k = false)
    by (rewrite (same_shape_mem "hair" Hshape); exact Hh0).
  assert (Hhair : exists hair, derived_hair (a_duration m) k = Ok hair).
  { unfold derived_hair. destruct (Dict.mem "root" k) eqn:Hr; [|eauto].
    apply dict_mem_get in Hr. destruct Hr as [root Hroot]. rewrite Hroot. simpl.
    pose proof (@templates_root_ok R NR) as Hok. rewrite forallb_forall in Hok.
    specialize (Hok _ Hin). unfold root_track_ok in Hok. rewrite Hk0 in Hok.
    pose proof (same_shape_get "root" Hshape) as Hs. rewrite Hroot in Hs.
    destruct (Dict.get "root" k0) as [root0|]; [|contradiction].
    apply andb_true_iff in Hok. destruct Hok as [_ Ht].
    pose proof (same_keys_timed Hs Ht) as Ht'.
    apply hair_keyframes_total.
    destruct root as [|kf rest]; simpl in *; auto.
    apply andb_true_iff in Ht'. tauto. }
  destruct Hhair as [hair Hhair].
  exists k, hair. split; [exact Hk|]. split; [exact Hh|]. split; [exact Hhair|].
  rewrite (add_physics_eq m description k Hk), Hh, Hhair. reflexivity.
Qed.

(** The outcome of the pipeline: it raises exactly when [_apply_emotion]
    divides by a zero speed modifier. *)
Lemma synthesize_outcome (animation_type emotion : string) (intensity : R)
  (character_id description : string) :
  if divides_by_zero emotion intensity
  then synthesize animation_type emotion intensity character_id description
       = Raise ZeroDivisionError
  else exists out,
       synthesize animation_type emotion intensity character_id description = Ok out.
Proof.
  unfold synthesize, _adjust_for_character.
  destruct (get_template_total (R := R) animation_type) as [t Ht].
  rewrite Ht. simpl.
  pose proof (get_template_stored _ Ht) as Hin.
  pose proof (apply_emotion_on_template t emotion intensity Hin) as Ha.
  destruct (divides_by_zero emotion intensity).
  - now rewrite Ha.
  - destruct Ha as [m Hm]. rewrite Hm. simpl.
    destruct (add_physics_on_modulated t m emotion intensity description Hin Hm)
      as (k & hair & _ & _ & _ & Hout).
    rewrite Hout. eauto.
Qed.

End SynthesisOutcome.

Lemma first_key_in_cases (keys : list string) (description default : string) :
  first_key_in keys description default = default \/
  In (first_key_in keys description default) keys.
Proof.
  induction keys as [|name rest IH]; simpl; auto.
  destruct (str_in name description); tauto.
Qed.

Lemma first_word_in_cases {R} (words : list (string * R)) (description : string)
  (default : R) :
  first_word_in words description default = default \/
  In (first_word_in words description default) (map snd words).
Proof.
  induction words as [|[word modifier] rest IH]; simpl; auto.
  destruct (str_in word description); tauto.
Qed.

Section GeneratorProperties.
Context {R : Type} {NR : Number R}.
Local Open Scope num_scope.

(** X1 - lines 275-284 of [generate_animation] (template, emotion,
    character, physics and effects), called with any template name, emotion,
    intensity and description, raise in one case only: the emotion is known
    and the speed modifier [1 + (speed - 1) * intensity] is zero, where
    [_apply_emotion] raises [ZeroDivisionError].  In every other case they
    return an animation: no [KeyError] is possible. *)
Theorem X1_synthesis_raises_only_on_zero_speed
  (animation_type emotion : string) (intensity : R)
  (character_id description : string) :
  (divides_by_zero emotion intensity = true /\
   synthesize animation_type emotion intensity character_id description
   = Raise ZeroDivisionError) \/
  (divides_by_zero emotion intensity = false /\
   exists out : animation R,
     synthesize animation_type emotion intensity character_id description = Ok out).
Proof.
  pose proof (synthesize_outcome animation_type emotion intensity character_id
                description) as H.
  destruct (divides_by_zero emotion intensity); [left | right]; auto.
Qed.

Lemma parse_ranges (description : string) :
  In (fst (fst (_parse_description (R := R) description))) (Dict.keys (@templates R NR)) /\
  In (snd (fst (_parse_description (R := R) description))) parsed_emotions /\
  In (snd (_parse_description (R := R) description)) parsed_intensities.
Proof.
  unfold _parse_description, parsed_emotions, parsed_intensities. cbv zeta. cbn [fst snd].
  repeat split.
  - destruct (first_key_in_cases (Dict.keys (@templates R NR)) (lower description) "idle")
      as [-> | H]; [simpl; tauto | exact H].
  - destruct (first_key_in_cases (Dict.keys (@emotions R NR)) (lower description) "neutral")
      as [-> | H]; [now left | now right].
  - destruct (first_word_in_cases (Dict.items intensity_words) (lower description) (of_Z 1))
      as [-> | H]; [now left | now right].
Qed.

Lemma generate_animation_eq (character_id description : string) :
  generate_animation (R := R) character_id description =
  (animation_data <-
     synthesize (fst (fst (_parse_description description)))
                (snd (fst (_parse_description description)))
                (snd (_parse_description description)) character_id description ;;
   Ok {| g_character_id := character_id;
         g_description := description;
         g_animation_type := fst (fst (_parse_description description));
         g_emotion := snd (fst (_parse_description description));
         g_intensity := snd (_parse_description description);
         g_duration := a_duration animation_data;
         g_animation_data := animation_data |}).
Proof.
  unfold generate_animation.
  destruct (_parse_description description) as [[ty e] i]. reflexivity.
Qed.

Lemma parsed_never_divides (description : string) :
  parse_never_divides_by_zero (R := R) = true ->
  divides_by_zero (snd (fst (_parse_description (R := R) description)))
                  (snd (_parse_description description)) = false.
Proof.
  intros H. unfold parse_never_divides_by_zero in H.
  destruct (parse_ranges description) as (_ & He & Hi).
  rewrite forallb_forall in H. specialize (H _ He).
  rewrite forallb_forall in H. specialize (H _ Hi).
  now apply negb_true_iff in H.
Qed.

Lemma generate_animation_total (character_id description : string) :
  parse_never_divides_by_zero (R := R) = true ->
  exists g, generate_animation (R := R) character_id description = Ok g.
Proof.
  intros H. rewrite generate_animation_eq.
  pose proof (synthesize_outcome (fst (fst (_parse_description description)))
                (snd (fst (_parse_description description)))
                (snd (_parse_description description)) character_id description) as Hs.
  rewrite (parsed_never_divides description H) in Hs.
  destruct Hs as [out ->]. simpl. eauto.
Qed.

End GeneratorProperties.

(** X2 - [generate_animation] raises for no character identifier and no
    description, in binary64 and in exact arithmetic: the type, emotion and
    intensity [_parse_description] returns never make the speed modifier
    zero. *)
Theorem X2_generate_animation_never_raises :
  (forall character_id description : string,
     exists g, @generate_animation float float64 character_id description = Ok g) /\
  (forall character_id description : string,
     exists g, @generate_animation Q exactQ character_id description = Ok g).
Proof.
  split; intros c d; apply generate_animation_total; vm_compute; reflexivity.
Qed.

(** With an intensity no description gives, the division by zero is
    reached. *)
Example excited_by_minus_two_divides_by_zero :
  @synthesize float float64 "idle" "excited" (-2)%float "hero" ""
  = Raise ZeroDivisionError.
Proof. vm_compute. reflexivity. Qed.

Section EmotionModulation.
Context {R : Type} {NR : Number R}.
Local Open Scope num_scope.

(** What [_apply_emotion] returns for a known emotion. *)
Lemma apply_emotion_known (t m : animation R) (emotion : string) (intensity : R)
  (ed : emotion_data R) (k : tracks R) :
  _apply_emotion t emotion intensity = Ok m ->
  Dict.get emotion emotions = Some ed ->
  a_keyframes t = Some k ->
  exists k' : tracks R,
    modulate_tracks ed (of_Z 1 + (energy (movement ed) - of_Z 1) * intensity) k = Ok k' /\
    a_name m = a_name t /\
    a_duration m =
      (if speed_modifier_of ed intensity == of_Z 1 then a_duration t
       else a_duration t / speed_modifier_of ed intensity) /\
    a_keyframes m = Some k' /\
    a_particles m = a_particles t.
Proof.
  unfold _apply_emotion, speed_modifier_of. intros H Hed Hk. rewrite Hed in H.
  destruct (_ == of_Z 1); simpl in H.
  - rewrite Hk in H. simpl in H.
    destruct (modulate_tracks _ _ k) as [k'|]; simpl in H; [|discriminate].
    injection H as <-. exists k'. simpl. auto.
  - unfold py_div in H. destruct (_ == of_Z 0); simpl in H; [discriminate|].
    rewrite Hk in H. simpl in H.
    destruct (modulate_tracks _ _ k) as [k'|]; simpl in H; [|discriminate].
    injection H as <-. exists k'. simpl. auto.
Qed.

(** X3 - [_apply_emotion] with a known emotion rewrites the face track and
    nothing else of it: every face keyframe whose expression is "neutral"
    gets the emotion's base expression, every other expression is kept, and
    the times are unchanged. *)
Theorem X3_face_expressions_rewritten (t m : animation R) (emotion : string)
  (intensity : R) (ed : emotion_data R) (k : tracks R) (kfs : list (keyframe R)) :
  _apply_emotion t emotion intensity = Ok m ->
  Dict.get emotion emotions = Some ed ->
  a_keyframes t = Some k ->
  Dict.get "face" k = Some kfs ->
  exists (k' : tracks R) (kfs' : list (keyframe R)),
    a_keyframes m = Some k' /\
    Dict.get "face" k' = Some kfs' /\
    Forall2 (expressed (base_expression (face ed))) kfs kfs'.
Proof.
  intros H Hed Hk Hface.
  destruct (apply_emotion_known t m emotion intensity ed k H Hed Hk)
    as (k' & Hm & _ & _ & Hk' & _).
  pose proof (modulate_tracks_get ed _ k k' "face" Hm) as Hg.
  rewrite Hface in Hg. destruct Hg as (kfs' & Hg & Ht).
  exists k', kfs'. split; [exact Hk'|]. split; [exact Hg|].
  unfold modulate_track in Ht. rewrite String.eqb_refl in Ht.
  apply mapM_Forall2 in Ht.
  revert Ht. apply Forall2_impl. apply express_expressed.
Qed.


(** X5 - [_apply_emotion] never adds, drops, renames or reorders a track,
    never adds or drops a keyframe or a key of a keyframe, and never changes
    a keyframe's time, whatever the emotion and the intensity. *)
Theorem X5_modulation_keeps_the_shape (t m : animation R) (emotion : string)
  (intensity : R) (k : tracks R) :
  _apply_emotion t emotion intensity = Ok m ->
  a_keyframes t = Some k ->
  exists k' : tracks R,
    a_keyframes m = Some k' /\
    Dict.keys k' = Dict.keys k /\
    Forall2 (fun it it' => Forall2 same_keys (snd it) (snd it')) k k'.
Proof.
  intros H Hk.
  destruct (apply_emotion_same_shape _ _ _ H Hk) as (k' & Hk' & Hs).
  exists k'. split; auto. unfold same_shape in Hs.
  clear H Hk Hk'. split.
  - unfold Dict.keys. induction Hs as [|it it' k0 k0' [Hn _] _ IH]; simpl; auto.
    now rewrite Hn, IH.
  - revert Hs. apply Forall2_impl. tauto.
Qed.

End EmotionModulation.

(** X3 at a concrete request: the wave template, "happy", intensity 1.5, in
    binary64. *)
Lemma X3_happy_wave_witness :
  let modulated :=
    match @_apply_emotion float float64 wave_template "happy" 1.5%float with
    | Ok m => m
    | Raise _ => wave_template
    end in
  exists (k' : tracks float) (kfs' : list (keyframe float)),
    a_keyframes modulated = Some k' /\
    Dict.get "face" k' = Some kfs' /\
    Forall2 (expressed "happy")
      [ kf_te 0%float "neutral"; kf_te 2%float "neutral" ] kfs'.
Proof.
  intros modulated.
  apply (@X3_face_expressions_rewritten float float64 wave_template modulated
           "happy" 1.5%float
           (get_or (Dict.get "happy" emotions)
              (mk_emotion (mk_face "" 0%float) (mk_movement 0 0 0)%float))
           (get_or (a_keyframes wave_template) Dict.empty));
    reflexivity.
Defined.


(** X5 at the same request. *)
Lemma X5_happy_wave_witness :
  let modulated :=
    match @_apply_emotion float float64 wave_template "happy" 1.5%float with
    | Ok m => m
    | Raise _ => wave_template
    end in
  let k := get_or (a_keyframes (@wave_template float float64)) Dict.empty in
  exists k' : tracks float,
    a_keyframes modulated = Some k' /\
    Dict.keys k' = Dict.keys k /\
    Forall2 (fun it it' => Forall2 same_keys (snd it) (snd it')) k k'.
Proof.
  intros modulated k.
  apply (@X5_modulation_keeps_the_shape float float64 wave_template modulated
           "happy" 1.5%float k);
    reflexivity.
Defined.

Section SynthesizedOutput.
Context {R : Type} {NR : Number R}.
Local Open Scope num_scope.

Lemma apply_emotion_particles (t m : animation R) (emotion : string) (intensity : R) :
  _apply_emotion t emotion intensity = Ok m -> a_particles m = a_particles t.
Proof.
  unfold _apply_emotion. intros H.
  destruct (Dict.get emotion emotions) as [ed|]; [|now injection H as <-].
  destruct (negb (_ == of_Z 1)); simpl in H.
  - destruct (py_div _ _) as [d|]; simpl in H; [|discriminate].
    destruct (a_keyframes t) as [k|]; simpl in H; [|discriminate].
    destruct (modulate_tracks _ _ k) as [k'|]; simpl in H; [|discriminate].
    now injection H as <-.
  - destruct (a_keyframes t) as [k|]; simpl in H; [|discriminate].
    destruct (modulate_tracks _ _ k) as [k'|]; simpl in H; [|discriminate].
    now injection H as <-.
Qed.

Lemma templates_no_particles (t : animation R) :
  In t (Dict.values templates) -> a_particles t = None.
Proof.
  simpl. intros [<-|[<-|[<-|[<-|[<-|[]]]]]]; reflexivity.
Qed.

(** The parts of a synthesized animation. *)
Lemma synthesize_inv (animation_type emotion : string) (intensity : R)
  (character_id description : string) (out : animation R) :
  synthesize animation_type emotion intensity character_id description = Ok out ->
  exists (t m : animation R) (k : tracks R) (hair : list (keyframe R)),
    _get_template animation_type = Ok t /\
    _apply_emotion t emotion intensity = Ok m /\
    a_keyframes m = Some k /\ Dict.mem "hair" k = false /\
    derived_hair (a_duration m) k = Ok hair /\
    a_name out = a_name m /\
    a_duration out = a_duration m /\
    a_keyframes out = Some (if nonempty hair then Dict.set "hair" hair k else k) /\
    a_particles out =
      if nonempty (particles_of (a_duration m) description)
      then Some (particles_of (a_duration m) description)
      else None.
Proof.
  unfold synthesize, _adjust_for_character. intros H.
  destruct (_get_template animation_type) as [t|] eqn:Ht; simpl in H; [|discriminate].
  pose proof (get_template_stored _ Ht) as Hin.
  destruct (_apply_emotion t emotion intensity) as [m|] eqn:Hm; simpl in H;
    [|discriminate].
  destruct (add_physics_on_modulated t m emotion intensity description Hin Hm)
    as (k & hair & Hk & Hh & Hd & Hout).
  rewrite Hout in H. injection H as <-.
  exists t, m, k, hair. simpl.
  rewrite (apply_emotion_particles _ _ _ _ Hm), (templates_no_particles _ Hin).
  repeat split; auto.
Qed.

Lemma synthesize_hair_any_description (animation_type emotion : string)
  (intensity : R) (c d c' d' : string) (out out' : animation R) :
  synthesize animation_type emotion intensity c d = Ok out ->
  synthesize animation_type emotion intensity c' d' = Ok out' ->
  hair_within_duration out = hair_within_duration out'.
Proof.
  intros H H'.
  destruct (synthesize_inv _ _ _ _ _ _ H)
    as (t & m & k & hair & Ht & Hm & Hk & _ & Hd & _ & Hdur & Hkf & _).
  destruct (synthesize_inv _ _ _ _ _ _ H')
    as (t' & m' & k' & hair' & Ht' & Hm' & Hk' & _ & Hd' & _ & Hdur' & Hkf' & _).
  rewrite Ht in Ht'. injection Ht' as <-.
  rewrite Hm in Hm'. injection Hm' as <-.
  rewrite Hk in Hk'. injection Hk' as <-.
  rewrite Hd in Hd'. injection Hd' as <-.
  unfold hair_within_duration. now rewrite Hkf, Hkf', Hdur, Hdur'.
Qed.

Lemma generate_hair_within (character_id description : string) :
  parse_never_divides_by_zero (R := R) = true ->
  parsed_hair_within_duration (R := R) = true ->
  exists g, generate_animation (R := R) character_id description = Ok g /\
            hair_within_duration (g_animation_data g) = true.
Proof.
  intros Hz Hh.
  destruct (generate_animation_total character_id description Hz) as [g Hg].
  exists g. split; [exact Hg|].
  rewrite generate_animation_eq in Hg.
  destruct (parse_ranges description) as (Hty & He & Hi).
  destruct (synthesize _ _ _ character_id description) as [out|] eqn:Hs;
    simpl in Hg; [|discriminate].
  injection Hg as <-. simpl.
  unfold parsed_hair_within_duration in Hh.
  rewrite forallb_forall in Hh. specialize (Hh _ Hty).
  rewrite forallb_forall in Hh. specialize (Hh _ He).
  rewrite forallb_forall in Hh. specialize (Hh _ Hi).
  destruct (synthesize _ _ _ "" "") as [out0|] eqn:Hs0; [|discriminate].
  now rewrite (synthesize_hair_any_description _ _ _ _ _ _ _ _ _ Hs Hs0).
Qed.

(** X7 - the particles of a generated animation are read off the
    description as it was given, not lower-cased: the entry is absent when
    the description contains none of "sparkle", "magic", "fire", "water" and
    "splash"; otherwise it lists, in this order, a sparkle, a fire and a
    water effect for the words that occur, each lasting the animation's
    final duration. *)
Theorem X7_particles_of_generated_animation (character_id description : string)
  (g : generated R) :
  generate_animation character_id description = Ok g ->
  a_particles (g_animation_data g) =
    (if nonempty (particles_of (g_duration g) description)
     then Some (particles_of (g_duration g) description)
     else None) /\
  particles_of (g_duration g) description =
    (if str_in "sparkle" description || str_in "magic" description
     then [mk_particle "sparkle" (Some 10%Z) (Some (g_duration g)) (Some "#FFFF99")]
     else []) ++
    (if str_in "fire" description
     then [mk_particle "fire" (Some 20%Z) (Some (g_duration g)) (Some "#FF5500")]
     else []) ++
    (if str_in "water" description || str_in "splash" description
     then [mk_particle "water" (Some 15%Z) (Some (g_duration g)) (Some "#66CCFF")]
     else []).
Proof.
  intros Hg. split; [|reflexivity].
  rewrite generate_animation_eq in Hg.
  destruct (synthesize _ _ _ character_id description) as [out|] eqn:Hs;
    simpl in Hg; [|discriminate].
  injection Hg as <-. simpl.
  destruct (synthesize_inv _ _ _ _ _ _ Hs)
    as (t & m & k & hair & _ & _ & _ & _ & _ & _ & Hdur & _ & Hp).
  now rewrite Hp, Hdur.
Qed.

Lemma mapM_length {A B} (f : A -> res B) (l : list A) (l' : list B) :
  mapM f l = Ok l' -> List.length l' = List.length l.
Proof.
  intros H. apply mapM_Forall2 in H. symmetry. eapply Forall2_length_eq. exact H.
Qed.

(** X8 - [_add_physics_and_effects] runs once: when the animation it was
    given has a root track of two keyframes or more, what it returns has a
    hair track, and a further call returns it unchanged whatever the
    description, so that no particle effect can be added afterwards. *)
Theorem X8_physics_and_effects_run_once (a out : animation R)
  (description : string) (k : tracks R) (root : list (keyframe R)) :
  _add_physics_and_effects a description = Ok out ->
  a_keyframes a = Some k ->
  Dict.get "root" k = Some root ->
  (2 <= List.length root)%nat ->
  (exists k', a_keyframes out = Some k' /\ Dict.mem "hair" k' = true) /\
  forall description' : string,
    _add_physics_and_effects out description' = Ok out.
Proof.
  intros H Hk Hroot Hlen.
  assert (Hhair : exists k', a_keyframes out = Some k' /\ Dict.mem "hair" k' = true).
  { rewrite (add_physics_eq a description k Hk) in H.
    destruct (Dict.mem "hair" k) eqn:Hh.
    - injection H as <-. eauto.
    - unfold derived_hair in H.
      assert (Hr : Dict.mem "root" k = true) by (apply dict_mem_get; eauto).
      rewrite Hr, Hroot in H. simpl in H.
      destruct (mapM _ (tl root)) as [hair|] eqn:Hm; simpl in H; [|discriminate].
      apply mapM_length in Hm.
      destruct hair as [|hkf hair].
      { destruct root as [|r0 [|r1 root]]; simpl in *; lia. }
      injection H as <-. simpl. eexists. split; [reflexivity|].
      unfold Dict.mem. now rewrite dict_get_set_same. }
  split; [exact Hhair|].
  intros description'. destruct Hhair as (k' & Hk' & Hh').
  unfold _add_physics_and_effects. rewrite Hk'. simpl. now rewrite Hh'.
Qed.

(** X9 - the animation type [_parse_description] returns is always the name
    of a stored template, so that [_get_template] returns the template of
    that name and its fallback to "idle" for an unknown type is never
    taken by [generate_animation]; the emotion is "neutral" or a known
    emotion, and the intensity 1.0 or one of the seven listed modifiers. *)
Theorem X9_parsed_type_is_a_template (description : string) :
  exists t : animation R,
    Dict.get (fst (fst (_parse_description (R := R) description))) templates = Some t /\
    _get_template (fst (fst (_parse_description (R := R) description))) = Ok t /\
    In (snd (fst (_parse_description (R := R) description)))
       ["neutral"; "happy"; "sad"; "angry"; "scared"; "excited"] /\
    In (snd (_parse_description (R := R) description))
       [of_Z 1; dec 15 10; of_Z 2; dec 7 10; dec 5 10; of_Z 2; dec 18 10; dec 6 10].
Proof.
  destruct (parse_ranges description) as (Hty & He & Hi).
  apply dict_mem_keys in Hty.
  pose proof Hty as Hget. apply dict_mem_get in Hget. destruct Hget as [t Ht].
  exists t. split; [exact Ht|]. split.
  - unfold _get_template. rewrite Hty. unfold negb. rewrite Ht. reflexivity.
  - split; [exact He | exact Hi].
Qed.

End SynthesizedOutput.

(** X6 - in every animation [generate_animation] makes, whatever the
    description, the times of the hair keyframes are at most the
    animation's duration, in binary64 and in exact arithmetic: unlike the
    other tracks, the hair track is clamped to the duration after the
    emotion has changed it. *)
Theorem X6_hair_times_within_duration :
  (forall character_id description : string,
     exists g, @generate_animation float float64 character_id description = Ok g /\
               hair_within_duration (g_animation_data g) = true) /\
  (forall character_id description : string,
     exists g, @generate_animation Q exactQ character_id description = Ok g /\
               hair_within_duration (g_animation_data g) = true).
Proof.
  split; intros c d; apply generate_hair_within; vm_compute; reflexivity.
Qed.

(** X7 at a concrete request, in binary64. *)
Lemma X7_magic_fire_witness :
  let g :=
    match @generate_animation float float64 "hero" "happy jump with magic fire" with
    | Ok g => g
    | Raise _ =>
        mk_generated "" "" "" "" 0%float 0%float (mk_animation "" 0%float None None)
    end in
  let description := "happy jump with magic fire" in
  a_particles (g_animation_data g) =
    (if nonempty (particles_of (g_duration g) description)
     then Some (particles_of (g_duration g) description)
     else None) /\
  particles_of (g_duration g) description =
    (if str_in "sparkle" description || str_in "magic" description
     then [mk_particle "sparkle" (Some 10%Z) (Some (g_duration g)) (Some "#FFFF99")]
     else []) ++
    (if str_in "fire" description
     then [mk_particle "fire" (Some 20%Z) (Some (g_duration g)) (Some "#FF5500")]
     else []) ++
    (if str_in "water" description || str_in "splash" description
     then [mk_particle "water" (Some 15%Z) (Some (g_duration g)) (Some "#66CCFF")]
     else []).
Proof.
  intros g description.
  apply (@X7_particles_of_generated_animation float float64 "hero" description g).
  reflexivity.
Defined.

(** X8 at the jump template, in binary64. *)
Lemma X8_jump_witness :
  let out :=
    match @_add_physics_and_effects float float64 jump_template "a jump" with
    | Ok out => out
    | Raise _ => jump_template
    end in
  (exists k', a_keyframes out = Some k' /\ Dict.mem "hair" k' = true) /\
  forall description' : string,
    _add_physics_and_effects out description' = Ok out.
Proof.
  intros out.
  apply (@X8_physics_and_effects_run_once float float64 jump_template out "a jump"
           (get_or (a_keyframes jump_template) Dict.empty)
           (get_or (Dict.get "root" (get_or (a_keyframes jump_template) Dict.empty)) []));
    [reflexivity | reflexivity | reflexivity | simpl; lia].
Defined.

(* ===================================================================== *)
(** * Further properties: the rig builder *)
(* ===================================================================== *)

Lemma find_app {A} (f : A -> bool) (l1 l2 : list A) :
  find f (l1 ++ l2) =
  match find f l1 with Some x => Some x | None => find f l2 end.
Proof.
  induction l1 as [|a l1 IH]; simpl; auto. now destruct (f a).
Qed.

Lemma find_ext {A} (f g : A -> bool) (l : list A) :
  (forall a, f a = g a) -> find f l = find g l.
Proof.
  intros H. induction l as [|a l IH]; simpl; auto. now rewrite H, IH.
Qed.

Lemma fold_left_ext {A B} (f g : A -> B -> A) (l : list B) (a : A) :
  (forall a b, f a b = g a b) -> fold_left f l a = fold_left g l a.
Proof.
  intros H. revert a. induction l as [|b l IH]; simpl; intros a; auto.
  now rewrite H, IH.
Qed.

(** A loop of dictionary assignments: the value under a key is the one the
    last item assigning to that key gave. *)
Lemma fold_set_last {A V} (kv : A -> option (string * V)) (xs : list A)
  (d0 : Dict.t V) (key : string) :
  Dict.get key
    (fold_left (fun d x => match kv x with
                           | Some (k, v) => Dict.set k v d
                           | None => d
                           end) xs d0) =
  match find (fun x => match kv x with
                       | Some (k, _) => String.eqb k key
                       | None => false
                       end) (rev xs) with
  | Some x => option_map snd (kv x)
  | None => Dict.get key d0
  end.
Proof.
  revert d0. induction xs as [|x xs IH]; intros d0; simpl; auto.
  rewrite IH, find_app.
  destruct (find _ (rev xs)) as [y|]; auto.
  simpl. destruct (kv x) as [[k v]|] eqn:Ekv; auto.
  destruct (String.eqb k key) eqn:E.
  - apply String.eqb_eq in E. subst k. rewrite Ekv. simpl.
    apply dict_get_set_same.
  - apply String.eqb_neq in E. apply dict_get_set_other. congruence.
Qed.

Lemma fold_set_wf {A V} (kv : A -> option (string * V)) (xs : list A)
  (d0 : Dict.t V) :
  Dict.wf d0 ->
  Dict.wf (fold_left (fun d x => match kv x with
                                 | Some (k, v) => Dict.set k v d
                                 | None => d
                                 end) xs d0).
Proof.
  revert d0. induction xs as [|x xs IH]; intros d0 H; simpl; auto.
  apply IH. destruct (kv x) as [[k v]|]; auto using dict_set_wf.
Qed.

Section RigBuilder.
Context {R : Type} {NR : Number R}.
Local Open Scope num_scope.

(** Induction on a layer, with the property for the children. *)
Lemma layer_nested_ind (P : layer R -> Prop) :
  (forall l : layer R,
      (forall cs, l_children l = Some cs -> Forall P cs) -> P l) ->
  forall l, P l.
Proof.
  intros H. fix IH 1. intros [id name type path pos dims img children].
  apply H. simpl. intros cs E. destruct children as [cs0|]; [|discriminate].
  injection E as <-.
  induction cs0 as [|c cs0 IHcs]; constructor; [apply IH | exact IHcs].
Qed.

Lemma flatten_layer_eq (l : layer R) :
  flatten_layer l =
  (if negb (String.eqb (l_type l) "group") then [l] else []) ++
  _flatten_layers (get_or (l_children l) []).
Proof.
  destruct l as [id name type path pos dims img children]. simpl.
  f_equal. destruct children as [cs|]; simpl; [|reflexivity].
  induction cs as [|c cs IH]; simpl; [reflexivity|]. now rewrite IH.
Qed.

Lemma flatten_sound (l : layer R) :
  forall x, In x (flatten_layer l) ->
    (x = l \/ exists cs, l_children l = Some cs /\ within x cs) /\
    l_type x <> "group".
Proof.
  induction l as [l IH] using layer_nested_ind. intros x Hx.
  rewrite flatten_layer_eq, in_app_iff in Hx. destruct Hx as [Hx|Hx].
  - destruct (String.eqb (l_type l) "group") eqn:E; simpl in Hx; [tauto|].
    destruct Hx as [<-|[]]. split; [now left|]. now apply String.eqb_neq.
  - destruct (l_children l) as [cs|] eqn:Ec; simpl in Hx; [|tauto].
    specialize (IH cs eq_refl).
    unfold _flatten_layers in Hx. apply in_flat_map in Hx.
    destruct Hx as (c & Hc & Hx).
    rewrite Forall_forall in IH. destruct (IH c Hc x Hx) as [Hw Hg].
    split; [|exact Hg]. right. exists cs. split; [reflexivity|].
    destruct Hw as [-> | (cs' & Hcs' & Hw)].
    + now apply within_here.
    + eapply within_child; eauto.
Qed.

Lemma flatten_complete (x : layer R) (layers : list (layer R)) :
  within x layers -> l_type x <> "group" -> In x (_flatten_layers layers).
Proof.
  intros Hw Hg. induction Hw as [l layers Hin | l parent layers cs Hin Hc Hw IH].
  - unfold _flatten_layers. apply in_flat_map. exists l. split; [exact Hin|].
    rewrite flatten_layer_eq, in_app_iff. left.
    apply String.eqb_neq in Hg. rewrite Hg. simpl. now left.
  - unfold _flatten_layers. apply in_flat_map. exists parent. split; [exact Hin|].
    rewrite flatten_layer_eq, in_app_iff. right. rewrite Hc. simpl. auto.
Qed.

Lemma flatten_layers_iff (layers : list (layer R)) (l : layer R) :
  In l (_flatten_layers layers) <-> within l layers /\ l_type l <> "group".
Proof.
  split.
  - intros H. unfold _flatten_layers in H. apply in_flat_map in H.
    destruct H as (top & Htop & H).
    destruct (flatten_sound top l H) as [Hw Hg]. split; [|exact Hg].
    destruct Hw as [-> | (cs & Hcs & Hw)].
    + now apply within_here.
    + eapply within_child; eauto.
  - intros [Hw Hg]. now apply flatten_complete.
Qed.

(** X10 - [_flatten_layers] returns exactly the layers of the tree that are
    not groups: the layers given and everything below them through
    ["children"] lists, at any depth, whatever the type of the layer that
    has the children. *)
Theorem X10_flatten_layers_keeps_the_non_groups (layers : list (layer R))
  (l : layer R) :
  In l (_flatten_layers layers) <-> within l layers /\ l_type l <> "group".
Proof. apply flatten_layers_iff. Qed.

Lemma analyze_parts_eq (layers : list (layer R)) :
  parts (_analyze_character_structure layers) =
  fold_left (fun d l => match option_map (fun k => (k, l)) (part_of l) with
                        | Some (k, v) => Dict.set k v d
                        | None => d
                        end) (_flatten_layers layers) Dict.empty.
Proof.
  unfold _analyze_character_structure, part_of. cbn [parts].
  apply fold_left_ext.
  intros d l. destruct (matching_part _ _); reflexivity.
Qed.

Lemma analyze_parts_get (layers : list (layer R)) (part_key : string) :
  Dict.get part_key (parts (_analyze_character_structure layers)) =
  last_taken_for part_key (_flatten_layers layers).
Proof.
  rewrite analyze_parts_eq, fold_set_last. unfold last_taken_for.
  rewrite (find_ext _ (taken_for part_key)).
  - destruct (find _ _) as [l|] eqn:E; [|reflexivity].
    apply find_some in E. destruct E as [_ E]. unfold taken_for in E.
    destruct (part_of l); [reflexivity | discriminate].
  - intros l. unfold taken_for. now destruct (part_of l).
Qed.

Lemma matching_part_in (table : Dict.t (list string)) (text key : string) :
  matching_part table text = Some key -> In key (Dict.keys table).
Proof.
  induction table as [|[k ns] rest IH]; simpl; [discriminate|].
  destruct (existsb _ ns).
  - intros [= ->]. now left.
  - auto.
Qed.

Lemma existsb_str_in (names : list string) (text : string) :
  existsb (fun n => str_in n text) names = true <->
  exists n, In n names /\ substring_of n text.
Proof.
  rewrite existsb_exists. split; intros (n & Hin & H); exists n; split; auto;
    now apply str_in_spec.
Qed.

Lemma matching_part_spec (table : Dict.t (list string)) (text key : string) :
  matching_part table text = Some key <-> first_part table text key.
Proof.
  unfold first_part. induction table as [|[k ns] rest IH]; simpl.
  - split; [discriminate|]. intros (e & l & n & H & _). now destruct e.
  - destruct (existsb (fun n => str_in n text) ns) eqn:E.
    + split.
      * intros [= ->]. exists [], rest, ns. split; [reflexivity|].
        split; [now apply existsb_str_in|]. intros ? ? ? [].
      * intros (e & l & names & Ht & Hn & Hnone).
        destruct e as [|[k0 ns0] e]; simpl in Ht.
        -- now injection Ht as -> _ _.
        -- injection Ht as <- <- _. apply existsb_str_in in E.
           destruct E as (n & Hin & Hs). exfalso.
           apply (Hnone k ns n); simpl; auto.
    + rewrite IH. split.
      * intros (e & l & names & Ht & Hn & Hnone).
        exists ((k, ns) :: e), l, names. split; [simpl; now rewrite Ht|].
        split; [exact Hn|].
        intros k0 ns0 n [H|H] Hin.
        -- injection H as <- <-. intros Hs.
           assert (existsb (fun n => str_in n text) ns = true)
             by (apply existsb_str_in; eauto).
           congruence.
        -- eauto.
      * intros (e & l & names & Ht & Hn & Hnone).
        destruct e as [|[k0 ns0] e]; simpl in Ht.
        -- injection Ht as -> -> _. apply existsb_str_in in Hn. congruence.
        -- injection Ht as <- <- ->. exists e, l, names.
           split; [reflexivity|]. split; [exact Hn|].
           intros k1 ns1 n H. apply (Hnone k1 ns1 n). now right.
Qed.

Lemma analyze_parts_wf (layers : list (layer R)) :
  Dict.wf (parts (_analyze_character_structure layers)).
Proof.
  rewrite analyze_parts_eq. apply fold_set_wf. constructor.
Qed.

Lemma analyze_parts_keys (layers : list (layer R)) (part_key : string) :
  In part_key (Dict.keys (parts (_analyze_character_structure layers))) ->
  In part_key (Dict.keys body_parts).
Proof.
  intros H. apply dict_mem_keys, dict_mem_get in H. destruct H as [l Hl].
  rewrite analyze_parts_get in Hl. unfold last_taken_for in Hl.
  apply find_some in Hl. destruct Hl as [_ Hl]. unfold taken_for, part_of in Hl.
  destruct (matching_part _ _) as [k|] eqn:E; [|discriminate].
  apply String.eqb_eq in Hl. subst k. eapply matching_part_in. exact E.
Qed.

(** X11 - the layer [_analyze_character_structure] keeps for a body part is
    the last one, in the order of [_flatten_layers], that is taken for the
    part, and a part no layer is taken for has no entry; a layer is taken
    for the first part of the table one of whose names occurs in the
    layer's lower-cased name.  No part is kept twice. *)
Theorem X11_part_is_last_layer_taken_for_it (layers : list (layer R))
  (part_key : string) :
  Dict.get part_key (parts (_analyze_character_structure layers)) =
    last_taken_for part_key (_flatten_layers layers) /\
  (forall l : layer R,
      taken_for part_key l = true <->
      first_part body_parts (lower (l_name l)) part_key) /\
  NoDup (Dict.keys (parts (_analyze_character_structure layers))).
Proof.
  split; [apply analyze_parts_get|]. split; [|apply analyze_parts_wf].
  intros l. rewrite <- matching_part_spec. unfold taken_for, part_of, Dict.items.
  destruct (matching_part body_parts (lower (l_name l))) as [k|].
  - rewrite String.eqb_eq. split; congruence.
  - split; discriminate.
Qed.

Lemma part_loop_outcome (rig : rig_data R) (dims : dimensions R)
  (items : list (string * layer R)) :
  if existsb (fun it => lacks_dimensions (snd it)) items
  then part_loop rig dims items = Raise (KeyError "dimensions")
  else exists bs, part_loop rig dims items = Ok bs /\
                  map (@b_name R) (fst bs) = map fst items /\
                  snd bs = flat_map (fun it => part_slot (fst it) (snd it)) items.
Proof.
  induction items as [|[part_name l] rest IH]; simpl.
  - eexists. split; [reflexivity|]. auto.
  - unfold lacks_dimensions at 1, part_bone. simpl.
    destruct (l_position l) as [pos|]; simpl.
    + destruct (l_dimensions l) as [ld|]; simpl; [|reflexivity].
      destruct (existsb _ rest).
      * now rewrite IH.
      * destruct IH as (bs & -> & Hb & Hs). simpl. eexists. split; [reflexivity|].
        simpl. now rewrite Hb, Hs.
    + destruct (existsb _ rest).
      * now rewrite IH.
      * destruct IH as (bs & -> & Hb & Hs). simpl. eexists. split; [reflexivity|].
        simpl. now rewrite Hb, Hs.
Qed.

Lemma create_skeleton_outcome (rig : rig_data R) (dims : dimensions R) :
  if existsb (fun it => lacks_dimensions (snd it)) (Dict.items (parts rig))
  then _create_skeleton rig dims = Raise (KeyError "dimensions")
  else exists sk, _create_skeleton rig dims = Ok sk /\
                  map (@b_name R) (sk_bones sk) = "root" :: Dict.keys (parts rig) /\
                  sk_slots sk =
                    flat_map (fun it => part_slot (fst it) (snd it))
                             (Dict.items (parts rig)).
Proof.
  unfold _create_skeleton.
  pose proof (part_loop_outcome rig dims (Dict.items (parts rig))) as H.
  destruct (existsb _ _).
  - now rewrite H.
  - destruct H as (bs & -> & Hb & Hs). simpl. eexists. split; [reflexivity|].
    simpl. now rewrite Hb, Hs.
Qed.


(** What [rig_character] returns. *)
Lemma rig_character_inv (hash character_id : string)
  (metadata : character_metadata R) (project : spine_project R) :
  rig_character hash character_id metadata = Ok project ->
  let rig := _analyze_character_structure (layers_of metadata) in
  exists sk : skeleton R,
    _create_skeleton rig (cm_dimensions metadata) = Ok sk /\
    map (@b_name R) (sk_bones sk) = "root" :: Dict.keys (parts rig) /\
    sk_slots sk =
      flat_map (fun it => part_slot (fst it) (snd it)) (Dict.items (parts rig)) /\
    sp_bones project = sk_bones sk /\
    sp_slots project = sk_slots sk /\
    sp_skins project = [ ("default", _create_skin rig) ] /\
    sp_ik project = _create_ik_constraints rig sk /\
    sp_animations project = Dict.empty.
Proof.
  intros H rig. unfold rig_character in H. fold (layers_of metadata) in H.
  fold rig in H.
  pose proof (create_skeleton_outcome rig (cm_dimensions metadata)) as Hs.
  destruct (existsb _ _).
  - rewrite Hs in H. discriminate.
  - destruct Hs as (sk & Hsk & Hb & Hsl). rewrite Hsk in H. simpl in H.
    injection H as <-. exists sk. simpl. auto 10.
Qed.

Lemma root_is_no_part (layers : list (layer R)) :
  ~ In "root" (Dict.keys (parts (_analyze_character_structure layers))).
Proof.
  intros H. apply analyze_parts_keys in H. simpl in H.
  repeat (destruct H as [H|H]; [discriminate|]). exact H.
Qed.

(** X13 - in a project [rig_character] returns the bone names are distinct:
    "root" first, then one bone for each body part a layer was taken for, so
    at most eleven bones; "root" is the only bone without a parent; there
    are at most four IK constraints and no animation. *)
Theorem X13_rig_bones_are_distinct (hash character_id : string)
  (metadata : character_metadata R) (project : spine_project R) :
  rig_character hash character_id metadata = Ok project ->
  map (@b_name R) (sp_bones project) =
    "root" :: Dict.keys (parts (_analyze_character_structure (layers_of metadata))) /\
  NoDup (map (@b_name R) (sp_bones project)) /\
  (forall b, In b (sp_bones project) -> (b_parent b = None <-> b_name b = "root")) /\
  (List.length (sp_bones project) <= 11)%nat /\
  (List.length (sp_ik project) <= 4)%nat /\
  sp_animations project = Dict.empty.
Proof.
  intros H.
  destruct (rig_character_inv _ _ _ _ H)
    as (sk & Hsk & Hnames & _ & Hb & _ & _ & Hik & Han).
  rewrite Hb, Hnames.
  assert (Hnd : NoDup (Dict.keys (parts (_analyze_character_structure
                                           (layers_of metadata)))))
    by apply analyze_parts_wf.
  split; [reflexivity|]. split.
  { constructor; [apply root_is_no_part | exact Hnd]. }
  split.
  { intros b Hin.
    unfold _create_skeleton in Hsk.
    destruct (part_loop _ _ _) as [bs|] eqn:Hl; simpl in Hsk; [|discriminate].
    injection Hsk as <-. simpl in Hin, Hnames.
    destruct (part_loop_bones _ _ _ Hl) as [Hn Hp].
    destruct Hin as [<-|Hin]; [simpl; tauto|].
    rewrite (Hp b Hin). split; [discriminate|].
    intros Hroot. exfalso.
    apply (root_is_no_part (layers_of metadata)).
    unfold Dict.keys. unfold Dict.items in Hn. rewrite <- Hn, <- Hroot.
    now apply in_map. }
  split.
  { rewrite <- (length_map (@b_name R)), Hnames. simpl.
    apply le_n_S.
    change 10%nat with (List.length (Dict.keys body_parts)).
    apply NoDup_incl_length; [exact Hnd|].
    intros k Hk. now apply analyze_parts_keys in Hk. }
  split; [|exact Han].
  rewrite Hik. unfold _create_ik_constraints, limb_ik.
  repeat match goal with |- context [if ?c then _ else _] => destruct c end;
    simpl; lia.
Qed.

(** X14 - in a project [rig_character] returns every slot is named "slot_"
    followed by the name of its bone, which is one of the bones, and every IK
    constraint's target and bones are bones of the project. *)
Theorem X14_rig_slots_and_ik_refer_to_bones (hash character_id : string)
  (metadata : character_metadata R) (project : spine_project R) :
  rig_character hash character_id metadata = Ok project ->
  (forall s, In s (sp_slots project) ->
     s_name s = ("slot_" ++ s_bone s)%string /\
     In (s_bone s) (map (@b_name R) (sp_bones project))) /\
  (forall c, In c (sp_ik project) ->
     In (ik_target c) (map (@b_name R) (sp_bones project)) /\
     forall b, In b (ik_bones c) -> In b (map (@b_name R) (sp_bones project))).
Proof.
  intros H.
  destruct (rig_character_inv _ _ _ _ H)
    as (sk & _ & Hnames & Hslots & Hb & Hs & _ & Hik & _).
  rewrite Hb, Hs, Hik, Hnames, Hslots. split.
  - intros s Hin. apply in_flat_map in Hin. destruct Hin as ([part l] & Hit & Hin).
    unfold part_slot in Hin. simpl in Hin.
    destruct (has_image l); simpl in Hin; [|tauto].
    destruct Hin as [<-|[]]. simpl. split; [reflexivity|]. right.
    unfold Dict.keys. change part with (fst (part, l)). now apply in_map.
  - intros c Hin. apply create_ik_in in Hin.
    destruct Hin as (name & p & d & b & _ & Hp & Hd & ->). simpl.
    apply dict_mem_keys in Hp, Hd. split; [now right|].
    intros b0 [<-|[]]. now right.
Qed.

Lemma slot_name_inj (a b : string) :
  ("slot_" ++ a)%string = ("slot_" ++ b)%string -> a = b.
Proof. simpl. now intros [= ->]. Qed.

Lemma create_skin_get (rig : rig_data R) (part_name : string) (l : layer R) :
  Dict.wf (parts rig) ->
  Dict.get part_name (parts rig) = Some l ->
  Dict.get ("slot_" ++ part_name)%string (_create_skin rig) =
  match has_image l with
  | Some image_path =>
      Some [ (str_replace ".png" "" image_path, skin_attachment l image_path) ]
  | None => None
  end.
Proof.
  intros Hwf Hget.
  set (kv := fun item : string * layer R =>
               match has_image (snd item) with
               | Some image_path =>
                   Some (("slot_" ++ fst item)%string,
                         [ (str_replace ".png" "" image_path,
                            skin_attachment (snd item) image_path) ])
               | None => None
               end).
  assert (Heq : _create_skin rig =
                fold_left (fun d x => match kv x with
                                      | Some (k, v) => Dict.set k v d
                                      | None => d
                                      end) (Dict.items (parts rig)) Dict.empty).
  { unfold _create_skin. apply fold_left_ext. intros d [p l0]. unfold kv. simpl.
    destruct (has_image l0); [|reflexivity].
    unfold skin_attachment. now destruct (l_dimensions l0). }
  rewrite Heq, fold_set_last.
  destruct (find _ _) as [[p l0]|] eqn:E.
  - apply find_some in E. destruct E as [Hin E].
    apply in_rev in Hin. unfold kv in E |- *. simpl in E |- *.
    destruct (has_image l0) as [img|] eqn:Ei; [|discriminate].
    apply String.eqb_eq, slot_name_inj in E. subst p.
    apply (dict_in_get _ _ Hwf) in Hin. rewrite Hget in Hin. injection Hin as <-.
    now rewrite Ei.
  - destruct (has_image l) as [img|] eqn:Ei; [|reflexivity]. exfalso.
    apply dict_get_in in Hget.
    assert (Hf := find_none _ _ E (part_name, l)
                    (proj1 (in_rev _ _) Hget)).
    unfold kv in Hf. simpl in Hf. rewrite Ei in Hf.
    now rewrite String.eqb_refl in Hf.
Qed.

Lemma create_skin_keys (rig : rig_data R) (key : string) :
  Dict.mem key (_create_skin rig) = true ->
  exists part_name l image_path,
    In (part_name, l) (parts rig) /\ has_image l = Some image_path /\
    key = ("slot_" ++ part_name)%string.
Proof.
  unfold _create_skin, Dict.items.
  assert (Hgen : forall (items : list (string * layer R)) (d0 : skin R),
             Dict.mem key
               (fold_left
                  (fun (sk : skin R) (item : string * layer R) =>
                     let '(part_name, l) := item in
                     match has_image l with
                     | Some image_path =>
                         Dict.set ("slot_" ++ part_name)%string
                           [ (str_replace ".png" "" image_path,
                              {| at_x := of_Z 0; at_y := of_Z 0;
                                 at_width :=
                                   fst match l_dimensions l with
                                       | Some ldims => (width ldims, height ldims)
                                       | None => (of_Z 100, of_Z 100)
                                       end;
                                 at_height :=
                                   snd match l_dimensions l with
                                       | Some ldims => (width ldims, height ldims)
                                       | None => (of_Z 100, of_Z 100)
                                       end;
                                 at_path := image_path |}) ] sk
                     | None => sk
                     end) items d0) = true ->
             Dict.mem key d0 = true \/
             exists part_name l image_path,
               In (part_name, l) items /\ has_image l = Some image_path /\
               key = ("slot_" ++ part_name)%string).
  { induction items as [|[p l] items IH]; intros d0 H; simpl in H; [now left|].
    apply IH in H. destruct H as [H | (p' & l' & img & Hin & Hi & Hk)].
    - destruct (has_image l) as [img|] eqn:Ei; [|now left].
      apply dict_mem_keys in H. rewrite dict_keys_set in H.
      destruct (Dict.mem _ d0) eqn:Em.
      + left. now apply dict_mem_keys.
      + apply in_app_iff in H. destruct H as [H|[<-|[]]].
        * left. now apply dict_mem_keys.
        * right. exists p, l, img. simpl. auto.
    - right. exists p', l', img. simpl. auto. }
  intros H. apply Hgen in H. destruct H as [H|H]; [discriminate | exact H].
Qed.

(** X15 - in a project [rig_character] returns the one skin, "default", has
    exactly one entry for each slot, under the slot's name: a single
    attachment named like the slot's attachment, at (0, 0), with the layer's
    width and height (100 when the layer has no ["dimensions"]) and the
    layer's image path. *)
Theorem X15_rig_skin_matches_slots (hash character_id : string)
  (metadata : character_metadata R) (project : spine_project R) :
  rig_character hash character_id metadata = Ok project ->
  exists skin : skin R,
    sp_skins project = [ ("default", skin) ] /\
    (forall s, In s (sp_slots project) ->
       exists (l : layer R) (image_path : string),
         Dict.get (s_bone s)
           (parts (_analyze_character_structure (layers_of metadata))) = Some l /\
         has_image l = Some image_path /\
         s_attachment s = str_replace ".png" "" image_path /\
         Dict.get (s_name s) skin =
           Some [ (s_attachment s, skin_attachment l image_path) ]) /\
    (forall key, Dict.mem key skin = true ->
       exists s, In s (sp_slots project) /\ s_name s = key).
Proof.
  intros H.
  destruct (rig_character_inv _ _ _ _ H)
    as (sk & _ & _ & Hslots & _ & Hs & Hskin & _ & _).
  pose proof (analyze_parts_wf (layers_of metadata)) as Hwf.
  exists (_create_skin (_analyze_character_structure (layers_of metadata))).
  split; [exact Hskin|]. rewrite Hs, Hslots. split.
  - intros s Hin. apply in_flat_map in Hin. destruct Hin as ([part l] & Hit & Hin).
    unfold part_slot in Hin. simpl in Hin.
    destruct (has_image l) as [img|] eqn:Ei; simpl in Hin; [|tauto].
    destruct Hin as [<-|[]]. simpl.
    pose proof (dict_in_get _ _ Hwf Hit) as Hget.
    exists l, img. split; [exact Hget|]. split; [exact Ei|].
    split; [reflexivity|].
    change (String "s" (String "l" (String "o" (String "t" (String "_" part)))))
      with ("slot_" ++ part)%string.
    rewrite (create_skin_get _ part l Hwf Hget), Ei. reflexivity.
  - intros key Hk. apply create_skin_keys in Hk.
    destruct Hk as (part & l & img & Hin & Hi & ->).
    exists (mk_slot ("slot_" ++ part) part (str_replace ".png" "" img)).
    split; [|reflexivity].
    apply in_flat_map. exists (part, l). split; [exact Hin|].
    unfold part_slot. simpl. rewrite Hi. now left.
Qed.

End RigBuilder.

(** X13 at a character with a torso and a right hand, in binary64. *)
Lemma X13_torso_and_hand_witness :
  let project := rig_of torso_and_hand in
  map (@b_name float) (sp_bones project) =
    "root" :: Dict.keys (parts (_analyze_character_structure (layers_of torso_and_hand))) /\
  NoDup (map (@b_name float) (sp_bones project)) /\
  (forall b, In b (sp_bones project) -> (b_parent b = None <-> b_name b = "root")) /\
  (List.length (sp_bones project) <= 11)%nat /\
  (List.length (sp_ik project) <= 4)%nat /\
  sp_animations project = Dict.empty.
Proof.
  intros project.
  apply (@X13_rig_bones_are_distinct float float64 "hash" "hero" torso_and_hand project).
  reflexivity.
Defined.

(** X14 at the same character. *)
Lemma X14_torso_and_hand_witness :
  let project := rig_of torso_and_hand in
  (forall s, In s (sp_slots project) ->
     s_name s = ("slot_" ++ s_bone s)%string /\
     In (s_bone s) (map (@b_name float) (sp_bones project))) /\
  (forall c, In c (sp_ik project) ->
     In (ik_target c) (map (@b_name float) (sp_bones project)) /\
     forall b, In b (ik_bones c) -> In b (map (@b_name float) (sp_bones project))).
Proof.
  intros project.
  apply (@X14_rig_slots_and_ik_refer_to_bones float float64 "hash" "hero"
           torso_and_hand project).
  reflexivity.
Defined.

(** X15 at the same character. *)
Lemma X15_torso_and_hand_witness :
  let project := rig_of torso_and_hand in
  exists skin : skin float,
    sp_skins project = [ ("default", skin) ] /\
    (forall s, In s (sp_slots project) ->
       exists (l : layer float) (image_path : string),
         Dict.get (s_bone s)
           (parts (_analyze_character_structure (layers_of torso_and_hand))) = Some l /\
         has_image l = Some image_path /\
         s_attachment s = str_replace ".png" "" image_path /\
         Dict.get (s_name s) skin =
           Some [ (s_attachment s, skin_attachment l image_path) ]) /\
    (forall key, Dict.mem key skin = true ->
       exists s, In s (sp_slots project) /\ s_name s = key).
Proof.
  intros project.
  apply (@X15_rig_skin_matches_slots float float64 "hash" "hero" torso_and_hand project).
  reflexivity.
Defined.
(* ===================================================================== *)
(** * Further properties: the layer extraction *)
(* ===================================================================== *)

Lemma decimal_inj (a b : nat) : decimal a = decimal b -> a = b.
Proof.
  unfold decimal. intros H.
  assert (Hu : Nat.to_uint a = Nat.to_uint b).
  { pose proof (NilEmpty.usu (Nat.to_uint a)) as Ha.
    pose proof (NilEmpty.usu (Nat.to_uint b)) as Hb.
    rewrite H in Ha. rewrite Ha in Hb. now injection Hb. }
  rewrite <- (Unsigned.of_to a), <- (Unsigned.of_to b). now rewrite Hu.
Qed.

Section LayerExtraction.
Context {R : Type} {NR : Number R}.
Local Open Scope num_scope.

Lemma process_layer_eq (l : psd_layer) (parent_path : string) (i : nat) :
  process_layer (R := R) l parent_path i =
  if psd_is_hidden l then None else Some (layer_info l parent_path i).
Proof.
  destruct l as [name hidden group has_pixels [[[x0 y0] x1] y1] saved opacity blend].
  unfold layer_info. simpl.
  destruct hidden; [reflexivity|]. simpl.
  destruct (String.eqb parent_path ""); simpl.
  - destruct group as [layers|].
    + reflexivity.
    + unfold _save_layer_image. destruct has_pixels, saved; reflexivity.
  - destruct group as [layers|].
    + reflexivity.
    + unfold _save_layer_image. destruct has_pixels, saved; reflexivity.
Qed.

Lemma layer_info_id (l : psd_layer) (parent_path : string) (i : nat) :
  parsed_id (layer_info (R := R) l parent_path i) = ("layer_" ++ decimal i)%string /\
  parsed_name (layer_info (R := R) l parent_path i) = psd_name l.
Proof. unfold layer_info. destruct (psd_group l); simpl; auto. Qed.

(** The entries of the loop over the layers [ls], the first of index [i]. *)
Lemma enumerate_layers (ls : list psd_layer) (parent_path : string) (i : nat) :
  forall info : parsed_layer R,
    In info (enumerate_from i (map (fun l => process_layer l parent_path) ls)) <->
    exists (j : nat) (l : psd_layer),
      nth_error ls j = Some l /\ psd_is_hidden l = false /\
      info = layer_info l parent_path (i + j).
Proof.
  revert i. induction ls as [|l ls IH]; intros i info; simpl.
  - split; [tauto|]. intros (j & l & H & _). now destruct j.
  - rewrite process_layer_eq.
    assert (Hrest : In info (enumerate_from (S i)
                               (map (fun l => process_layer l parent_path) ls)) <->
                    exists j l0, nth_error (l :: ls) (S j) = Some l0 /\
                                 psd_is_hidden l0 = false /\
                                 info = layer_info l0 parent_path (i + S j)).
    { rewrite IH. split; intros (j & l0 & H1 & H2 & H3); exists j, l0;
        (split; [exact H1|]); (split; [exact H2|]);
        rewrite H3; f_equal; lia. }
    destruct (psd_is_hidden l) eqn:Eh.
    + rewrite Hrest. split; intros (j & l0 & H1 & H2 & H3).
      * exists (S j), l0. auto.
      * destruct j as [|j]; [simpl in H1; congruence|]. exists j, l0. auto.
    + simpl. rewrite Hrest. split.
      * intros [<- | (j & l0 & H1 & H2 & H3)].
        -- exists 0%nat, l. rewrite Nat.add_0_r. auto.
        -- exists (S j), l0. auto.
      * intros (j & l0 & H1 & H2 & H3). destruct j as [|j].
        -- left. simpl in H1. injection H1 as <-. now rewrite Nat.add_0_r in H3.
        -- right. exists j, l0. auto.
Qed.

Lemma enumerate_names (ls : list psd_layer) (parent_path : string) (i : nat) :
  map parsed_name
    (enumerate_from (R := R) i (map (fun l => process_layer l parent_path) ls)) =
  map psd_name (filter shown ls).
Proof.
  revert i. induction ls as [|l ls IH]; intros i; simpl; [reflexivity|].
  rewrite process_layer_eq. unfold shown at 1.
  destruct (psd_is_hidden l); simpl; [apply IH|].
  rewrite IH. f_equal. apply layer_info_id.
Qed.

Lemma enumerate_ids (ls : list psd_layer) (parent_path : string) (i : nat) :
  NoDup (map parsed_id
           (enumerate_from (R := R) i (map (fun l => process_layer l parent_path) ls))).
Proof.
  revert i. induction ls as [|l ls IH]; intros i; simpl; [constructor|].
  rewrite process_layer_eq.
  destruct (psd_is_hidden l); simpl; [apply IH|].
  constructor; [|apply IH].
  intros Hin. apply in_map_iff in Hin. destruct Hin as (info & Hid & Hin).
  apply enumerate_layers in Hin. destruct Hin as (j & l0 & _ & _ & ->).
  rewrite (proj1 (layer_info_id l0 parent_path (S i + j))) in Hid.
  rewrite (proj1 (layer_info_id l parent_path i)) in Hid.
  simpl in Hid. injection Hid as Hid. apply decimal_inj in Hid. lia.
Qed.

(** X16 - [_process_layers] lists the layers that are not hidden, from the
    last to the first; a hidden layer is left out with everything in it.
    The entry of a layer is numbered by its place in that reversed order,
    hidden layers counted, so the ids of the entries of one list are
    distinct; a group's entry holds the entries of its own layers, made the
    same way under the group's path. *)
Theorem X16_layers_listed_in_reverse_without_the_hidden (psd : list psd_layer)
  (parent_path : string) :
  map (@parsed_name R) (_process_layers psd parent_path) =
    map psd_name (filter shown (rev psd)) /\
  NoDup (map (@parsed_id R) (_process_layers psd parent_path)) /\
  (forall info : parsed_layer R,
      In info (_process_layers psd parent_path) <->
      exists (i : nat) (l : psd_layer),
        nth_error (rev psd) i = Some l /\ psd_is_hidden l = false /\
        info = layer_info l parent_path i).
Proof.
  unfold _process_layers. rewrite <- map_rev. split; [apply enumerate_names|].
  split; [apply enumerate_ids|].
  intros info. rewrite enumerate_layers. reflexivity.
Qed.

End LayerExtraction.

(* ===================================================================== *)
(** * Further properties: the storage directory *)
(* ===================================================================== *)

Lemma dict_set_in {V} (k : string) (v : V) (d : Dict.t V) : In (k, v) (Dict.set k v d).
Proof.
  induction d as [|[k0 v0] d IH]; simpl; [now left|].
  destruct (String.eqb k0 k) eqn:E; simpl; [|now right].
  apply String.eqb_eq in E. subst k0. now left.
Qed.



Section RiggingStoredCharacters.
Context {R : Type} {NR : Number R}.
Local Open Scope num_scope.




End RiggingStoredCharacters.

Section StorageProperties.
Context {R : Type} {NR : Number R}.
Local Open Scope num_scope.











(** What [generate_animation] does to the storage when it returns. *)
Lemma generate_animation_inv (token now character_id description : string)
  (s s' : Disk.storage R) (result : Disk.generation_result R) :
  Disk.generate_animation token now character_id description s =
    (Disk.Returns result, s') ->
  exists g : generated R,
    generate_animation character_id description = Ok g /\
    let animation_id := ("anim_" ++ token ++ "_" ++ g_animation_type g)%string in
    result = Disk.mk_generation_result animation_id (g_animation_type g)
               (g_emotion g) (g_duration g) /\
    s' = Disk.mk_storage (Disk.characters s)
           (Dict.set animation_id
              (Disk.mk_animation_dir
                 (Some (Disk.mk_animation_metadata (Some animation_id)
                          (Some character_id) (Some description)
                          (Some (g_animation_type g)) (Some (g_emotion g))
                          (g_intensity g) (Some (g_duration g)) (Some now)))
                 (Some (g_animation_data g)))
              (Disk.makedirs animation_id (Disk.mk_animation_dir None None)
                 (Disk.animations s)))
           (Disk.rigs s) (Disk.exports s).
Proof.
  unfold Disk.generate_animation, generate_animation.
  destruct (_parse_description description) as [[ty e] i].
  destruct (synthesize ty e i character_id description) as [data|err];
    [|discriminate].
  intros [= <- <-]. eexists. split; [reflexivity|]. simpl. split; reflexivity.
Qed.

(** X20 - an animation [generate_animation] has saved can be read back:
    under the identifier returned ("anim_", the generated token, "_" and the
    animation type), [get_animation_data] gives the synthesized animation
    and [get_animation_metadata] the character, description, type, emotion,
    intensity, duration and time of the call; [list_animations] for the
    character lists it; no other animation and no other directory changes.
    The character identifier is not looked up: any identifier is
    accepted. *)
Theorem X20_generated_animation_is_read_back (token now character_id
  description : string) (s s' : Disk.storage R)
  (result : Disk.generation_result R) :
  Disk.generate_animation token now character_id description s =
    (Disk.Returns result, s') ->
  exists g : generated R,
    let animation_id := ("anim_" ++ token ++ "_" ++ g_animation_type g)%string in
    generate_animation character_id description = Ok g /\
    Disk.gr_animation_id result = animation_id /\
    Disk.gr_animation_type result = g_animation_type g /\
    Disk.gr_emotion result = g_emotion g /\
    Disk.gr_duration result = a_duration (g_animation_data g) /\
    Disk.get_animation_data animation_id s' = Some (g_animation_data g) /\
    Disk.get_animation_metadata animation_id s' =
      Some (Disk.mk_animation_metadata (Some animation_id) (Some character_id)
              (Some description) (Some (g_animation_type g)) (Some (g_emotion g))
              (g_intensity g) (Some (a_duration (g_animation_data g))) (Some now)) /\
    In (Disk.mk_animation_entry (Some animation_id) (Some character_id)
          (Some description) (Some (g_animation_type g)) (Some (g_emotion g))
          (Some (a_duration (g_animation_data g))) (Some now))
       (Disk.list_animations (Some character_id) s') /\
    (forall other, other <> animation_id ->
       Dict.get other (Disk.animations s') = Dict.get other (Disk.animations s)) /\
    Disk.characters s' = Disk.characters s /\
    Disk.rigs s' = Disk.rigs s /\
    Disk.exports s' = Disk.exports s.
Proof.
  intros H. destruct (generate_animation_inv _ _ _ _ _ _ _ H) as (g & Hg & -> & ->).
  exists g. cbv zeta.
  assert (Hdur : g_duration g = a_duration (g_animation_data g)).
  { rewrite generate_animation_eq in Hg.
    destruct (synthesize _ _ _ _ _); simpl in Hg; [|discriminate].
    now injection Hg as <-. }
  rewrite Hdur.
  split; [exact Hg|].
  unfold Disk.get_animation_data, Disk.get_animation_metadata, Disk.list_animations.
  cbn [Disk.animations Disk.characters Disk.rigs Disk.exports Disk.gr_animation_id
       Disk.gr_animation_type Disk.gr_emotion Disk.gr_duration].
  rewrite dict_get_set_same. cbn [Disk.ad_animation Disk.ad_metadata].
  repeat (split; [reflexivity|]).
  split.
  { apply in_flat_map. eexists. split; [apply dict_set_in|].
    cbn [snd Disk.ad_metadata Disk.am_character_id Disk.for_character].
    rewrite String.eqb_refl. now left. }
  split; [|auto].
  intros other Hne. rewrite dict_get_set_other by exact Hne.
  unfold Disk.makedirs. destruct (Dict.mem _ _); [reflexivity|].
  now apply dict_get_set_other.
Qed.

End StorageProperties.


(** [basename] gives what follows the last "/". *)
Lemma basename_spec (p : string) :
  str_in "/" (basename p) = false /\
  ((str_in "/" p = false /\ basename p = p) \/
   exists directory, p = (directory ++ "/" ++ basename p)%string).
Proof.
  induction p as [|c p IH].
  - split; [reflexivity|]. left. split; reflexivity.
  - cbn [basename]. destruct (str_in "/" p) eqn:Es.
    + destruct IH as [Hb [[Hn _] | [d Hd]]]; [congruence|].
      split; [exact Hb|]. right. exists (String c d). simpl. f_equal. exact Hd.
    + destruct (Ascii.eqb c "/") eqn:Ec.
      * apply Ascii.eqb_eq in Ec. subst c. split; [exact Es|]. right.
        now exists "".
      * assert (Hcp : str_in "/" (String c p) = false).
        { change (str_in "/" (String c p))
            with (String.prefix "/" (String c p) || str_in "/" p).
          rewrite Es, orb_false_r.
          destruct (String.prefix "/" (String c p)) eqn:Ep; [|reflexivity].
          apply prefix_spec in Ep. destruct Ep as [r Hr]. simpl in Hr.
          injection Hr as -> _. discriminate. }
        split; [exact Hcp|]. left. split; [exact Hcp | reflexivity].
Qed.

Section ParsePsd.
Context {R : Type} {NR : Number R}.



End ParsePsd.

Section ReachableStorage.
Context {R : Type} {NR : Number R}.











End ReachableStorage.

Section ImportRigGenerateExport.



End ImportRigGenerateExport.

(** In the demonstration document the torso and the right hand, at
    different depths, get the same id and the same image name. *)
Example nested_layers_share_an_image_name :
  match demo_document with
  | Disk.PsdDocument _ _ psd =>
      _process_layers (R := float) psd "" =
      [ GroupLayer "layer_0" "Arms" "Arms" true
          [ PixelLayer "layer_1" "RightHand" "Arms/RightHand" true
              (10, 20)%Z (30, 40)%Z 1%float "normal" (Some "layer_1.png") ];
        PixelLayer "layer_1" "Torso" "Torso" true (60, 80)%Z (80, 120)%Z
          1%float "BlendMode.NORMAL" (Some "layer_1.png") ]
  | _ => False
  end.
Proof. vm_compute. reflexivity. Qed.



(** X20 at a request on the empty storage, in binary64. *)
Lemma X20_happy_jump_witness :
  let out :=
    Disk.generate_animation "33333333" "t2" "hero" "happy jump"
      (@Disk.empty_storage float) in
  let result := returned (Disk.mk_generation_result "" "" "" 0%float) (fst out) in
  let s := @Disk.empty_storage float in
  let s' := snd out in
  exists g : generated float,
    let animation_id := ("anim_" ++ "33333333" ++ "_" ++ g_animation_type g)%string in
    generate_animation "hero" "happy jump" = Ok g /\
    Disk.gr_animation_id result = animation_id /\
    Disk.gr_animation_type result = g_animation_type g /\
    Disk.gr_emotion result = g_emotion g /\
    Disk.gr_duration result = a_duration (g_animation_data g) /\
    Disk.get_animation_data animation_id s' = Some (g_animation_data g) /\
    Disk.get_animation_metadata animation_id s' =
      Some (Disk.mk_animation_metadata (Some animation_id) (Some "hero")
              (Some "happy jump") (Some (g_animation_type g)) (Some (g_emotion g))
              (g_intensity g) (Some (a_duration (g_animation_data g))) (Some "t2")) /\
    In (Disk.mk_animation_entry (Some animation_id) (Some "hero")
          (Some "happy jump") (Some (g_animation_type g)) (Some (g_emotion g))
          (Some (a_duration (g_animation_data g))) (Some "t2"))
       (Disk.list_animations (Some "hero") s') /\
    (forall other, other <> animation_id ->
       Dict.get other (Disk.animations s') = Dict.get other (Disk.animations s)) /\
    Disk.characters s' = Disk.characters s /\
    Disk.rigs s' = Disk.rigs s /\
    Disk.exports s' = Disk.exports s.
Proof.
  intros out result s s'.
  apply (@X20_generated_animation_is_read_back float float64 "33333333" "t2" "hero"
           "happy jump" s s' result).
  vm_compute. reflexivity.
Defined.


